(** * go-octoprint, [common.go]: decoders and connection-state classifier

    A shallow embedding of the two custom JSON decoders
    ([TemperatureState.UnmarshalJSON], [HistoricTemperatureData.UnmarshalJSON])
    and of the five [ConnectionState] predicates, together with the parts of
    Go's [strings], [encoding/json] and [time] packages they call, and of
    the decoding of a [FullStateResponse], which calls the first of them. *)

From Stdlib Require Import ZArith List String Ascii Bool Lia.
From Stdlib Require Import Sorting.Permutation.
From Stdlib Require Import Floats.SpecFloat.
From Stdlib Require Import Structures.OrderedTypeEx.
Import ListNotations.

#[local] Set Warnings "-register-all".

Local Open Scope string_scope.

(* ================================================================= *)
(** ** Package [strings] *)

Module strings.

(** [strings.HasPrefix(s, prefix)]:
    [len(s) >= len(prefix) && s[0:len(prefix)] == prefix]. *)
Definition HasPrefix (s prefix : string) : bool :=
  (String.length prefix <=? String.length s)%nat
  && (substring 0 (String.length prefix) s =? prefix).

End strings.

(* ================================================================= *)
(** ** [ConnectionState] *)

Definition ConnectionState := string.

Definition IsOperational (s : ConnectionState) : bool :=
  strings.HasPrefix s "Operational" ||
  strings.HasPrefix s "Transfering" ||
  strings.HasPrefix s "Paused".

Definition IsPrinting (s : ConnectionState) : bool :=
  strings.HasPrefix s "Printing" ||
  strings.HasPrefix s "Sending" ||
  strings.HasPrefix s "Paused".

Definition IsOffline (s : ConnectionState) : bool :=
  strings.HasPrefix s "Offline" ||
  strings.HasPrefix s "Closed".

Definition IsError (s : ConnectionState) : bool :=
  strings.HasPrefix s "Error" ||
  strings.HasPrefix s "Unknown".

Definition IsConnecting (s : ConnectionState) : bool :=
  strings.HasPrefix s "Opening" ||
  strings.HasPrefix s "Detecting" ||
  strings.HasPrefix s "Connecting" ||
  strings.HasPrefix s "Detecting".

(* ================================================================= *)
(** ** Numbers: [float64] and [int64] *)

Local Open Scope Z_scope.

(** A [float64] is an IEEE 754 binary64 datum. *)
Definition float64 := spec_float.

(** Neither an infinity nor a NaN. *)
Definition isFinite (f : float64) : bool :=
  match f with
  | S754_zero _ | S754_finite _ _ _ => true
  | S754_infinity _ | S754_nan => false
  end.

(** The float64 nearest to an integer (round to nearest even). *)
Definition float64_of_Z (n : Z) : float64 := binary_normalize 53 1024 n 0 false.

(** The integer part of a finite float: [m * 2^e] rounded toward zero. *)
Definition truncate (f : float64) : option Z :=
  match f with
  | S754_zero _ => Some 0
  | S754_finite s m e => Some (cond_Zopp s (Z.shiftl (Z.pos m) e))
  | S754_infinity _ | S754_nan => None
  end.

Definition minInt64 : Z := - 2 ^ 63.
Definition maxInt64 : Z := 2 ^ 63 - 1.

Definition wrap64 (z : Z) : Z := (z + 2 ^ 63) mod 2 ^ 64 - 2 ^ 63.

(** The conversion [int64(f)] of a [float64].  The fraction is discarded;
    when the integer part does not fit, the language leaves the result to
    the implementation, here [convOverflow]. *)
Definition int64_of_float64 (convOverflow : float64 -> Z) (f : float64) : Z :=
  match truncate f with
  | Some z => if (minInt64 <=? z) && (z <=? maxInt64) then z
              else wrap64 (convOverflow f)
  | None => wrap64 (convOverflow f)
  end.

(* ================================================================= *)
(** ** Package [strconv] *)

Module strconv.

(** A number literal of a JSON text.  A literal made of digits only, with
    a minus sign when negative, is the integer it writes ([-0] is of the
    other kind).  Of any other literal, with a fraction or an exponent,
    only the [float64] nearest to it is kept. *)
Inductive number :=
| Integer (z : Z)
| Decimal (f : float64).

(** [strconv.ParseFloat(s, 64)]: the nearest [float64], to even on a
    tie; an infinity stands for [ErrRange]. *)
Definition ParseFloat (n : number) : float64 :=
  match n with
  | Integer z => float64_of_Z z
  | Decimal f => f
  end.

(** The same datum, field by field. *)
Definition float64_eqb (f g : float64) : bool :=
  match f, g with
  | S754_zero s, S754_zero s' => Bool.eqb s s'
  | S754_infinity s, S754_infinity s' => Bool.eqb s s'
  | S754_nan, S754_nan => true
  | S754_finite s m e, S754_finite s' m' e' =>
      Bool.eqb s s' && (m =? m')%positive && (e =? e')
  | _, _ => false
  end.

(** [strconv.FormatFloat(f, 'f', -1, 64)], which [json.Marshal] uses for
    magnitudes from 1e-6 up to 1e21, and the ['e'] format it uses
    otherwise: the shortest literal that [ParseFloat] reads as [f].  For
    an integer of magnitude up to 2^53 these are its digits; of the
    literal of any other [float64] only that [float64] is kept. *)
Definition FormatFloat (f : float64) : number :=
  match truncate f with
  | Some z =>
      if (Z.abs z <=? 2 ^ 53) && float64_eqb (float64_of_Z z) f
      then Integer z
      else Decimal f
  | None => Decimal f
  end.

End strconv.

(* ================================================================= *)
(** ** JSON texts and Go errors *)

(** A JSON value as the scanner of [encoding/json] delimits it.  A string
    literal is carried unquoted.  The members of an object come in the
    order of the text and may repeat a key. *)
Inductive doc :=
| DNull
| DBool (b : bool)
| DNumber (n : strconv.number)
| DString (s : string)
| DArray (elems : list doc)
| DObject (members : list (string * doc)).

(** A byte slice handed to [json.Unmarshal]: either it is not a JSON text
    (this includes the nil slice), or it encodes one value. *)
Inductive bytes :=
| Malformed
| Encoding (d : doc).

(** Values of the interface type [error]. *)
Inductive error :=
| SyntaxError (msg : string)
| UnmarshalTypeError (Value : string) (Type_ : string)
| ErrorString (msg : string).

(** How a call ends: it returns, or the goroutine panics. *)
Inductive outcome (A : Type) :=
| Returns (a : A)
| Panics (msg : string).
Arguments Returns {A} a.
Arguments Panics {A} msg.

(* ================================================================= *)
(** ** Package [time] *)

Module time.

(** *** The proleptic Gregorian calendar, years 0 to 9999 *)

Definition isLeap (y : Z) : bool :=
  (y mod 4 =? 0)%Z && (negb (y mod 100 =? 0)%Z || (y mod 400 =? 0)%Z).

(** Days from 0000-01-01 to the first of January of year [y]. *)
Definition daysBeforeYear (y : Z) : Z :=
  (365 * y + (y + 3) / 4 - (y + 99) / 100 + (y + 399) / 400)%Z.

(** The year a day number (counted from 0000-01-01) falls in. *)
Definition yearOfDay (d : Z) : Z :=
  let y := (d * 400 / 146097)%Z in
  if (daysBeforeYear (y + 1) <=? d)%Z then (y + 1)%Z
  else if (d <? daysBeforeYear y)%Z then (y - 1)%Z
  else y.

(** Days of the year before the first of month [m] (1 to 12; 13 gives the
    length of the year). *)
Definition daysBeforeMonth (leap : bool) (m : Z) : Z :=
  let l := if leap then 1%Z else 0%Z in
  match m with
  | 1 => 0 | 2 => 31 | 3 => 59 + l | 4 => 90 + l | 5 => 120 + l
  | 6 => 151 + l | 7 => 181 + l | 8 => 212 + l | 9 => 243 + l
  | 10 => 273 + l | 11 => 304 + l | 12 => 334 + l | _ => 365 + l
  end%Z.

Definition monthOfYearDay (leap : bool) (yd : Z) : Z :=
  if (yd <? daysBeforeMonth leap 2)%Z then 1
  else if (yd <? daysBeforeMonth leap 3)%Z then 2
  else if (yd <? daysBeforeMonth leap 4)%Z then 3
  else if (yd <? daysBeforeMonth leap 5)%Z then 4
  else if (yd <? daysBeforeMonth leap 6)%Z then 5
  else if (yd <? daysBeforeMonth leap 7)%Z then 6
  else if (yd <? daysBeforeMonth leap 8)%Z then 7
  else if (yd <? daysBeforeMonth leap 9)%Z then 8
  else if (yd <? daysBeforeMonth leap 10)%Z then 9
  else if (yd <? daysBeforeMonth leap 11)%Z then 10
  else if (yd <? daysBeforeMonth leap 12)%Z then 11
  else 12.

(** A civil date and time of day. *)
Record Clock := {
  year : Z; month : Z; day : Z; hour : Z; minute : Z; second : Z
}.

(** Seconds from 0000-01-01T00:00:00 to 1970-01-01T00:00:00. *)
Definition unixEpoch : Z := daysBeforeYear 1970 * 86400.

(** Seconds from 0000-01-01T00:00:00 to 10000-01-01T00:00:00. *)
Definition endOfYears : Z := daysBeforeYear 10000 * 86400.

(** The clock reading of a count of seconds since 0000-01-01T00:00:00. *)
Definition clockOf (abs : Z) : Clock :=
  let d := (abs / 86400)%Z in
  let r := (abs mod 86400)%Z in
  let y := yearOfDay d in
  let yd := (d - daysBeforeYear y)%Z in
  let m := monthOfYearDay (isLeap y) yd in
  {| year := y; month := m;
     day := yd - daysBeforeMonth (isLeap y) m + 1;
     hour := r / 3600; minute := r / 60 mod 60; second := r mod 60 |}.

(** A clock reading is a date of the calendar and a time of the day. *)
Definition validClock (c : Clock) : bool :=
  (0 <=? year c)%Z && (year c <=? 9999)%Z &&
  (1 <=? month c)%Z && (month c <=? 12)%Z &&
  (1 <=? day c)%Z &&
  (day c <=? daysBeforeMonth (isLeap (year c)) (month c + 1)
             - daysBeforeMonth (isLeap (year c)) (month c))%Z &&
  (0 <=? hour c)%Z && (hour c <=? 23)%Z &&
  (0 <=? minute c)%Z && (minute c <=? 59)%Z &&
  (0 <=? second c)%Z && (second c <=? 59)%Z.

(** Seconds since 0000-01-01T00:00:00 of a clock reading. *)
Definition absOf (c : Clock) : Z :=
  ((daysBeforeYear (year c)
    + daysBeforeMonth (isLeap (year c)) (month c) + (day c - 1)) * 86400
   + hour c * 3600 + minute c * 60 + second c)%Z.

(** *** Instants *)

Inductive Location :=
| UTC
| Local
| FixedZone (offset : Z).

(** An instant: seconds and nanoseconds since 1970-01-01T00:00:00Z, and
    the location it is shown in. *)
Record Time := { unixSec : Z; nsec : Z; loc : Location }.

(** The zero [Time]: January 1, year 1, 00:00:00 UTC. *)
Definition zeroTime : Time :=
  {| unixSec := daysBeforeYear 1 * 86400 - unixEpoch; nsec := 0; loc := UTC |}.

(** [time.Unix(sec, nsec)]: the local [Time] of a Unix time. *)
Definition Unix (sec nsec : Z) : Time :=
  let n := if (nsec <? 0) || (1000000000 <=? nsec)
           then Z.quot nsec 1000000000 else 0 in
  let sec := sec + n in
  let nsec := nsec - n * 1000000000 in
  let (sec, nsec) := if nsec <? 0 then (sec - 1, nsec + 1000000000)
                     else (sec, nsec) in
  {| unixSec := wrap64 sec; nsec := nsec; loc := Local |}.

(** *** RFC 3339 text *)

Definition digit (n : Z) : ascii := ascii_of_N (Z.to_N (48 + n)).

Definition num2 (n : Z) : string :=
  String (digit (n / 10)) (String (digit (n mod 10)) EmptyString).

Definition num4 (n : Z) : string := (num2 (n / 100) ++ num2 (n mod 100))%string.

Definition formatClock (c : Clock) : string :=
  (num4 (year c) ++ "-" ++ num2 (month c) ++ "-" ++ num2 (day c) ++ "T"
   ++ num2 (hour c) ++ ":" ++ num2 (minute c) ++ ":" ++ num2 (second c))%string.

(** The digits of a fraction of a second, up to the last one that is not
    zero. *)
Fixpoint fractionDigits (k : nat) (n : Z) : string :=
  match k with
  | O => EmptyString
  | S k' => if n =? 0 then EmptyString
            else String (digit (n / 10 ^ Z.of_nat k'))
                        (fractionDigits k' (n mod 10 ^ Z.of_nat k'))
  end.

Definition formatFraction (nsec : Z) : string :=
  if nsec =? 0 then EmptyString else String "." (fractionDigits 9 nsec).

(** The zone: [Z] for offset zero, else sign, hours and minutes; the
    seconds of the offset are not written. *)
Definition formatZone (offset : Z) : string :=
  if offset =? 0 then "Z"%string
  else
    let zone := Z.quot offset 60 in
    ((if (zone <? 0)%Z then "-" else "+")
     ++ num2 (Z.abs zone / 60) ++ ":" ++ num2 (Z.abs zone mod 60))%string.

Definition digitValue (c : ascii) : option Z :=
  let n := Z.of_N (N_of_ascii c) in
  if (48 <=? n) && (n <=? 57) then Some (n - 48) else None.

(** Read exactly [k] digits. *)
Fixpoint readNumber (k : nat) (acc : Z) (s : string) : option (Z * string) :=
  match k with
  | O => Some (acc, s)
  | S k' =>
      match s with
      | String c r =>
          match digitValue c with
          | Some v => readNumber k' (10 * acc + v) r
          | None => None
          end
      | EmptyString => None
      end
  end.

Definition expect (c : ascii) (s : string) : option string :=
  match s with
  | String c' r => if Ascii.eqb c c' then Some r else None
  | EmptyString => None
  end.

(** Read the digits of a fraction; those after the ninth do not count. *)
Fixpoint readFraction (scale acc : Z) (s : string) : Z * string :=
  match s with
  | String c r =>
      match digitValue c with
      | Some v => readFraction (scale / 10) (acc + v * scale) r
      | None => (acc, s)
      end
  | EmptyString => (acc, s)
  end.

Definition startsWithDigit (s : string) : bool :=
  match s with
  | String c _ => match digitValue c with Some _ => true | None => false end
  | EmptyString => false
  end.

(** The zone of an RFC 3339 text: [None] for the letter [Z], else the
    offset in seconds. *)
Definition parseZone (s : string) : option (option Z) :=
  match s with
  | String c r =>
      if Ascii.eqb c "Z" then
        match r with EmptyString => Some None | _ => None end
      else if Ascii.eqb c "+" || Ascii.eqb c "-" then
        match readNumber 2 0 r with
        | Some (hr, r1) =>
            match expect ":" r1 with
            | Some r2 =>
                match readNumber 2 0 r2 with
                | Some (mm, EmptyString) =>
                    if (hr <=? 23) && (mm <=? 59) then
                      let o := (hr * 60 + mm) * 60 in
                      Some (Some (if Ascii.eqb c "-" then - o else o))
                    else None
                | _ => None
                end
            | None => None
            end
        | None => None
        end
      else None
  | EmptyString => None
  end.

Definition parseClock (s : string) : option (Clock * string) :=
  match readNumber 4 0 s with
  | Some (y, s) =>
  match expect "-" s with
  | Some s =>
  match readNumber 2 0 s with
  | Some (mo, s) =>
  match expect "-" s with
  | Some s =>
  match readNumber 2 0 s with
  | Some (d, s) =>
  match expect "T" s with
  | Some s =>
  match readNumber 2 0 s with
  | Some (h, s) =>
  match expect ":" s with
  | Some s =>
  match readNumber 2 0 s with
  | Some (mi, s) =>
  match expect ":" s with
  | Some s =>
  match readNumber 2 0 s with
  | Some (se, s) =>
      Some ({| year := y; month := mo; day := d;
               hour := h; minute := mi; second := se |}, s)
  | None => None end
  | None => None end
  | None => None end
  | None => None end
  | None => None end
  | None => None end
  | None => None end
  | None => None end
  | None => None end
  | None => None end
  | None => None end.

Section Zone.

(** [time.Local]: the offset, in seconds east of UTC, that the local zone
    uses at a Unix time. *)
Variable localOffset : Z -> Z.

Definition offsetAt (l : Location) (unix : Z) : Z :=
  match l with
  | UTC => 0
  | Local => localOffset unix
  | FixedZone o => o
  end.

(** [Time.MarshalJSON], without the quotes: the RFC 3339 text of the
    instant in its location, or an error when the year is outside of
    [0,9999] or the hour of the zone outside of [0,23]. *)
Definition MarshalJSON (t : Time) : option string :=
  let offset := offsetAt (loc t) (unixSec t) in
  let abs := unixSec t + offset + unixEpoch in
  if (abs <? 0) || (endOfYears <=? abs) then None
  else if 24 <=? Z.abs (Z.quot offset 60) / 60 then None
  else Some (formatClock (clockOf abs) ++ formatFraction (nsec t)
             ++ formatZone offset)%string.

(** The parser behind [Time.UnmarshalJSON]. *)
Definition parseStrictRFC3339 (s : string) : option Time :=
  match parseClock s with
  | Some (c, s) =>
      let (ns, s) :=
        match s with
        | String "." r => if startsWithDigit r then readFraction 100000000 0 r
                          else (0, s)
        | _ => (0, s)
        end in
      match parseZone s with
      | Some z =>
          if validClock c then
            let utc := absOf c - unixEpoch in
            match z with
            | None => Some {| unixSec := utc; nsec := ns; loc := UTC |}
            | Some o =>
                let u := utc - o in
                Some {| unixSec := u; nsec := ns;
                        loc := if localOffset u =? o then Local
                               else FixedZone o |}
            end
          else None
      | None => None
      end
  | None => None
  end.

(** [Time.UnmarshalJSON]: [null] is skipped, anything but a string is an
    error, a string is parsed. *)
Definition UnmarshalJSON (d : doc) (t : Time) : Time * option error :=
  match d with
  | DNull => (t, None)
  | DString s =>
      match parseStrictRFC3339 s with
      | Some t' => (t', None)
      | None => (t, Some (ErrorString "parsing time"))
      end
  | _ => (t, Some (ErrorString "Time.UnmarshalJSON: input is not a JSON string"))
  end.

End Zone.

End time.


(* ================================================================= *)
(** ** Go maps with string keys *)

(** A map is kept as the list of its entries in increasing key order, the
    order in which [json.Marshal] writes a map. *)
Definition smap (A : Type) := list (string * A).

Section Maps.
Context {A : Type}.

(** [m[k]], with the comma-ok flag as [option]. *)
Fixpoint mapaccess (k : string) (m : smap A) : option A :=
  match m with
  | [] => None
  | (k', v) :: m' => if (k =? k')%string then Some v else mapaccess k m'
  end.

(** [m[k] = v]. *)
Fixpoint mapassign (k : string) (v : A) (m : smap A) : smap A :=
  match m with
  | [] => [(k, v)]
  | (k', v') :: m' =>
      match (k ?= k')%string with
      | Lt => (k, v) :: m
      | Eq => (k, v) :: m'
      | Gt => (k', v') :: mapassign k v m'
      end
  end.

(** [delete(m, k)]. *)
Fixpoint mapdelete (k : string) (m : smap A) : smap A :=
  match m with
  | [] => []
  | (k', v) :: m' =>
      if (k =? k')%string then mapdelete k m' else (k', v) :: mapdelete k m'
  end.

End Maps.

(* ================================================================= *)
(** ** Package [encoding/json] *)

Module json.

(** Dynamic values of type [interface{}]: those the decoder builds, a nil
    map of type [map[string]interface{}], and a [time.Time]. *)
Inductive any :=
| VNil
| VBool (b : bool)
| VFloat64 (f : float64)
| VString (s : string)
| VSlice (l : list any)
| VMap (m : list (string * any))
| VNilMap
| VTime (t : time.Time).

(** The JSON kind named in an [UnmarshalTypeError]. *)
Definition kindOf (d : doc) : string :=
  match d with
  | DNull => "null"
  | DBool _ => "bool"
  | DNumber _ => "number"
  | DString _ => "string"
  | DArray _ => "array"
  | DObject _ => "object"
  end.

(** [d.saveError]: the first error is kept, decoding goes on. *)
Definition saveError (err : error) (saved : option error) : option error :=
  match saved with
  | None => Some err
  | Some _ => saved
  end.

(** How decoding into a target stands: it goes on with the target so far
    and the saved error, it has ended with an error that is returned
    whatever was saved, or an [Unmarshaler] has panicked. *)
Inductive decoding (A : Type) :=
| Going (a : A) (saved : option error)
| Stopped (err : error)
| Panicked (msg : string).
Arguments Going {A} a saved.
Arguments Stopped {A} err.
Arguments Panicked {A} msg.

(** What [Unmarshal] does with the error an [Unmarshaler] returns is a
    matter of the release of the package.  The decoder of Go 1 ends the
    decoding there and returns that error, whatever was saved before.
    The decoder built over [encoding/json/v2] saves it as it saves a
    type error, the first saved error being the one returned, and goes
    on with the elements and members that follow.  A handling says of
    an error whether it ends the decoding. *)
Definition unmarshalerErrors := error -> bool.

Definition endsAlways : unmarshalerErrors := fun _ => true.

Definition savesAlways : unmarshalerErrors := fun _ => false.

(** *** Decoding into [interface{}] *)

(** [d.valueInterface], with [d.arrayInterface] and [d.objectInterface].
    A number out of range is a saved error and leaves nil
    ([d.convertNumber]). *)
Fixpoint valueInterface (d : doc) (saved : option error) : any * option error :=
  match d with
  | DNull => (VNil, saved)
  | DBool b => (VBool b, saved)
  | DNumber n =>
      let f := strconv.ParseFloat n in
      if isFinite f then (VFloat64 f, saved)
      else (VNil, saveError (UnmarshalTypeError "number" "float64") saved)
  | DString s => (VString s, saved)
  | DArray elems =>
      let fix arrayInterface (l : list doc) (saved : option error)
          : list any * option error :=
        match l with
        | [] => ([], saved)
        | x :: l' =>
            let (v, saved) := valueInterface x saved in
            let (vs, saved) := arrayInterface l' saved in
            (v :: vs, saved)
        end in
      let (vs, saved) := arrayInterface elems saved in
      (VSlice vs, saved)
  | DObject members =>
      let fix objectInterface (l : list (string * doc)) (m : smap any)
            (saved : option error) : smap any * option error :=
        match l with
        | [] => (m, saved)
        | (key, x) :: l' =>
            let (v, saved) := valueInterface x saved in
            objectInterface l' (mapassign key v m) saved
        end in
      let (m, saved) := objectInterface members [] saved in
      (VMap m, saved)
  end.

Fixpoint arrayInterface (l : list doc) (saved : option error)
  : list any * option error :=
  match l with
  | [] => ([], saved)
  | x :: l' =>
      let (v, saved) := valueInterface x saved in
      let (vs, saved) := arrayInterface l' saved in
      (v :: vs, saved)
  end.

Fixpoint objectInterface (l : list (string * doc)) (m : smap any)
  (saved : option error) : smap any * option error :=
  match l with
  | [] => (m, saved)
  | (key, x) :: l' =>
      let (v, saved) := valueInterface x saved in
      objectInterface l' (mapassign key v m) saved
  end.

(** [json.Unmarshal(b, &raw)] for [raw] of type [map[string]interface{}]:
    [null] makes the map nil, an object is added to the map (made when
    nil), any other value is a saved type error. *)
Definition Unmarshal_map (b : bytes) (raw : option (smap any))
  : decoding (option (smap any)) :=
  match b with
  | Malformed => Stopped (SyntaxError "unexpected end of JSON input")
  | Encoding DNull => Going None None
  | Encoding (DObject members) =>
      let (m, saved) :=
        objectInterface members (match raw with Some m => m | None => [] end)
                        None in
      Going (Some m) saved
  | Encoding d =>
      Going raw (Some (UnmarshalTypeError (kindOf d) "map[string]interface {}"))
  end.

(** *** Decoding into typed targets *)

(** A number, or [null], which leaves the target as it is; any other
    value is a saved type error. *)
Definition value_float64 (d : doc) (v : float64) (saved : option error)
  : float64 * option error :=
  match d with
  | DNull => (v, saved)
  | DNumber n =>
      let f := strconv.ParseFloat n in
      if isFinite f then (f, saved)
      else (v, saveError (UnmarshalTypeError "number" "float64") saved)
  | _ => (v, saveError (UnmarshalTypeError (kindOf d) "float64") saved)
  end.

Definition toUpper (c : ascii) : ascii :=
  let n := N_of_ascii c in
  if ((97 <=? n) && (n <=? 122))%N then ascii_of_N (n - 32) else c.

(** [foldName]: ASCII letters in upper case; the two runes outside of
    ASCII that fold to an ASCII letter, U+017F (bytes C5 BF) and U+212A
    (bytes E2 84 AA), become [S] and [K]. *)
Fixpoint foldName (s : string) : string :=
  match s with
  | EmptyString => EmptyString
  | String c r =>
      match r with
      | String c1 r1 =>
          if (Ascii.eqb c "197" && Ascii.eqb c1 "191")%bool
          then String "S" (foldName r1)
          else
            match r1 with
            | String c2 r2 =>
                if (Ascii.eqb c "226" && Ascii.eqb c1 "132"
                    && Ascii.eqb c2 "170")%bool
                then String "K" (foldName r2)
                else String (toUpper c) (foldName r)
            | EmptyString => String (toUpper c) (foldName r)
            end
      | EmptyString => String (toUpper c) EmptyString
      end
  end.

Fixpoint indexWhere {A : Type} (p : A -> bool) (l : list A) : option nat :=
  match l with
  | [] => None
  | x :: l' => if p x then Some O else option_map S (indexWhere p l')
  end.

(** The field an object key goes to: the one of that very name, else the
    first whose name is equal under folding. *)
Definition fieldIndex (names : list string) (key : string) : option nat :=
  match indexWhere (String.eqb key) names with
  | Some i => Some i
  | None => indexWhere (fun n => (foldName n =? foldName key)%string) names
  end.

(** *** Encoding *)

Section Encode.

Variable localOffset : Z -> Z.

(** The value [json.Marshal] writes for an [interface{}], or its failure:
    on an infinity or a NaN, or when a [Marshaler] returns an error.
    Maps are written in increasing key order. *)
Fixpoint encode (v : any) : option doc :=
  match v with
  | VNil => Some DNull
  | VBool b => Some (DBool b)
  | VFloat64 f =>
      if isFinite f then Some (DNumber (strconv.FormatFloat f)) else None
  | VString s => Some (DString s)
  | VSlice l =>
      let fix encodeElems (l : list any) : option (list doc) :=
        match l with
        | [] => Some []
        | x :: l' =>
            match encode x with
            | Some d =>
                match encodeElems l' with
                | Some ds => Some (d :: ds)
                | None => None
                end
            | None => None
            end
        end in
      option_map DArray (encodeElems l)
  | VMap m =>
      let fix encodeMembers (m : list (string * any))
          : option (list (string * doc)) :=
        match m with
        | [] => Some []
        | (k, x) :: m' =>
            match encode x with
            | Some d =>
                match encodeMembers m' with
                | Some ds => Some ((k, d) :: ds)
                | None => None
                end
            | None => None
            end
        end in
      option_map DObject (encodeMembers m)
  | VNilMap => Some DNull
  | VTime t => option_map DString (time.MarshalJSON localOffset t)
  end.

Fixpoint encodeElems (l : list any) : option (list doc) :=
  match l with
  | [] => Some []
  | x :: l' =>
      match encode x with
      | Some d =>
          match encodeElems l' with
          | Some ds => Some (d :: ds)
          | None => None
          end
      | None => None
      end
  end.

Fixpoint encodeMembers (m : list (string * any))
  : option (list (string * doc)) :=
  match m with
  | [] => Some []
  | (k, x) :: m' =>
      match encode x with
      | Some d =>
          match encodeMembers m' with
          | Some ds => Some ((k, d) :: ds)
          | None => None
          end
      | None => None
      end
  end.

(** [json.Marshal(v)]: the bytes and the error; on an error the bytes are
    nil. *)
Definition Marshal (v : any) : bytes * option error :=
  match encode v with
  | Some d => (Encoding d, None)
  | None => (Malformed, Some (ErrorString "json: error calling MarshalJSON or unsupported value"))
  end.

End Encode.

End json.

(* ================================================================= *)
(** ** The types of [common.go] and their decoders *)

(** [TemperatureData] is temperature stats for a tool. *)
Record TemperatureData := {
  Actual : float64;
  Target : float64;
  Offset : float64
}.

Definition zeroTemperatureData : TemperatureData :=
  {| Actual := S754_zero false; Target := S754_zero false;
     Offset := S754_zero false |}.

(** [historicTemperatureData]; a nil map is [None]. *)
Record historicTemperatureData := {
  Time : time.Time;
  Tools : option (smap TemperatureData)
}.

Definition HistoricTemperatureData := historicTemperatureData.

Definition zeroHistoricTemperatureData : historicTemperatureData :=
  {| Time := time.zeroTime; Tools := None |}.

(** [temperatureState]; a nil map, slice or pointer is [None]. *)
Record temperatureState := {
  Current : option (smap TemperatureData);
  History : option (list (option HistoricTemperatureData))
}.

Definition TemperatureState := temperatureState.

Definition zeroTemperatureState : temperatureState :=
  {| Current := None; History := None |}.

Import json.

(** Decoding an object into a [TemperatureData], member by member. *)
Fixpoint object_TemperatureData (members : list (string * doc))
  (v : TemperatureData) (saved : option error)
  : TemperatureData * option error :=
  match members with
  | [] => (v, saved)
  | (key, x) :: rest =>
      match fieldIndex ["actual"; "target"; "offset"]%string key with
      | Some 0%nat =>
          let (f, saved) := value_float64 x (Actual v) saved in
          object_TemperatureData rest
            {| Actual := f; Target := Target v; Offset := Offset v |} saved
      | Some 1%nat =>
          let (f, saved) := value_float64 x (Target v) saved in
          object_TemperatureData rest
            {| Actual := Actual v; Target := f; Offset := Offset v |} saved
      | Some _ =>
          let (f, saved) := value_float64 x (Offset v) saved in
          object_TemperatureData rest
            {| Actual := Actual v; Target := Target v; Offset := f |} saved
      | None => object_TemperatureData rest v saved
      end
  end.

Definition value_TemperatureData (d : doc) (v : TemperatureData)
  (saved : option error) : TemperatureData * option error :=
  match d with
  | DNull => (v, saved)
  | DObject members => object_TemperatureData members v saved
  | _ => (v, saveError (UnmarshalTypeError (kindOf d)
                          "octoprint.TemperatureData") saved)
  end.

(** Decoding an object into a [map[string]TemperatureData]: every member
    is decoded into a zero element, which is then stored under its key. *)
Fixpoint object_map_TemperatureData (members : list (string * doc))
  (m : smap TemperatureData) (saved : option error)
  : smap TemperatureData * option error :=
  match members with
  | [] => (m, saved)
  | (key, x) :: rest =>
      let (e, saved) := value_TemperatureData x zeroTemperatureData saved in
      object_map_TemperatureData rest (mapassign key e m) saved
  end.

Definition value_map_TemperatureData (d : doc)
  (v : option (smap TemperatureData)) (saved : option error)
  : option (smap TemperatureData) * option error :=
  match d with
  | DNull => (None, saved)
  | DObject members =>
      let (m, saved) :=
        object_map_TemperatureData members
          (match v with Some m => m | None => [] end) saved in
      (Some m, saved)
  | _ => (v, saveError (UnmarshalTypeError (kindOf d)
                          "map[string]octoprint.TemperatureData") saved)
  end.

Section Decoders.

(** The local time zone and the result of an [int64] conversion that
    overflows: both belong to the process, not to the input. *)
Variable localOffset : Z -> Z.
Variable convOverflow : float64 -> Z.

(** Decoding an object into a [historicTemperatureData]; [time.Time] is
    an [Unmarshaler].  Its error is taken to end the decoding: this
    target is decoded from the bytes of [HistoricTemperatureData_split]
    only, where [time] is the first member and is read back without an
    error ([HistoricTemperatureData_split_time]). *)
Fixpoint object_historicTemperatureData (members : list (string * doc))
  (v : historicTemperatureData) (saved : option error)
  : decoding historicTemperatureData :=
  match members with
  | [] => Going v saved
  | (key, x) :: rest =>
      match fieldIndex ["time"; "tools"]%string key with
      | Some 0%nat =>
          match time.UnmarshalJSON localOffset x (Time v) with
          | (t, None) =>
              object_historicTemperatureData rest
                {| Time := t; Tools := Tools v |} saved
          | (_, Some err) => Stopped err
          end
      | Some _ =>
          let (m, saved) := value_map_TemperatureData x (Tools v) saved in
          object_historicTemperatureData rest
            {| Time := Time v; Tools := m |} saved
      | None => object_historicTemperatureData rest v saved
      end
  end.

(** [json.Unmarshal(b, i)] for [i] of type [*historicTemperatureData]. *)
Definition Unmarshal_historicTemperatureData (b : bytes)
  (i : historicTemperatureData) : decoding historicTemperatureData :=
  match b with
  | Malformed => Stopped (SyntaxError "unexpected end of JSON input")
  | Encoding DNull => Going i None
  | Encoding (DObject members) => object_historicTemperatureData members i None
  | Encoding d =>
      Going i (Some (UnmarshalTypeError (kindOf d)
                       "octoprint.historicTemperatureData"))
  end.

(** Lines 162 to 167: the bytes bound to [b] once [time] has been taken
    out of [raw] and the two buckets have been encoded, the error of
    [json.Marshal] being dropped; or the panic of the type assertion. *)
Definition HistoricTemperatureData_split (raw : option (smap any))
  : outcome bytes :=
  let ts := match raw with
            | Some m => match mapaccess "time" m with
                        | Some v => v
                        | None => VNil
                        end
            | None => VNil
            end in
  let raw := option_map (mapdelete "time") raw in
  match ts with
  | VFloat64 f =>
      Returns
        (fst (Marshal localOffset
                (VMap (mapassign "tools"
                         (match raw with Some m => VMap m | None => VNilMap end)
                      (mapassign "time"
                         (VTime (time.Unix (int64_of_float64 convOverflow f) 0))
                       [])))))
  | _ => Panics "interface conversion: interface {} is not float64"
  end.

(** [func (h *HistoricTemperatureData) UnmarshalJSON(b []byte) error]:
    the value of [*h] after the call and the error returned, or a panic. *)
Definition HistoricTemperatureData_UnmarshalJSON (b : bytes)
  (h : HistoricTemperatureData)
  : outcome (HistoricTemperatureData * option error) :=
  match Unmarshal_map b None with
  | Panicked msg => Panics msg
  | Stopped err => Returns (h, Some err)
  | Going _ (Some err) => Returns (h, Some err)
  | Going raw None =>
      match HistoricTemperatureData_split raw with
      | Panics msg => Panics msg
      | Returns b =>
          match Unmarshal_historicTemperatureData b zeroHistoricTemperatureData with
          | Panicked msg => Panics msg
          | Stopped err => Returns (h, Some err)
          | Going _ (Some err) => Returns (h, Some err)
          | Going i None => Returns (i, None)
          end
      end
  end.

(** How the package handles the error of an [Unmarshaler]; like the zone,
    it is fixed for a process. *)
Variable endsDecoding : unmarshalerErrors.

(** Decoding an array into a [[]*HistoricTemperatureData]: a [null]
    element is a nil pointer; any other element goes to [UnmarshalJSON],
    on the value the pointer had or on a new one.  An error of
    [UnmarshalJSON] ends the decoding or is saved, as the package has it;
    the pointer then keeps the value the method has left. *)
Fixpoint array_HistoricTemperatureData (elems : list doc)
  (old : list (option HistoricTemperatureData)) (saved : option error)
  : decoding (list (option HistoricTemperatureData)) :=
  match elems with
  | [] => Going [] saved
  | x :: rest =>
      match x with
      | DNull =>
          match array_HistoricTemperatureData rest (tl old) saved with
          | Going l saved => Going (None :: l) saved
          | Stopped err => Stopped err
          | Panicked msg => Panicked msg
          end
      | _ =>
          let h := match hd None old with
                   | Some h => h
                   | None => zeroHistoricTemperatureData
                   end in
          match HistoricTemperatureData_UnmarshalJSON (Encoding x) h with
          | Panics msg => Panicked msg
          | Returns (h', Some err) =>
              if endsDecoding err then Stopped err
              else
                match array_HistoricTemperatureData rest (tl old)
                        (saveError err saved) with
                | Going l saved => Going (Some h' :: l) saved
                | Stopped err => Stopped err
                | Panicked msg => Panicked msg
                end
          | Returns (h', None) =>
              match array_HistoricTemperatureData rest (tl old) saved with
              | Going l saved => Going (Some h' :: l) saved
              | Stopped err => Stopped err
              | Panicked msg => Panicked msg
              end
          end
      end
  end.

Definition value_History (d : doc)
  (v : option (list (option HistoricTemperatureData))) (saved : option error)
  : decoding (option (list (option HistoricTemperatureData))) :=
  match d with
  | DNull => Going None saved
  | DArray elems =>
      match array_HistoricTemperatureData elems
              (match v with Some l => l | None => [] end) saved with
      | Going l saved => Going (Some l) saved
      | Stopped err => Stopped err
      | Panicked msg => Panicked msg
      end
  | _ => Going v (saveError (UnmarshalTypeError (kindOf d)
                     "[]*octoprint.HistoricTemperatureData") saved)
  end.

(** Decoding an object into a [temperatureState]. *)
Fixpoint object_temperatureState (members : list (string * doc))
  (v : temperatureState) (saved : option error) : decoding temperatureState :=
  match members with
  | [] => Going v saved
  | (key, x) :: rest =>
      match fieldIndex ["current"; "history"]%string key with
      | Some 0%nat =>
          let (m, saved) := value_map_TemperatureData x (Current v) saved in
          object_temperatureState rest
            {| Current := m; History := History v |} saved
      | Some _ =>
          match value_History x (History v) saved with
          | Going l saved =>
              object_temperatureState rest
                {| Current := Current v; History := l |} saved
          | Stopped err => Stopped err
          | Panicked msg => Panicked msg
          end
      | None => object_temperatureState rest v saved
      end
  end.

(** [json.Unmarshal(b, i)] for [i] of type [*temperatureState]. *)
Definition Unmarshal_temperatureState (b : bytes) (i : temperatureState)
  : decoding temperatureState :=
  match b with
  | Malformed => Stopped (SyntaxError "unexpected end of JSON input")
  | Encoding DNull => Going i None
  | Encoding (DObject members) => object_temperatureState members i None
  | Encoding d =>
      Going i (Some (UnmarshalTypeError (kindOf d)
                       "octoprint.temperatureState"))
  end.

(** Lines 101 to 106: the bytes bound to [b] once [history] has been
    taken out of [raw] and the two buckets have been encoded, the error
    of [json.Marshal] being dropped. *)
Definition TemperatureState_split (raw : option (smap any)) : bytes :=
  let history := match raw with
                 | Some m => match mapaccess "history" m with
                             | Some v => v
                             | None => VNil
                             end
                 | None => VNil
                 end in
  let raw := option_map (mapdelete "history") raw in
  fst (Marshal localOffset
         (VMap (mapassign "history" history
               (mapassign "current"
                  (match raw with Some m => VMap m | None => VNilMap end)
                [])))).

(** [func (r *TemperatureState) UnmarshalJSON(b []byte) error]: the value
    of [*r] after the call and the error returned, or a panic. *)
Definition TemperatureState_UnmarshalJSON (b : bytes) (r : TemperatureState)
  : outcome (TemperatureState * option error) :=
  match Unmarshal_map b None with
  | Panicked msg => Panics msg
  | Stopped err => Returns (r, Some err)
  | Going _ (Some err) => Returns (r, Some err)
  | Going raw None =>
      match Unmarshal_temperatureState (TemperatureState_split raw)
              zeroTemperatureState with
      | Panicked msg => Panics msg
      | Stopped err => Returns (r, Some err)
      | Going _ (Some err) => Returns (r, Some err)
      | Going i None => Returns (i, None)
      end
  end.

End Decoders.

(** *** [FullStateResponse] *)

(** [SDState] is the state of the sd reader; its field [Ready] carries
    the name of the type, [Ready] being a flag of [PrinterState] too. *)
Record SDState := { SDState_Ready : bool }.

(** The [Flags] of a [PrinterState], a struct without a name. *)
Record PrinterStateFlags := {
  Operations : bool;
  Puased : bool;
  Printing : bool;
  SDReady : bool;
  Error : bool;
  Ready : bool;
  ClosedOnError : bool
}.

(** [PrinterState] current state of the printer. *)
Record PrinterState := {
  Text : string;
  Flags : PrinterStateFlags
}.

(** [FullStateResponse] contains informantion about the current state of
    the printer. *)
Record FullStateResponse := {
  Temperature : TemperatureState;
  SD : SDState;
  State : PrinterState
}.

Definition zeroPrinterStateFlags : PrinterStateFlags :=
  {| Operations := false; Puased := false; Printing := false; SDReady := false;
     Error := false; Ready := false; ClosedOnError := false |}.

Definition zeroFullStateResponse : FullStateResponse :=
  {| Temperature := zeroTemperatureState;
     SD := {| SDState_Ready := false |};
     State := {| Text := ""; Flags := zeroPrinterStateFlags |} |}.

(** A boolean, or [null], which leaves the target as it is; any other
    value is a saved type error. *)
Definition value_bool (d : doc) (v : bool) (saved : option error)
  : bool * option error :=
  match d with
  | DNull => (v, saved)
  | DBool b => (b, saved)
  | _ => (v, saveError (UnmarshalTypeError (kindOf d) "bool") saved)
  end.

Definition value_string (d : doc) (v : string) (saved : option error)
  : string * option error :=
  match d with
  | DNull => (v, saved)
  | DString s => (s, saved)
  | _ => (v, saveError (UnmarshalTypeError (kindOf d) "string") saved)
  end.

Fixpoint object_SDState (members : list (string * doc)) (v : SDState)
  (saved : option error) : SDState * option error :=
  match members with
  | [] => (v, saved)
  | (key, x) :: rest =>
      match fieldIndex ["ready"]%string key with
      | Some _ =>
          let (b, saved) := value_bool x (SDState_Ready v) saved in
          object_SDState rest {| SDState_Ready := b |} saved
      | None => object_SDState rest v saved
      end
  end.

Definition value_SDState (d : doc) (v : SDState) (saved : option error)
  : SDState * option error :=
  match d with
  | DNull => (v, saved)
  | DObject members => object_SDState members v saved
  | _ => (v, saveError (UnmarshalTypeError (kindOf d) "octoprint.SDState") saved)
  end.

(** The flag at the index of its key in the declaration. *)
Definition flagAt (i : nat) (v : PrinterStateFlags) : bool :=
  match i with
  | 0%nat => Operations v
  | 1%nat => Puased v
  | 2%nat => Printing v
  | 3%nat => SDReady v
  | 4%nat => Error v
  | 5%nat => Ready v
  | _ => ClosedOnError v
  end.

Definition setFlag (i : nat) (b : bool) (v : PrinterStateFlags)
  : PrinterStateFlags :=
  {| Operations := if Nat.eqb i 0 then b else Operations v;
     Puased := if Nat.eqb i 1 then b else Puased v;
     Printing := if Nat.eqb i 2 then b else Printing v;
     SDReady := if Nat.eqb i 3 then b else SDReady v;
     Error := if Nat.eqb i 4 then b else Error v;
     Ready := if Nat.eqb i 5 then b else Ready v;
     ClosedOnError := if Nat.leb 6 i then b else ClosedOnError v |}.

Fixpoint object_Flags (members : list (string * doc)) (v : PrinterStateFlags)
  (saved : option error) : PrinterStateFlags * option error :=
  match members with
  | [] => (v, saved)
  | (key, x) :: rest =>
      match fieldIndex ["operational"; "paused"; "printing"; "sdReady";
                        "error"; "ready"; "closedOrError"]%string key with
      | Some i =>
          let (b, saved) := value_bool x (flagAt i v) saved in
          object_Flags rest (setFlag i b v) saved
      | None => object_Flags rest v saved
      end
  end.

(** The name [reflect] gives the type of [Flags]: the fields with their
    tags, each tag quoted. *)
Definition quoted (tag : string) : string :=
  let dq := String (ascii_of_nat 34) EmptyString in
  let bs := String (ascii_of_nat 92) EmptyString in
  dq ++ "json:" ++ bs ++ dq ++ tag ++ bs ++ dq ++ dq.

Definition typeOfFlags : string :=
  "struct { Operations bool " ++ quoted "operational"
  ++ "; Puased bool " ++ quoted "paused"
  ++ "; Printing bool " ++ quoted "printing"
  ++ "; SDReady bool " ++ quoted "sdReady"
  ++ "; Error bool " ++ quoted "error"
  ++ "; Ready bool " ++ quoted "ready"
  ++ "; ClosedOnError bool " ++ quoted "closedOrError" ++ " }".

Definition value_Flags (d : doc) (v : PrinterStateFlags) (saved : option error)
  : PrinterStateFlags * option error :=
  match d with
  | DNull => (v, saved)
  | DObject members => object_Flags members v saved
  | _ => (v, saveError (UnmarshalTypeError (kindOf d) typeOfFlags) saved)
  end.

Fixpoint object_PrinterState (members : list (string * doc)) (v : PrinterState)
  (saved : option error) : PrinterState * option error :=
  match members with
  | [] => (v, saved)
  | (key, x) :: rest =>
      match fieldIndex ["text"; "flags"]%string key with
      | Some 0%nat =>
          let (s, saved) := value_string x (Text v) saved in
          object_PrinterState rest {| Text := s; Flags := Flags v |} saved
      | Some _ =>
          let (f, saved) := value_Flags x (Flags v) saved in
          object_PrinterState rest {| Text := Text v; Flags := f |} saved
      | None => object_PrinterState rest v saved
      end
  end.

Definition value_PrinterState (d : doc) (v : PrinterState)
  (saved : option error) : PrinterState * option error :=
  match d with
  | DNull => (v, saved)
  | DObject members => object_PrinterState members v saved
  | _ => (v, saveError (UnmarshalTypeError (kindOf d) "octoprint.PrinterState")
                       saved)
  end.

Section FullState.

Variable localOffset : Z -> Z.
Variable convOverflow : float64 -> Z.
Variable endsDecoding : unmarshalerErrors.

(** Decoding an object into a [FullStateResponse]: the member of
    [temperature] goes to [TemperatureState.UnmarshalJSON], [null]
    too, on the field itself; an error it returns ends the decoding or
    is saved, as the package has it, the field keeping what the method has
    left in it. *)
Fixpoint object_FullStateResponse (members : list (string * doc))
  (v : FullStateResponse) (saved : option error) : decoding FullStateResponse :=
  match members with
  | [] => Going v saved
  | (key, x) :: rest =>
      match fieldIndex ["temperature"; "sd"; "state"]%string key with
      | Some 0%nat =>
          match TemperatureState_UnmarshalJSON localOffset convOverflow
                  endsDecoding
                  (Encoding x) (Temperature v) with
          | Panics msg => Panicked msg
          | Returns (t, Some err) =>
              if endsDecoding err then Stopped err
              else
                object_FullStateResponse rest
                  {| Temperature := t; SD := SD v; State := State v |}
                  (saveError err saved)
          | Returns (t, None) =>
              object_FullStateResponse rest
                {| Temperature := t; SD := SD v; State := State v |} saved
          end
      | Some 1%nat =>
          let (s, saved) := value_SDState x (SD v) saved in
          object_FullStateResponse rest
            {| Temperature := Temperature v; SD := s; State := State v |} saved
      | Some _ =>
          let (s, saved) := value_PrinterState x (State v) saved in
          object_FullStateResponse rest
            {| Temperature := Temperature v; SD := SD v; State := s |} saved
      | None => object_FullStateResponse rest v saved
      end
  end.

(** [json.Unmarshal(b, v)] for [v] of type [*FullStateResponse]. *)
Definition Unmarshal_FullStateResponse (b : bytes) (v : FullStateResponse)
  : decoding FullStateResponse :=
  match b with
  | Malformed => Stopped (SyntaxError "unexpected end of JSON input")
  | Encoding DNull => Going v None
  | Encoding (DObject members) => object_FullStateResponse members v None
  | Encoding d =>
      Going v (Some (UnmarshalTypeError (kindOf d) "octoprint.FullStateResponse"))
  end.

End FullState.

(* ================================================================= *)
(** ** The vocabulary of the statements *)

(** *** The connection-state classifier *)

(** [s] starts with [p]: the bytes of [p], then anything. *)
Definition StartsWith (s p : string) : Prop := exists rest, s = (p ++ rest)%string.

(** The prefixes of the five families. *)
Definition prefixes : list string :=
  ["Operational"; "Transfering"; "Paused"; "Printing"; "Sending"; "Offline";
   "Closed"; "Error"; "Unknown"; "Opening"; "Detecting"; "Connecting"]%string.

(** *** Maps kept in key order *)

(** The order of the keys: byte-wise, a proper prefix first. *)
Definition klt (a b : string) : Prop := (a ?= b)%string = Lt.

Section MapOrder.
Context {A : Type}.
Implicit Types (m : smap A) (k : string) (v : A).

Definition keys m : list string := map fst m.

(** Every key of [m] comes after [k]. *)
Definition above k m : Prop := Forall (fun e => klt k (fst e)) m.

(** Every key of [m] comes before [k]. *)
Definition below k m : Prop := Forall (fun e => klt (fst e) k) m.

Fixpoint ordered m : Prop :=
  match m with
  | [] => True
  | (k, _) :: m' => above k m' /\ ordered m'
  end.

End MapOrder.

(** *** Decoding into [interface{}] and encoding back *)

(** Induction on a text, with the hypothesis on every element of an array
    and on every member of an object. *)
Section DocInduction.
Variable P : doc -> Prop.
Hypothesis Hnull : P DNull.
Hypothesis Hbool : forall b, P (DBool b).
Hypothesis Hnumber : forall f, P (DNumber f).
Hypothesis Hstring : forall s, P (DString s).
Hypothesis Harray : forall l, Forall P l -> P (DArray l).
Hypothesis Hobject : forall ms, Forall (fun e => P (snd e)) ms -> P (DObject ms).

Fixpoint doc_induction (d : doc) : P d :=
  match d with
  | DNull => Hnull
  | DBool b => Hbool b
  | DNumber f => Hnumber f
  | DString s => Hstring s
  | DArray l =>
      Harray l ((fix all (l : list doc) : Forall P l :=
                   match l with
                   | [] => Forall_nil _
                   | x :: l' => Forall_cons x (doc_induction x) (all l')
                   end) l)
  | DObject ms =>
      Hobject ms ((fix all (l : list (string * doc))
                     : Forall (fun e => P (snd e)) l :=
                     match l with
                     | [] => Forall_nil _
                     | e :: l' =>
                         Forall_cons e (doc_induction (snd e)) (all l')
                     end) ms)
  end.

End DocInduction.

(** The same for the values of [interface{}]. *)
Section AnyInduction.
Variable P : json.any -> Prop.
Hypothesis Hnil : P json.VNil.
Hypothesis Hbool : forall b, P (json.VBool b).
Hypothesis Hfloat : forall f, P (json.VFloat64 f).
Hypothesis Hstring : forall s, P (json.VString s).
Hypothesis Hslice : forall l, Forall P l -> P (json.VSlice l).
Hypothesis Hmap : forall m, Forall (fun e => P (snd e)) m -> P (json.VMap m).
Hypothesis Hnilmap : P json.VNilMap.
Hypothesis Htime : forall t, P (json.VTime t).

Fixpoint any_induction (v : json.any) : P v :=
  match v with
  | json.VNil => Hnil
  | json.VBool b => Hbool b
  | json.VFloat64 f => Hfloat f
  | json.VString s => Hstring s
  | json.VSlice l =>
      Hslice l ((fix all (l : list json.any) : Forall P l :=
                   match l with
                   | [] => Forall_nil _
                   | x :: l' => Forall_cons x (any_induction x) (all l')
                   end) l)
  | json.VMap m =>
      Hmap m ((fix all (l : list (string * json.any))
                 : Forall (fun e => P (snd e)) l :=
                 match l with
                 | [] => Forall_nil _
                 | e :: l' => Forall_cons e (any_induction (snd e)) (all l')
                 end) m)
  | json.VNilMap => Hnilmap
  | json.VTime t => Htime t
  end.

End AnyInduction.

(** Every number of the text is within the range of [float64]. *)
Fixpoint inRange (d : doc) : bool :=
  match d with
  | DNumber n => isFinite (strconv.ParseFloat n)
  | DArray l => forallb inRange l
  | DObject ms => forallb (fun e => inRange (snd e)) ms
  | _ => true
  end.

(** The [interface{}] value a text decodes to. *)
Definition toAny (d : doc) : any := fst (valueInterface d None).

Definition rangeError : error := UnmarshalTypeError "number" "float64".

(** The map after the members of an object have been assigned in turn. *)
Definition assignAll (ms : list (string * doc)) (m : smap any) : smap any :=
  fold_left (fun m e => mapassign (fst e) (toAny (snd e)) m) ms m.

(** The value of the last member with key [k]. *)
Fixpoint lastValue (k : string) (ms : list (string * doc)) : option doc :=
  match ms with
  | [] => None
  | (k', x) :: rest =>
      match lastValue k rest with
      | Some y => Some y
      | None => if (k =? k')%string then Some x else None
      end
  end.

(** The values the decoder builds without an error: finite numbers, maps
    in key order, no nil map and no [time.Time]. *)
Inductive canonical : any -> Prop :=
| canonical_nil : canonical VNil
| canonical_bool b : canonical (VBool b)
| canonical_float f : isFinite f = true -> canonical (VFloat64 f)
| canonical_string s : canonical (VString s)
| canonical_slice l : Forall canonical l -> canonical (VSlice l)
| canonical_map m :
    ordered m -> Forall (fun e => canonical (snd e)) m -> canonical (VMap m).

(** A text [d] stands for the value [v]. *)
Definition denotes (d : doc) (v : any) : Prop := toAny d = v /\ inRange d = true.

Definition memberDenotes (e : string * doc) (e' : string * any) : Prop :=
  fst e = fst e' /\ denotes (snd e) (snd e').

(** *** Decoding into the typed targets *)

(** The saved error after a step that by itself would save [new]. *)
Definition keep (saved new : option error) : option error :=
  match saved with
  | Some e => Some e
  | None => new
  end.

(** The reading a tool's text decodes to, and the error it saves. *)
Definition reading (x : doc) : TemperatureData :=
  fst (value_TemperatureData x zeroTemperatureData None).

Definition readingError (x : doc) : option error :=
  snd (value_TemperatureData x zeroTemperatureData None).

Definition readAll (ms : list (string * doc)) (m : smap TemperatureData)
  : smap TemperatureData :=
  fold_left (fun m e => mapassign (fst e) (reading (snd e)) m) ms m.

Definition readErrors (ms : list (string * doc)) (saved : option error)
  : option error :=
  fold_left (fun s e => keep s (readingError (snd e))) ms saved.

(** A value a [TemperatureData] is decoded from without an error: nil, or
    a map whose entries under a field name are numbers or nil. *)
Definition fieldShape (v : any) : bool :=
  match v with
  | VNil | VFloat64 _ => true
  | _ => false
  end.

Definition readingShape (v : any) : bool :=
  match v with
  | VNil => true
  | VMap m =>
      forallb (fun e =>
                 match fieldIndex ["actual"; "target"; "offset"]%string (fst e) with
                 | Some _ => fieldShape (snd e)
                 | None => true
                 end) m
  | _ => false
  end.

(** The error a text saves when it is decoded into a [float64]. *)
Definition floatError (x : doc) : option error :=
  snd (value_float64 x (S754_zero false) None).

Definition memberError (e : string * doc) : option error :=
  match fieldIndex ["actual"; "target"; "offset"]%string (fst e) with
  | Some _ => floatError (snd e)
  | None => None
  end.

(** The value under a key, nil when the key is absent. *)
Definition valueAt (k : string) (m : smap any) : any :=
  match mapaccess k m with
  | Some v => v
  | None => VNil
  end.

(** Two texts of the same value in range are decoded alike. *)
Definition sameValue (x y : doc) : Prop :=
  toAny x = toAny y /\ inRange x = true /\ inRange y = true.

(** The entry of [History] an element of the array is decoded to: a nil
    pointer for [null], else what [UnmarshalJSON] leaves in a new value. *)
Definition decodeEntry (L C : _) (e : doc) : option HistoricTemperatureData :=
  match e with
  | DNull => None
  | _ =>
      match HistoricTemperatureData_UnmarshalJSON L C (Encoding e)
              zeroHistoricTemperatureData with
      | Returns (h, None) => Some h
      | _ => None
      end
  end.

(** An element of the array that is decoded without an error. *)
Definition entryDecodes (L C : _) (e : doc) : Prop :=
  e = DNull \/
  exists h, HistoricTemperatureData_UnmarshalJSON L C (Encoding e)
              zeroHistoricTemperatureData = Returns (h, None).


(** An element of the array on which [UnmarshalJSON] does not panic. *)
Definition entryReturns (L C : _) (e : doc) : Prop :=
  e = DNull \/
  exists res, HistoricTemperatureData_UnmarshalJSON L C (Encoding e)
                zeroHistoricTemperatureData = Returns res.

(** An element of the array that is not an object, or is one with a
    number under [time]. *)
Definition hasNumericTime (e : doc) : Prop :=
  match e with
  | DObject ms => exists f, lastValue "time" ms = Some (DNumber f)
  | _ => True
  end.

(** The location a parsed time is given. *)
Definition parsedLocation (L : Z -> Z) (o u : Z) : time.Location :=
  if o =? 0 then time.UTC
  else if L u =? 60 * Z.quot o 60 then time.Local
  else time.FixedZone (60 * Z.quot o 60).

(** *** The entry decoder on a numeric [time] *)

(** The local clock reading of a Unix second lies in the years 0 to 9999
    and the hour of its zone is below 24: the instant has an RFC 3339
    text. *)
Definition hasText (L : Z -> Z) (n : Z) : Prop :=
  0 <= n + L n + time.unixEpoch < time.endOfYears /\
  Z.abs (Z.quot (L n) 60) / 60 < 24.

(** *** The members of an object *)

(** The history member of an object, [null] when there is none. *)
Definition historyOf (ms : list (string * doc)) : doc :=
  match lastValue "history" ms with
  | Some x => x
  | None => DNull
  end.

(** The object without the members of key [k]. *)
Definition without (k : string) (ms : list (string * doc)) : list (string * doc) :=
  filter (fun e => negb (fst e =? k)%string) ms.

(** *** The reading an object spells out *)

(** The member of an object that goes to field [i] of a
    [TemperatureData]: the first whose key is the name of the field or
    is equal to it under folding. *)
Fixpoint memberFor (i : nat) (xs : list (string * doc)) : option doc :=
  match xs with
  | [] => None
  | (k, x) :: rest =>
      match fieldIndex ["actual"; "target"; "offset"]%string k with
      | Some j => if Nat.eqb j i then Some x else memberFor i rest
      | None => memberFor i rest
      end
  end.

(** The number of a member, zero when the member is missing or is no
    number. *)
Definition numberOr0 (o : option doc) : float64 :=
  match o with
  | Some (DNumber n) => strconv.ParseFloat n
  | _ => S754_zero false
  end.

Definition spelled (xs : list (string * doc)) : TemperatureData :=
  {| Actual := numberOr0 (memberFor 0 xs);
     Target := numberOr0 (memberFor 1 xs);
     Offset := numberOr0 (memberFor 2 xs) |}.

(** The keys of an object differ even when case is ignored. *)
Definition distinctFolded (xs : list (string * doc)) : Prop :=
  NoDup (map (fun e => foldName (fst e)) xs).

(** What a tool of an object is decoded to, by the tool's text. *)
Definition toolReads (m : smap TemperatureData) (k : string) (x : doc) : Prop :=
  match x with
  | DNull => mapaccess k m = Some zeroTemperatureData
  | DObject xs => distinctFolded xs -> mapaccess k m = Some (spelled xs)
  | _ => False
  end.

(** *** The full state *)

(** A member of an object that does not go to [Temperature]. *)
Definition besideTemperature (e : string * doc) : Prop :=
  fieldIndex ["temperature"; "sd"; "state"]%string (fst e) <> Some 0%nat.

(** *** The statements at concrete inputs *)

(** Two zones with a constant offset, and the conversion of the amd64
    port, which gives the least [int64] on an overflow. *)
Definition zoneUTC : Z -> Z := fun _ => 0.

Definition zoneCET : Z -> Z := fun _ => 3600.

(** Monrovia mean time, kept until 1972: 44 minutes and 30 seconds west. *)
Definition zoneMonrovia : Z -> Z := fun _ => -2670.

Definition convAMD64 : float64 -> Z := fun _ => minInt64.

(** Central European time with the summer time of 2021: two hours from
    28 March, 01:00 UTC, to 31 October, 01:00 UTC. *)
Definition zoneBerlin : Z -> Z :=
  fun u => if (1616893200 <=? u) && (u <? 1635642000) then 7200 else 3600.

Definition readingOf (a t o : Z) : doc :=
  DObject [("actual", DNumber (strconv.Integer a));
           ("target", DNumber (strconv.Integer t));
           ("offset", DNumber (strconv.Integer o))]%string.

Definition entryAt (sec : Z) : doc :=
  DObject [("time", DNumber (strconv.Integer sec));
           ("tool0", readingOf 199 200 0)]%string.

(** The payload of the scenario: two tools and one entry of history. *)
Definition payloadAt (sec : Z) : list (string * doc) :=
  [("tool0", readingOf 200 200 0); ("bed", readingOf 60 60 0);
   ("history", DArray [entryAt sec])]%string.

(** The full state of a printer that prints, around a temperature. *)
Definition fullState (temperature : doc) : list (string * doc) :=
  [("sd", DObject [("ready", DBool true)]);
   ("temperature", temperature);
   ("state", DObject [("text", DString "Printing");
                      ("flags", DObject [("operational", DBool true);
                                         ("printing", DBool true);
                                         ("ready", DBool false)])])].

Ltac by_key E :=
  cbn [lastValue payloadAt entryAt] in E;
  repeat match type of E with
         | context [(?a =? ?b)%string] => destruct (String.eqb_spec a b)
         end;
  try discriminate E; try congruence;
  injection E as <-; reflexivity.

(* ================================================================= *)
(** * Properties *)

(* ----------------------------------------------------------------- *)
(** ** The connection-state classifier *)

Lemma HasPrefix_StartsWith (s p : string) :
  strings.HasPrefix s p = true <-> StartsWith s p.
Proof.
  unfold strings.HasPrefix, StartsWith. revert s.
  induction p as [|c p IH]; intros s.
  - destruct s; simpl; split; eauto.
  - destruct s as [|d s]; simpl.
    + split; [discriminate | intros [r H]; discriminate].
    + specialize (IH s). change (S (length p) <=? S (length s))%nat
        with (length p <=? length s)%nat.
      destruct (Ascii.eqb_spec d c) as [->|Hdc].
      * rewrite IH. split; intros [r H]; exists r.
        -- now rewrite H.
        -- now injection H.
      * rewrite andb_false_r. split; [discriminate|].
        intros [r H]. injection H as H _. contradiction.
Qed.

Lemma HasPrefix_false (s p : string) :
  ~ StartsWith s p -> strings.HasPrefix s p = false.
Proof.
  intros H. destruct (strings.HasPrefix s p) eqn:E; [|reflexivity].
  apply HasPrefix_StartsWith in E. contradiction.
Qed.

(** C2: each of the five predicates holds exactly of the labels that
    start, byte for byte, with one of the prefixes of its family. *)
Theorem predicates_are_prefix_matches (s : ConnectionState) :
  (IsOperational s = true <->
     StartsWith s "Operational" \/ StartsWith s "Transfering"
     \/ StartsWith s "Paused") /\
  (IsPrinting s = true <->
     StartsWith s "Printing" \/ StartsWith s "Sending"
     \/ StartsWith s "Paused") /\
  (IsOffline s = true <-> StartsWith s "Offline" \/ StartsWith s "Closed") /\
  (IsError s = true <-> StartsWith s "Error" \/ StartsWith s "Unknown") /\
  (IsConnecting s = true <->
     StartsWith s "Opening" \/ StartsWith s "Detecting"
     \/ StartsWith s "Connecting").
Proof.
  unfold IsOperational, IsPrinting, IsOffline, IsError, IsConnecting.
  repeat rewrite orb_true_iff. repeat rewrite HasPrefix_StartsWith.
  tauto.
Qed.

(** The match is case-sensitive and nothing is trimmed. *)
Example lower_case_and_leading_space :
  IsOperational "operational" = false /\ IsOperational " Operational" = false
  /\ IsOperational "Operational " = true.
Proof. repeat split. Qed.

(** C6: a label that starts with [Paused] is both operational and
    printing, and the label [Paused] itself is nothing else. *)
Theorem paused_is_operational_and_printing (rest : string) :
  IsOperational ("Paused" ++ rest) = true /\
  IsPrinting ("Paused" ++ rest) = true /\
  IsOffline "Paused" = false /\ IsError "Paused" = false /\
  IsConnecting "Paused" = false.
Proof.
  assert (H : strings.HasPrefix ("Paused" ++ rest) "Paused" = true)
    by (apply HasPrefix_StartsWith; now exists rest).
  unfold IsOperational, IsPrinting. rewrite H, !orb_true_r.
  repeat split.
Qed.

(** C7: the predicates are total functions to [bool]; on a label that
    starts with none of the prefixes all five are false. *)
Theorem unknown_label_is_all_false (s : ConnectionState) :
  (forall p, In p prefixes -> ~ StartsWith s p) ->
  IsOperational s = false /\ IsPrinting s = false /\ IsOffline s = false /\
  IsError s = false /\ IsConnecting s = false.
Proof.
  intros H.
  unfold IsOperational, IsPrinting, IsOffline, IsError, IsConnecting.
  rewrite !HasPrefix_false; [repeat split | | | | | | | | | | | | ];
    apply H; simpl; tauto.
Qed.

Lemma unknown_label_is_all_false_witness :
  IsOperational "Something else entirely" = false /\
  IsPrinting "Something else entirely" = false /\
  IsOffline "Something else entirely" = false /\
  IsError "Something else entirely" = false /\
  IsConnecting "Something else entirely" = false.
Proof.
  apply (unknown_label_is_all_false "Something else entirely").
  intros p Hp [rest E]. simpl in Hp.
  repeat (destruct Hp as [<-|Hp]; [discriminate E|]). exact Hp.
Defined.

Example empty_label_is_all_false :
  IsOperational "" = false /\ IsPrinting "" = false /\ IsOffline "" = false /\
  IsError "" = false /\ IsConnecting "" = false.
Proof. repeat split. Qed.

(* ----------------------------------------------------------------- *)
(** ** Maps kept in key order *)

Lemma klt_trans a b c : klt a b -> klt b c -> klt a c.
Proof.
  unfold klt. intros H1 H2.
  apply String_as_OT.cmp_lt. apply String_as_OT.cmp_lt in H1, H2.
  exact (String_as_OT.lt_trans _ _ _ H1 H2).
Qed.

Lemma compare_refl (a : string) : (a ?= a)%string = Eq.
Proof. now apply String_as_OT.cmp_eq. Qed.

Lemma compare_Gt_klt a b : (a ?= b)%string = Gt -> klt b a.
Proof. unfold klt. rewrite (String.compare_antisym a b). now destruct (b ?= a)%string. Qed.

Lemma klt_neq a b : klt a b -> a <> b.
Proof. unfold klt. intros H ->. rewrite compare_refl in H. discriminate. Qed.

Lemma klt_eqb a b : klt a b -> (a =? b)%string = false /\ (b =? a)%string = false.
Proof.
  intros H. apply klt_neq in H. split; apply String.eqb_neq; congruence.
Qed.

Section MapFacts.

Context {A : Type}.

Implicit Types (m : smap A) (k : string) (v : A).

Lemma above_weaken k k' m : klt k k' -> above k' m -> above k m.
Proof.
  intros Hk H. unfold above in *. rewrite Forall_forall in *.
  intros e He. eapply klt_trans; eauto.
Qed.

Lemma mapaccess_above k m : above k m -> mapaccess k m = None.
Proof.
  induction m as [|[k' v'] m IH]; simpl; intros H; [reflexivity|].
  inversion H as [|? ? Hk Hm]; subst. simpl in Hk.
  destruct (klt_eqb _ _ Hk) as [-> _]. auto.
Qed.

Lemma mapaccess_In k m : In k (keys m) <-> mapaccess k m <> None.
Proof.
  induction m as [|[k' v'] m IH]; simpl.
  - split; [tauto|congruence].
  - destruct (String.eqb_spec k k') as [->|Hn].
    + split; [discriminate|auto].
    + rewrite <- IH. split; [intros [?|?]; [congruence|assumption]|auto].
Qed.

Lemma mapaccess_mapassign_same k v m : mapaccess k (mapassign k v m) = Some v.
Proof.
  induction m as [|[k' v'] m IH]; simpl.
  - now rewrite String.eqb_refl.
  - destruct (k ?= k')%string eqn:E; simpl.
    + now rewrite String.eqb_refl.
    + now rewrite String.eqb_refl.
    + apply compare_Gt_klt in E. destruct (klt_eqb _ _ E) as [_ ->]. exact IH.
Qed.

Lemma mapaccess_mapassign_other k k' v m :
  k <> k' -> mapaccess k' (mapassign k v m) = mapaccess k' m.
Proof.
  intros Hn. induction m as [|[k0 v0] m IH]; simpl.
  - apply String.eqb_neq in Hn. rewrite String.eqb_sym. now rewrite Hn.
  - destruct (k ?= k0)%string eqn:E; simpl.
    + apply String.compare_eq_iff in E. subst k0.
      assert (Hf : (k' =? k)%string = false) by (apply String.eqb_neq; congruence).
      now rewrite Hf.
    + assert (Hf : (k' =? k)%string = false) by (apply String.eqb_neq; congruence).
      now rewrite Hf.
    + now rewrite IH.
Qed.

Lemma keys_mapassign k v m k' :
  In k' (keys (mapassign k v m)) <-> k' = k \/ In k' (keys m).
Proof.
  rewrite !mapaccess_In.
  destruct (String.eqb_spec k k') as [->|Hn].
  - rewrite mapaccess_mapassign_same. split; [auto|discriminate].
  - rewrite mapaccess_mapassign_other by assumption.
    split; [auto|intros [?|?]; [congruence|assumption]].
Qed.

Lemma above_mapassign k0 k v m :
  klt k0 k -> above k0 m -> above k0 (mapassign k v m).
Proof.
  intros Hk. induction m as [|[k' v'] m IH]; simpl; intros H.
  - constructor; [exact Hk|constructor].
  - inversion H as [|? ? Hk' Hm]; subst. unfold above in *.
    destruct (k ?= k')%string.
    + constructor; assumption.
    + constructor; [assumption|]. constructor; assumption.
    + constructor; [assumption|]. now apply IH.
Qed.

Lemma ordered_mapassign k v m : ordered m -> ordered (mapassign k v m).
Proof.
  induction m as [|[k' v'] m IH]; simpl.
  - intros _. split; [constructor|exact I].
  - intros [Ha Ho]. destruct (k ?= k')%string eqn:E; simpl.
    + apply String.compare_eq_iff in E. subst k'. auto.
    + split; [|auto]. constructor; [exact E|].
      eapply above_weaken; eauto.
    + split; [|auto]. apply above_mapassign; [|assumption].
      now apply compare_Gt_klt.
Qed.

(** Assigning a key that comes after all the others appends it. *)
Lemma mapassign_below k v m : below k m -> mapassign k v m = (m ++ [(k, v)])%list.
Proof.
  induction m as [|[k' v'] m IH]; simpl; intros H; [reflexivity|].
  inversion H as [|? ? Hk Hm]; subst. simpl in Hk. unfold klt in Hk.
  rewrite (String.compare_antisym k k'), Hk. simpl. now rewrite IH.
Qed.

Lemma mapaccess_mapdelete_same k m : mapaccess k (mapdelete k m) = None.
Proof.
  induction m as [|[k' v'] m IH]; simpl; [reflexivity|].
  destruct (k =? k')%string eqn:E; [exact IH|]. simpl. now rewrite E.
Qed.

Lemma mapaccess_mapdelete_other k k' m :
  k <> k' -> mapaccess k' (mapdelete k m) = mapaccess k' m.
Proof.
  intros Hn. induction m as [|[k0 v0] m IH]; simpl; [reflexivity|].
  destruct (String.eqb_spec k k0) as [->|Hk].
  - assert (Hf : (k' =? k0)%string = false) by (apply String.eqb_neq; congruence).
    now rewrite Hf.
  - simpl. now rewrite IH.
Qed.

Lemma keys_mapdelete k m k' :
  In k' (keys (mapdelete k m)) <-> k' <> k /\ In k' (keys m).
Proof.
  rewrite !mapaccess_In.
  destruct (String.eqb_spec k k') as [->|Hn].
  - rewrite mapaccess_mapdelete_same. split; [congruence|tauto].
  - rewrite mapaccess_mapdelete_other by assumption.
    split; [intros H; split; [congruence|exact H]|tauto].
Qed.

Lemma above_mapdelete k0 k m : above k0 m -> above k0 (mapdelete k m).
Proof.
  induction m as [|[k' v'] m IH]; simpl; intros H; [constructor|].
  inversion H; subst. unfold above in *.
  destruct (k =? k')%string; [now apply IH|]. constructor; [assumption|now apply IH].
Qed.

Lemma ordered_mapdelete k m : ordered m -> ordered (mapdelete k m).
Proof.
  induction m as [|[k' v'] m IH]; simpl; [auto|].
  intros [Ha Ho]. destruct (k =? k')%string; simpl; [auto|].
  split; [now apply above_mapdelete|auto].
Qed.

Lemma ordered_NoDup m : ordered m -> NoDup (keys m).
Proof.
  induction m as [|[k v] m IH]; simpl; intros H; [constructor|].
  destruct H as [Ha Ho]. constructor; [|auto].
  intros Hin. apply mapaccess_In in Hin. now rewrite mapaccess_above in Hin.
Qed.

End MapFacts.

Lemma Forall_mapassign {A} (Q : string * A -> Prop) k v (m : smap A) :
  Q (k, v) -> Forall Q m -> Forall Q (mapassign k v m).
Proof.
  intros Hq. induction m as [|[k' v'] m IH]; simpl; intros H.
  - constructor; [exact Hq|constructor].
  - inversion H; subst.
    destruct (k ?= k')%string; constructor; auto.
Qed.

Lemma Forall_mapdelete {A} (Q : string * A -> Prop) k (m : smap A) :
  Forall Q m -> Forall Q (mapdelete k m).
Proof.
  induction m as [|[k' v'] m IH]; simpl; intros H; [constructor|].
  inversion H; subst. destruct (k =? k')%string; [auto|constructor; auto].
Qed.

Lemma Forall_mapaccess {A} (Q : string * A -> Prop) k v (m : smap A) :
  Forall Q m -> mapaccess k m = Some v -> Q (k, v).
Proof.
  induction m as [|[k' v'] m IH]; simpl; intros H E; [discriminate|].
  inversion H; subst.
  destruct (String.eqb_spec k k') as [->|Hn]; [|auto].
  now injection E as <-.
Qed.

Lemma ordered_same_keys {A B} (a : smap A) (b : smap B) :
  map fst a = map fst b -> ordered a -> ordered b.
Proof.
  revert b. induction a as [|[k x] a IH]; intros [|[k' y] b] E; try discriminate;
    [auto|].
  simpl in E. injection E as -> E. simpl. intros [Ha Ho]. split; [|eauto].
  unfold above in *. rewrite Forall_forall in *. intros e He.
  assert (Hin : In (fst e) (map fst a)) by (rewrite E; now apply in_map).
  apply in_map_iff in Hin as [e0 [E0 He0]]. rewrite <- E0. now apply Ha.
Qed.

(* ----------------------------------------------------------------- *)
(** ** Numbers *)

Lemma float64_eqb_eq f g : strconv.float64_eqb f g = true -> f = g.
Proof.
  destruct f, g; simpl; try discriminate; try reflexivity.
  - intros H. apply Bool.eqb_prop in H. now subst.
  - intros H. apply Bool.eqb_prop in H. now subst.
  - intros H. apply andb_true_iff in H as [H He].
    apply andb_true_iff in H as [Hs Hm].
    apply Bool.eqb_prop in Hs. apply Pos.eqb_eq in Hm. apply Z.eqb_eq in He.
    now subst.
Qed.

(** What [FormatFloat] writes, [ParseFloat] reads back. *)
Lemma ParseFloat_FormatFloat f : strconv.ParseFloat (strconv.FormatFloat f) = f.
Proof.
  unfold strconv.FormatFloat. destruct (truncate f) as [z|]; [|reflexivity].
  destruct (Z.abs z <=? 2 ^ 53); [|reflexivity].
  destruct (strconv.float64_eqb (float64_of_Z z) f) eqn:E; [|reflexivity].
  now apply float64_eqb_eq.
Qed.

Lemma wrap64_small z : minInt64 <= z <= maxInt64 -> wrap64 z = z.
Proof.
  unfold wrap64, minInt64, maxInt64. intros H.
  rewrite Z.mod_small; lia.
Qed.

Lemma int64_of_float64_truncate C f n :
  truncate f = Some n -> minInt64 <= n <= maxInt64 ->
  int64_of_float64 C f = n.
Proof.
  intros E H. unfold int64_of_float64. rewrite E.
  replace ((minInt64 <=? n) && (n <=? maxInt64)) with true; [reflexivity|].
  symmetry. apply andb_true_iff. split; apply Z.leb_le; lia.
Qed.

(* ----------------------------------------------------------------- *)
(** ** Decoding into [interface{}] and encoding back *)

Lemma saveError_idem e s : saveError e (saveError e s) = saveError e s.
Proof. now destruct s. Qed.

Lemma valueInterface_array l saved :
  valueInterface (DArray l) saved =
  let (vs, saved) := arrayInterface l saved in (VSlice vs, saved).
Proof. simpl. revert saved. induction l; reflexivity. Qed.

Lemma valueInterface_object ms saved :
  valueInterface (DObject ms) saved =
  let (m, saved) := objectInterface ms [] saved in (VMap m, saved).
Proof. reflexivity. Qed.

Lemma valueInterface_spec d : forall saved,
  valueInterface d saved =
  (toAny d, if inRange d then saved else saveError rangeError saved).
Proof.
  induction d as [| b | f | s | l IH | ms IH] using doc_induction; intros saved;
    try reflexivity.
  - unfold toAny. simpl. destruct (isFinite (strconv.ParseFloat f)); reflexivity.
  - assert (H : forall saved, arrayInterface l saved =
        (fst (arrayInterface l None),
         if forallb inRange l then saved else saveError rangeError saved)).
    { induction IH as [|x l Hx Hl IHl]; intros sv; [reflexivity|].
      simpl. rewrite (Hx sv), (Hx None). simpl.
      rewrite IHl. rewrite (IHl (if inRange x then None else _)). simpl.
      destruct (inRange x); simpl; [reflexivity|].
      destruct (forallb inRange l); [reflexivity|now rewrite saveError_idem]. }
    unfold toAny. rewrite !valueInterface_array, (H saved), (H None).
    reflexivity.
  - assert (H : forall m saved, objectInterface ms m saved =
        (assignAll ms m,
         if forallb (fun e => inRange (snd e)) ms then saved
         else saveError rangeError saved)).
    { induction IH as [|[k x] l Hx Hl IHl]; intros m sv; [reflexivity|].
      simpl in *. rewrite (Hx sv). rewrite IHl.
      destruct (inRange x); simpl; [reflexivity|].
      destruct (forallb _ l); [reflexivity|now rewrite saveError_idem]. }
    unfold toAny. rewrite !valueInterface_object, (H [] saved), (H [] None).
    reflexivity.
Qed.

Lemma objectInterface_spec ms m saved :
  objectInterface ms m saved =
  (assignAll ms m,
   if forallb (fun e => inRange (snd e)) ms then saved
   else saveError rangeError saved).
Proof.
  revert m saved. induction ms as [|[k x] l IH]; intros m sv; [reflexivity|].
  simpl. rewrite valueInterface_spec, IH.
  destruct (inRange x); simpl; [reflexivity|].
  destruct (forallb _ l); [reflexivity|now rewrite saveError_idem].
Qed.

Lemma toAny_array l : toAny (DArray l) = VSlice (map toAny l).
Proof.
  unfold toAny at 1. rewrite valueInterface_array.
  assert (H : forall saved, fst (arrayInterface l saved) = map toAny l).
  { induction l as [|x l IH]; intros sv; [reflexivity|].
    simpl. rewrite valueInterface_spec.
    specialize (IH (if inRange x then sv else saveError rangeError sv)).
    destruct (arrayInterface l _). simpl in *. now rewrite IH. }
  specialize (H None). destruct (arrayInterface l None). simpl in *.
  now rewrite H.
Qed.

Lemma toAny_object ms : toAny (DObject ms) = VMap (assignAll ms []).
Proof.
  unfold toAny at 1. now rewrite valueInterface_object, objectInterface_spec.
Qed.

Lemma mapaccess_assignAll k ms : forall m,
  mapaccess k (assignAll ms m) =
  match lastValue k ms with
  | Some x => Some (toAny x)
  | None => mapaccess k m
  end.
Proof.
  induction ms as [|[k' x] ms IH]; intros m; [reflexivity|].
  simpl. unfold assignAll in *. simpl. rewrite IH.
  destruct (lastValue k ms); [reflexivity|].
  destruct (String.eqb_spec k k') as [->|Hn].
  - apply mapaccess_mapassign_same.
  - apply mapaccess_mapassign_other. congruence.
Qed.

Lemma keys_assignAll k ms : forall m,
  In k (keys (assignAll ms m)) <-> In k (map fst ms) \/ In k (keys m).
Proof.
  induction ms as [|[k' x] ms IH]; intros m; simpl; [tauto|].
  unfold assignAll in *. simpl. rewrite IH, keys_mapassign.
  intuition congruence.
Qed.

Lemma ordered_assignAll ms : forall m, ordered m -> ordered (assignAll ms m).
Proof.
  induction ms as [|[k' x] ms IH]; intros m H; [exact H|].
  unfold assignAll in *. simpl. apply IH. now apply ordered_mapassign.
Qed.

Lemma lastValue_In k ms : lastValue k ms <> None <-> In k (map fst ms).
Proof.
  induction ms as [|[k' x] ms IH]; simpl; [split; [congruence|tauto]|].
  destruct (lastValue k ms).
  - split; [intros _; right; apply IH; discriminate|discriminate].
  - destruct (String.eqb_spec k k') as [->|Hn].
    + split; [auto|discriminate].
    + split; [congruence|]. intros [?|H]; [congruence|]. now apply IH in H.
Qed.

Lemma lastValue_inRange k ms x :
  forallb (fun e => inRange (snd e)) ms = true ->
  lastValue k ms = Some x -> inRange x = true.
Proof.
  induction ms as [|[k' y] ms IH]; simpl; [discriminate|].
  intros H E. apply andb_true_iff in H as [H1 H2].
  destruct (lastValue k ms); [auto|].
  destruct (k =? k')%string; [|discriminate]. now injection E as <-.
Qed.

Lemma valueAt_assignAll k ms :
  valueAt k (assignAll ms []) =
  match lastValue k ms with
  | Some x => toAny x
  | None => VNil
  end.
Proof.
  unfold valueAt. rewrite mapaccess_assignAll. now destruct (lastValue k ms).
Qed.

Lemma canonical_toAny d : inRange d = true -> canonical (toAny d).
Proof.
  induction d as [| b | f | s | l IH | ms IH] using doc_induction; intros H;
    try (unfold toAny; simpl; constructor).
  - unfold toAny. simpl in *. rewrite H. now constructor.
  - rewrite toAny_array. constructor. simpl in H.
    induction IH as [|x l Hx Hl IHl]; [constructor|].
    simpl in H. apply andb_true_iff in H as [H1 H2].
    constructor; auto.
  - rewrite toAny_object. simpl in H.
    assert (G : forall m, ordered m -> Forall (fun e => canonical (snd e)) m ->
              ordered (assignAll ms m)
              /\ Forall (fun e => canonical (snd e)) (assignAll ms m)).
    { induction IH as [|[k x] l Hx Hl IHl]; intros m Ho Hc; [auto|].
      simpl in H. apply andb_true_iff in H as [H1 H2].
      unfold assignAll in *. simpl. apply IHl; [exact H2| |].
      - now apply ordered_mapassign.
      - apply Forall_mapassign; [|exact Hc]. simpl. auto. }
    destruct (G [] I (Forall_nil _)). now constructor.
Qed.

Lemma canonical_assignAll ms :
  forallb (fun e => inRange (snd e)) ms = true ->
  ordered (assignAll ms []) /\
  Forall (fun e => canonical (snd e)) (assignAll ms []).
Proof.
  intros H. pose proof (canonical_toAny (DObject ms) H) as K.
  rewrite toAny_object in K. inversion K; subst. auto.
Qed.

Lemma canonical_valueAt k m :
  Forall (fun e => canonical (snd e)) m -> canonical (valueAt k m).
Proof.
  intros H. unfold valueAt. destruct (mapaccess k m) eqn:E; [|constructor].
  exact (Forall_mapaccess _ _ _ _ H E).
Qed.

Lemma Unmarshal_map_object ms :
  Unmarshal_map (Encoding (DObject ms)) None =
  Going (Some (assignAll ms []))
        (if forallb (fun e => inRange (snd e)) ms then None else Some rangeError).
Proof. unfold Unmarshal_map. now rewrite objectInterface_spec. Qed.

Lemma denotes_inv d v : denotes d v ->
  match v with
  | VNil => d = DNull
  | VBool b => d = DBool b
  | VFloat64 f => exists n, d = DNumber n /\ strconv.ParseFloat n = f
  | VString s => d = DString s
  | VSlice l => exists ds, d = DArray ds /\ map toAny ds = l
                           /\ forallb inRange ds = true
  | VMap m => exists ms, d = DObject ms /\ assignAll ms [] = m
  | VNilMap | VTime _ => False
  end.
Proof.
  intros [E R]. destruct d as [| b | n | s | l | ms].
  - now subst v.
  - now subst v.
  - simpl in R. unfold toAny in E. simpl in E. rewrite R in E. subst v.
    now exists n.
  - now subst v.
  - rewrite toAny_array in E. subst v. now exists l.
  - rewrite toAny_object in E. subst v. now exists ms.
Qed.

Lemma assignAll_ordered ms m : Forall2 memberDenotes ms m -> ordered m ->
  forall acc, Forall (fun e' => below (fst e') acc) m ->
  assignAll ms acc = (acc ++ m)%list.
Proof.
  induction 1 as [|[k x] [k' v] ms m [Hk [Hv _]] Hrest IH]; intros Ho acc Hb.
  - now rewrite app_nil_r.
  - simpl in Hk, Hv. subst k' v. destruct Ho as [Ha Ho].
    inversion Hb as [|? ? Hb1 Hb2]; subst. simpl in Hb1.
    unfold assignAll in *. simpl. rewrite mapassign_below by exact Hb1.
    rewrite IH; [now rewrite <- app_assoc|exact Ho|].
    unfold above, below in *. rewrite Forall_forall in *.
    intros e He. apply Forall_app. split.
    + exact (Hb2 e He).
    + constructor; [|constructor]. simpl. exact (Ha e He).
Qed.

Lemma inRange_members ms (m : smap any) :
  Forall2 memberDenotes ms m -> forallb (fun e => inRange (snd e)) ms = true.
Proof.
  induction 1 as [|e e' ms m [_ [_ Hr]] _ IH]; [reflexivity|].
  simpl. now rewrite Hr, IH.
Qed.

Lemma keys_members ms (m : smap any) :
  Forall2 memberDenotes ms m -> map fst ms = keys m.
Proof.
  induction 1 as [|e e' ms m [Hk _] _ IH]; [reflexivity|].
  simpl. now rewrite Hk, IH.
Qed.


Lemma encode_map L m :
  encode L (VMap m) = option_map DObject (encodeMembers L m).
Proof. reflexivity. Qed.

Lemma encode_slice L l :
  encode L (VSlice l) = option_map DArray (encodeElems L l).
Proof. reflexivity. Qed.

(** Encoding a canonical value gives a text that decodes to it again. *)
Lemma encode_canonical L v : canonical v ->
  exists d, encode L v = Some d /\ denotes d v.
Proof.
  induction v as [| b | f | s | l IH | m IH | | t] using any_induction;
    intros Hc; inversion Hc; subst.
  - exists DNull. repeat split.
  - exists (DBool b). repeat split.
  - exists (DNumber (strconv.FormatFloat f)). simpl. rewrite H0. repeat split.
    + unfold toAny. simpl. now rewrite ParseFloat_FormatFloat, H0.
    + simpl. now rewrite ParseFloat_FormatFloat.
  - exists (DString s). repeat split.
  - assert (G : exists ds, encodeElems L l = Some ds
                           /\ map toAny ds = l /\ forallb inRange ds = true).
    { induction IH as [|x l Hx Hl IHl]; [exists []; repeat split|].
      inversion H0; subst. destruct (Hx H2) as [d [E [T R]]].
      destruct (IHl (canonical_slice _ H3) H3) as [ds [Es [Ts Rs]]].
      exists (d :: ds). simpl. rewrite E, Es, T, Ts, R, Rs. repeat split. }
    destruct G as [ds [E [T R]]]. exists (DArray ds).
    split; [|split].
    + change (encode L (VSlice l)) with (option_map DArray (encodeElems L l)).
      now rewrite E.
    + now rewrite toAny_array, T.
    + exact R.
  - assert (G : exists ms, encodeMembers L m = Some ms
                           /\ Forall2 memberDenotes ms m).
    { clear H0 Hc. induction IH as [|[k x] l Hx Hl IHl]; [exists []; split; constructor|].
      inversion H1; subst. destruct (Hx H2) as [d [E D]].
      destruct (IHl H3) as [ms [Es Ds]].
      exists ((k, d) :: ms). simpl in *. rewrite E, Es. split; [reflexivity|].
      constructor; [split; [reflexivity|exact D]|exact Ds]. }
    destruct G as [ms [E D]]. exists (DObject ms).
    split; [|split].
    + change (encode L (VMap m)) with (option_map DObject (encodeMembers L m)).
      now rewrite E.
    + rewrite toAny_object.
      rewrite (assignAll_ordered ms m D H0 []); [reflexivity|].
      apply Forall_forall. intros; constructor.
    + simpl. exact (inRange_members _ _ D).
Qed.

Lemma encodeMembers_canonical L (m : smap any) :
  ordered m -> Forall (fun e => canonical (snd e)) m ->
  exists ms, encodeMembers L m = Some ms /\ Forall2 memberDenotes ms m.
Proof.
  intros _ H. induction H as [|[k x] l Hx Hl IHl]; [exists []; split; constructor|].
  destruct (encode_canonical L x Hx) as [d [E D]].
  destruct IHl as [ms [Es Ds]].
  exists ((k, d) :: ms). simpl in *. rewrite E, Es. split; [reflexivity|].
  constructor; [split; [reflexivity|exact D]|exact Ds].
Qed.

Lemma sameValue_null x y : sameValue x y -> (x = DNull <-> y = DNull).
Proof.
  intros [E [Rx Ry]].
  pose proof (denotes_inv y (toAny x) (conj (eq_sym E) Ry)) as Ky.
  pose proof (denotes_inv x (toAny y) (conj E Rx)) as Kx.
  split; intros ->.
  - exact Ky.
  - exact Kx.
Qed.

Lemma Unmarshal_map_sameValue x y : sameValue x y ->
  Unmarshal_map (Encoding x) None = Unmarshal_map (Encoding y) None.
Proof.
  intros [E [Rx Ry]].
  pose proof (denotes_inv y (toAny x) (conj (eq_sym E) Ry)) as K.
  destruct x as [| b | f | s | l | ms].
  - now rewrite K.
  - now rewrite K.
  - unfold toAny in K. simpl in K, Rx. rewrite Rx in K.
    now destruct K as [n [-> _]].
  - now rewrite K.
  - rewrite toAny_array in K. now destruct K as [ds [-> _]].
  - rewrite toAny_object in K. destruct K as [ms' [-> K]].
    simpl in Rx, Ry. now rewrite !Unmarshal_map_object, Rx, Ry, K.
Qed.

Lemma map_eq_Forall2 {A B} (f : A -> B) xs : forall ys,
  map f xs = map f ys -> Forall2 (fun x y => f x = f y) xs ys.
Proof.
  induction xs as [|x xs IH]; intros [|y ys] E; try discriminate; constructor.
  - now injection E.
  - apply IH. now injection E.
Qed.

Lemma forallb_inRange_Forall l :
  forallb inRange l = true -> Forall (fun x => inRange x = true) l.
Proof. intros H. apply Forall_forall. now apply forallb_forall. Qed.

Lemma sameValue_elements ds arr :
  map toAny ds = map toAny arr ->
  forallb inRange ds = true -> forallb inRange arr = true ->
  Forall2 sameValue ds arr.
Proof.
  intros E Rd Ra. apply map_eq_Forall2 in E.
  apply forallb_inRange_Forall in Rd, Ra.
  induction E as [|x y ds arr Hxy _ IH]; [constructor|].
  inversion Rd; inversion Ra; subst.
  constructor; [repeat split; assumption|auto].
Qed.

(* ----------------------------------------------------------------- *)
(** ** Decoding into the typed targets *)

Lemma keep_None_r s : keep s None = s.
Proof. now destruct s. Qed.

Lemma keep_assoc a b c : keep (keep a b) c = keep a (keep b c).
Proof. now destruct a. Qed.

Lemma saveError_keep e s : saveError e s = keep s (Some e).
Proof. now destruct s. Qed.

Lemma fold_keep_None {A} (g : A -> option error) l : forall s,
  fold_left (fun s e => keep s (g e)) l s = None <->
  s = None /\ Forall (fun e => g e = None) l.
Proof.
  induction l as [|x l IH]; intros s; simpl.
  - split; [intros ->; split; [reflexivity|constructor]|tauto].
  - rewrite IH. split.
    + intros [H1 H2]. destruct s; [discriminate|]. simpl in H1.
      split; [reflexivity|]. constructor; assumption.
    + intros [-> H]. inversion H; subst. simpl. tauto.
Qed.

Lemma value_float64_keep d v saved :
  value_float64 d v saved =
  (fst (value_float64 d v None), keep saved (snd (value_float64 d v None))).
Proof.
  destruct d; simpl; rewrite ?saveError_keep, ?keep_None_r; try reflexivity.
  destruct (isFinite _); simpl; now rewrite ?saveError_keep, ?keep_None_r.
Qed.

Lemma object_TemperatureData_keep ms : forall v saved,
  object_TemperatureData ms v saved =
  (fst (object_TemperatureData ms v None),
   keep saved (snd (object_TemperatureData ms v None))).
Proof.
  induction ms as [|[k x] ms IH]; intros v saved; simpl.
  - now rewrite keep_None_r.
  - destruct (fieldIndex _ k) as [[|[|n]]|]; try apply IH;
      rewrite (value_float64_keep x _ saved);
      destruct (value_float64 x _ None) as [f s]; simpl;
      rewrite IH, (IH _ s); simpl; now rewrite keep_assoc.
Qed.

Lemma value_TemperatureData_keep d v saved :
  value_TemperatureData d v saved =
  (fst (value_TemperatureData d v None),
   keep saved (snd (value_TemperatureData d v None))).
Proof.
  destruct d; simpl; rewrite ?saveError_keep, ?keep_None_r; try reflexivity.
  apply object_TemperatureData_keep.
Qed.

Lemma object_map_TemperatureData_spec ms : forall m saved,
  object_map_TemperatureData ms m saved = (readAll ms m, readErrors ms saved).
Proof.
  induction ms as [|[k x] ms IH]; intros m saved; [reflexivity|].
  simpl. rewrite value_TemperatureData_keep. apply IH.
Qed.

Lemma readErrors_fold ms saved :
  readErrors ms saved =
  fold_left (fun s e => keep s (readingError (snd e))) ms saved.
Proof. reflexivity. Qed.

Lemma readErrors_Some ms e : readErrors ms (Some e) = Some e.
Proof. induction ms as [|[k x] ms IH]; [reflexivity|exact IH]. Qed.

Lemma readErrors_None ms :
  Forall (fun e => readingError (snd e) = None) ms -> readErrors ms None = None.
Proof.
  induction 1 as [|[k x] ms Hx _ IH]; [reflexivity|].
  unfold readErrors in *. simpl in *. now rewrite Hx.
Qed.

Lemma readErrors_Exists ms saved :
  Exists (fun e => readingError (snd e) <> None) ms ->
  readErrors ms saved <> None.
Proof.
  intros H. revert saved. induction H as [[k x] ms Hx|[k x] ms _ IH]; intros saved.
  - unfold readErrors. simpl. fold (readErrors ms (keep saved (readingError x))).
    destruct saved as [e|]; simpl; [now rewrite readErrors_Some|].
    simpl in Hx. destruct (readingError x) as [e|]; [|contradiction].
    now rewrite readErrors_Some.
  - apply IH.
Qed.

(** Reading members whose keys are in order appends them in turn. *)
Lemma readAll_ordered (ms : list (string * doc)) : forall acc,
  ordered ms -> Forall (fun e => below (fst e) acc) ms ->
  readAll ms acc = (acc ++ map (fun e => (fst e, reading (snd e))) ms)%list.
Proof.
  induction ms as [|[k x] ms IH]; intros acc Ho Hb.
  - simpl. now rewrite app_nil_r.
  - destruct Ho as [Ha Ho]. inversion Hb as [|? ? Hb1 Hb2]; subst.
    unfold readAll in *. simpl in *. rewrite mapassign_below by exact Hb1.
    rewrite IH; [now rewrite <- app_assoc|exact Ho|].
    unfold above, below in *. rewrite Forall_forall in *.
    intros e He. apply Forall_app. split.
    + exact (Hb2 e He).
    + constructor; [|constructor]. simpl. exact (Ha e He).
Qed.

Lemma keys_readAll cms :
  ordered cms ->
  keys (readAll cms []) = map fst cms.
Proof.
  intros Ho. rewrite readAll_ordered; [|exact Ho|].
  - simpl. unfold keys. rewrite map_map. reflexivity.
  - apply Forall_forall. intros; constructor.
Qed.

Lemma value_float64_snd x w : snd (value_float64 x w None) = floatError x.
Proof. unfold floatError. destruct x; simpl; try reflexivity. now destruct (isFinite _). Qed.

Lemma object_TemperatureData_snd ms : forall v saved,
  snd (object_TemperatureData ms v saved) =
  fold_left (fun s e => keep s (memberError e)) ms saved.
Proof.
  induction ms as [|[k x] ms IH]; intros v saved; [reflexivity|].
  simpl. unfold memberError at 2. simpl.
  destruct (fieldIndex _ k) as [[|[|n]]|];
    try (rewrite IH, keep_None_r; reflexivity);
    rewrite (value_float64_keep x _ saved), value_float64_snd;
    destruct (value_float64 x _ None) as [f s0]; simpl; apply IH.
Qed.

Lemma floatError_denotes d v :
  denotes d v -> (floatError d = None <-> fieldShape v = true).
Proof.
  intros H. pose proof (denotes_inv _ _ H) as K. destruct H as [_ R].
  unfold floatError.
  destruct v; try contradiction; subst; simpl;
    try (split; discriminate); try (split; reflexivity).
  - destruct K as [n [-> _]]. simpl in *. rewrite R. split; reflexivity.
  - destruct K as [ds [-> _]]. split; discriminate.
  - destruct K as [ms [-> _]]. split; discriminate.
Qed.

Lemma object_TemperatureData_error ms (m : smap any) :
  Forall2 memberDenotes ms m -> forall v,
  (snd (object_TemperatureData ms v None) = None <->
   readingShape (VMap m) = true).
Proof.
  intros H v. rewrite object_TemperatureData_snd, fold_keep_None. simpl.
  induction H as [|e e' ms m [Hk Hd] _ IH].
  - split; [reflexivity|split; [reflexivity|constructor]].
  - simpl. rewrite andb_true_iff, <- IH.
    assert (E : memberError e = None <->
                match fieldIndex ["actual"; "target"; "offset"]%string (fst e') with
                | Some _ => fieldShape (snd e')
                | None => true
                end = true).
    { unfold memberError. rewrite Hk.
      destruct (fieldIndex _ (fst e')); [|split; reflexivity].
      apply (floatError_denotes _ _ Hd). }
    rewrite <- E. split.
    + intros [_ G]. inversion G; subst. tauto.
    + intros [G1 [_ G2]]. split; [reflexivity|]. constructor; assumption.
Qed.

(** The text to which a canonical value is encoded saves an error exactly
    when the value has not the shape of a reading. *)
Lemma readingError_encode L v d : canonical v -> encode L v = Some d ->
  (readingError d = None <-> readingShape v = true).
Proof.
  intros Hc E. destruct (encode_canonical L v Hc) as [d' [E' D]].
  rewrite E in E'. injection E' as <-.
  pose proof (denotes_inv _ _ D) as K. unfold readingError.
  destruct Hc; subst; simpl; try (split; (reflexivity || discriminate)).
  - destruct K as [n [-> _]]. split; discriminate.
  - destruct K as [ds [-> _]]. split; discriminate.
  - destruct (encodeMembers_canonical L m H H0) as [ms [Em Dm]].
    change (encode L (VMap m)) with (option_map DObject (encodeMembers L m)) in E.
    rewrite Em in E. injection E as <-.
    apply (object_TemperatureData_error ms m Dm).
Qed.

(** The members a map is encoded to save no error exactly when every
    value of the map has the shape of a reading. *)
Lemma readErrors_encodeMembers L (m : smap any) : forall cms,
  ordered m -> Forall (fun e => canonical (snd e)) m ->
  encodeMembers L m = Some cms ->
  (readErrors cms None = None <->
   forall k v, mapaccess k m = Some v -> readingShape v = true).
Proof.
  induction m as [|[k v] m IH]; intros cms Ho Hc E.
  - injection E as <-. split; [discriminate|reflexivity].
  - simpl in E. destruct (encode L v) as [d|] eqn:Ev; [|discriminate].
    destruct (encodeMembers L m) as [cms'|] eqn:Em; [|discriminate].
    injection E as <-. destruct Ho as [Ha Ho]. inversion Hc as [|? ? Hv Hm]; subst.
    simpl in Hv. specialize (IH cms' Ho Hm eq_refl).
    rewrite readErrors_fold, fold_keep_None in *.
    pose proof (readingError_encode L v d Hv Ev) as Ed.
    split.
    + intros [_ G] k0 v0 E0. inversion G as [|? ? G1 G2]; subst.
      simpl in E0, G1. destruct (k0 =? k)%string.
      * injection E0 as <-. now apply Ed.
      * destruct IH as [IH _]. exact (IH (conj eq_refl G2) k0 v0 E0).
    + intros G. split; [reflexivity|]. constructor.
      * simpl. apply Ed. apply (G k). simpl. now rewrite String.eqb_refl.
      * apply IH. intros k0 v0 E0. apply (G k0). simpl.
        destruct (String.eqb_spec k0 k) as [->|Hn]; [|exact E0].
        now rewrite mapaccess_above in E0.
Qed.

(* ----------------------------------------------------------------- *)
(** ** The calendar and the RFC 3339 text *)

Lemma daysBeforeYear_bounds y :
  146097 * y - 396 <= 400 * time.daysBeforeYear y <= 146097 * y + 699.
Proof. unfold time.daysBeforeYear. Z.div_mod_to_equations; lia. Qed.

Lemma isLeap_spec y :
  time.isLeap y = true <-> (y mod 4 = 0 /\ (y mod 100 <> 0 \/ y mod 400 = 0)).
Proof.
  unfold time.isLeap. rewrite andb_true_iff, orb_true_iff, negb_true_iff.
  rewrite !Z.eqb_eq, Z.eqb_neq. tauto.
Qed.

Lemma daysBeforeYear_succ y :
  time.daysBeforeYear (y + 1) =
  time.daysBeforeYear y + 365 + (if time.isLeap y then 1 else 0).
Proof.
  destruct (time.isLeap y) eqn:E.
  - apply isLeap_spec in E. unfold time.daysBeforeYear. Z.div_mod_to_equations; lia.
  - assert (H : ~ (y mod 4 = 0 /\ (y mod 100 <> 0 \/ y mod 400 = 0))).
    { intros K. apply isLeap_spec in K. congruence. }
    unfold time.daysBeforeYear. Z.div_mod_to_equations; lia.
Qed.

Lemma yearOfDay_spec d : 0 <= d ->
  time.daysBeforeYear (time.yearOfDay d) <= d
  < time.daysBeforeYear (time.yearOfDay d + 1).
Proof.
  intros Hd. unfold time.yearOfDay.
  set (y := d * 400 / 146097).
  assert (Hy : 146097 * y <= 400 * d < 146097 * (y + 1)) by (unfold y; Z.div_mod_to_equations; lia).
  pose proof (daysBeforeYear_bounds (y - 1)).
  pose proof (daysBeforeYear_bounds (y + 2)).
  pose proof (daysBeforeYear_succ (y - 1)). pose proof (daysBeforeYear_succ y).
  replace (y - 1 + 1) with y in * by lia.
  destruct (time.daysBeforeYear (y + 1) <=? d) eqn:E1.
  - apply Z.leb_le in E1. replace (y + 1 + 1) with (y + 2) by lia. lia.
  - apply Z.leb_gt in E1. destruct (d <? time.daysBeforeYear y) eqn:E2.
    + apply Z.ltb_lt in E2. replace (y - 1 + 1) with y by lia. lia.
    + apply Z.ltb_ge in E2. lia.
Qed.

Lemma yearOfDay_range d : 0 <= d < time.daysBeforeYear 10000 ->
  0 <= time.yearOfDay d <= 9999.
Proof.
  intros Hd. pose proof (yearOfDay_spec d (proj1 Hd)) as H.
  pose proof (daysBeforeYear_bounds (time.yearOfDay d)).
  pose proof (daysBeforeYear_bounds (time.yearOfDay d + 1)).
  destruct (Z.eq_dec (time.yearOfDay d) 10000) as [E|].
  { rewrite E in H. lia. }
  destruct (Z.eq_dec (time.yearOfDay d) (-1)) as [E|].
  { rewrite E in H. change (time.daysBeforeYear (-1 + 1)) with 0 in H. lia. }
  change (time.daysBeforeYear 10000) with 3652425 in Hd. lia.
Qed.

Lemma monthOfYearDay_spec leap yd :
  0 <= yd < time.daysBeforeMonth leap 13 ->
  let m := time.monthOfYearDay leap yd in
  1 <= m <= 12 /\
  time.daysBeforeMonth leap m <= yd < time.daysBeforeMonth leap (m + 1).
Proof.
  intros H. unfold time.monthOfYearDay.
  repeat match goal with
         | |- context [if ?a <? ?b then _ else _] =>
             destruct (Z.ltb_spec a b)
         end;
    destruct leap; cbn in *; lia.
Qed.

Lemma clockOf_valid abs : 0 <= abs < time.endOfYears ->
  time.validClock (time.clockOf abs) = true /\
  time.absOf (time.clockOf abs) = abs.
Proof.
  intros H. unfold time.endOfYears in H.
  set (d := abs / 86400). set (r := abs mod 86400).
  assert (Hd : 0 <= d < time.daysBeforeYear 10000).
  { unfold d. change (time.daysBeforeYear 10000) with 3652425 in *.
    Z.div_mod_to_equations. lia. }
  assert (Hr : 0 <= r < 86400) by (unfold r; Z.div_mod_to_equations; lia).
  assert (Habs : abs = d * 86400 + r) by (unfold d, r; Z.div_mod_to_equations; lia).
  pose proof (yearOfDay_spec d (proj1 Hd)) as Hy.
  pose proof (yearOfDay_range d Hd) as Hyr.
  set (y := time.yearOfDay d) in *.
  pose proof (daysBeforeYear_succ y) as Hs.
  set (yd := d - time.daysBeforeYear y).
  assert (Hyd : 0 <= yd < time.daysBeforeMonth (time.isLeap y) 13).
  { unfold yd. destruct (time.isLeap y); cbn; lia. }
  pose proof (monthOfYearDay_spec (time.isLeap y) yd Hyd) as [Hm1 Hm2].
  unfold time.clockOf. fold d r. fold y. fold yd.
  set (m := time.monthOfYearDay (time.isLeap y) yd) in *.
  unfold time.validClock, time.absOf. cbn [time.year time.month time.day time.hour time.minute time.second].
  split.
  - repeat (apply andb_true_iff; split); apply Z.leb_le;
      try lia; Z.div_mod_to_equations; lia.
  - unfold yd. Z.div_mod_to_equations. lia.
Qed.

Lemma append_assoc (a b c : string) : (a ++ b) ++ c = a ++ (b ++ c).
Proof. induction a as [|x a IH]; simpl; [reflexivity|now rewrite IH]. Qed.

Lemma digitValue_digit d : (0 <= d <= 9)%Z -> time.digitValue (time.digit d) = Some d.
Proof.
  intros H.
  assert (K : (d = 0 \/ d = 1 \/ d = 2 \/ d = 3 \/ d = 4 \/ d = 5 \/ d = 6
              \/ d = 7 \/ d = 8 \/ d = 9)%Z) by lia.
  repeat (destruct K as [->|K]; [reflexivity|]). now subst.
Qed.

Lemma readNumber_num2 n acc rest : (0 <= n <= 99)%Z ->
  time.readNumber 2 acc (time.num2 n ++ rest) = Some ((100 * acc + n)%Z, rest).
Proof.
  intros H. unfold time.num2. cbn [append time.readNumber].
  rewrite !digitValue_digit by (Z.div_mod_to_equations; lia).
  do 2 f_equal. Z.div_mod_to_equations. lia.
Qed.

Lemma readNumber_add a b : forall acc s,
  time.readNumber (a + b) acc s =
  match time.readNumber a acc s with
  | Some (v, r) => time.readNumber b v r
  | None => None
  end.
Proof.
  induction a as [|a IH]; intros acc s; [reflexivity|].
  simpl. destruct s as [|c s]; [reflexivity|].
  destruct (time.digitValue c); [apply IH|reflexivity].
Qed.

Lemma readNumber_num4 n rest : (0 <= n <= 9999)%Z ->
  time.readNumber 4 0 (time.num4 n ++ rest) = Some (n, rest).
Proof.
  intros H. unfold time.num4. rewrite append_assoc.
  rewrite (readNumber_add 2 2).
  rewrite !readNumber_num2 by (Z.div_mod_to_equations; lia).
  do 2 f_equal. Z.div_mod_to_equations. lia.
Qed.

Lemma expect_cons c rest : time.expect c (String c rest) = Some rest.
Proof. simpl. now rewrite Ascii.eqb_refl. Qed.

Lemma parseClock_formatClock c rest :
  time.validClock c = true ->
  time.parseClock (time.formatClock c ++ rest) = Some (c, rest).
Proof.
  intros V. unfold time.validClock in V.
  repeat (apply andb_true_iff in V; destruct V as [V ?]).
  repeat match goal with H : (_ <=? _)%Z = true |- _ => apply Z.leb_le in H end.
  assert (Hd : (time.day c <= 31)%Z).
  { destruct (time.isLeap (time.year c));
      assert (K : (time.month c = 1 \/ time.month c = 2 \/ time.month c = 3
                   \/ time.month c = 4 \/ time.month c = 5 \/ time.month c = 6
                   \/ time.month c = 7 \/ time.month c = 8 \/ time.month c = 9
                   \/ time.month c = 10 \/ time.month c = 11
                   \/ time.month c = 12)%Z) by lia;
      repeat (destruct K as [K|K]; [rewrite K in *; cbn in *; lia|]);
      rewrite K in *; cbn in *; lia. }
  unfold time.formatClock, time.parseClock.
  rewrite !append_assoc.
  rewrite readNumber_num4 by lia. cbn [append]. rewrite expect_cons.
  rewrite readNumber_num2 by lia. cbn [append]. rewrite expect_cons.
  rewrite readNumber_num2 by lia. cbn [append]. rewrite expect_cons.
  rewrite readNumber_num2 by lia. cbn [append]. rewrite expect_cons.
  rewrite readNumber_num2 by lia. cbn [append]. rewrite expect_cons.
  rewrite readNumber_num2 by lia.
  destruct c; reflexivity.
Qed.

Lemma parseZone_formatZone o : (Z.abs (Z.quot o 60) / 60 < 24)%Z ->
  time.parseZone (time.formatZone o) =
  Some (if (o =? 0)%Z then None else Some (60 * Z.quot o 60)%Z).
Proof.
  intros H. unfold time.formatZone.
  destruct (o =? 0)%Z; [reflexivity|].
  set (z := Z.quot o 60) in *.
  destruct (Z.ltb_spec z 0).
  - cbn [append time.parseZone]. cbn [Ascii.eqb Bool.eqb orb andb].
    rewrite readNumber_num2 by (Z.div_mod_to_equations; lia).
    cbn [append]. rewrite expect_cons.
    pose proof (readNumber_num2 (Z.abs z mod 60) 0 "") as E.
    replace (time.num2 (Z.abs z mod 60)) with (time.num2 (Z.abs z mod 60) ++ "")
      by (unfold time.num2; reflexivity).
    rewrite E by (Z.div_mod_to_equations; lia).
    replace (100 * 0 + Z.abs z / 60 <=? 23)%Z with true
      by (symmetry; apply Z.leb_le; lia).
    replace (100 * 0 + Z.abs z mod 60 <=? 59)%Z with true
      by (symmetry; apply Z.leb_le; Z.div_mod_to_equations; lia).
    cbn [andb]. do 2 f_equal. Z.div_mod_to_equations. lia.
  - cbn [append time.parseZone]. cbn [Ascii.eqb Bool.eqb orb andb].
    rewrite readNumber_num2 by (Z.div_mod_to_equations; lia).
    cbn [append]. rewrite expect_cons.
    pose proof (readNumber_num2 (Z.abs z mod 60) 0 "") as E.
    replace (time.num2 (Z.abs z mod 60)) with (time.num2 (Z.abs z mod 60) ++ "")
      by (unfold time.num2; reflexivity).
    rewrite E by (Z.div_mod_to_equations; lia).
    replace (100 * 0 + Z.abs z / 60 <=? 23)%Z with true
      by (symmetry; apply Z.leb_le; lia).
    replace (100 * 0 + Z.abs z mod 60 <=? 59)%Z with true
      by (symmetry; apply Z.leb_le; Z.div_mod_to_equations; lia).
    cbn [andb]. do 2 f_equal. Z.div_mod_to_equations. lia.
Qed.

(** Marshalling the local time of a Unix second whose clock reading lies
    in the years 0 to 9999, and parsing the text back: the second comes
    back up to the seconds of the zone offset, which the text drops. *)
Lemma time_round_trip L n :
  minInt64 <= n <= maxInt64 ->
  0 <= n + L n + time.unixEpoch < time.endOfYears ->
  Z.abs (Z.quot (L n) 60) / 60 < 24 ->
  exists s,
    time.MarshalJSON L (time.Unix n 0) = Some s /\
    time.parseStrictRFC3339 L s =
    Some {| time.unixSec := n + Z.rem (L n) 60; time.nsec := 0;
            time.loc := parsedLocation L (L n) (n + Z.rem (L n) 60) |}.
Proof.
  intros Hn Hw Hz.
  assert (EU : time.Unix n 0 = {| time.unixSec := n; time.nsec := 0; time.loc := time.Local |}).
  { unfold time.Unix. cbn. rewrite Z.add_0_r. now rewrite wrap64_small. }
  rewrite EU. unfold time.MarshalJSON. cbn [time.loc time.unixSec time.nsec time.offsetAt].
  set (o := L n) in *. set (abs := n + o + time.unixEpoch) in *.
  replace ((abs <? 0) || (time.endOfYears <=? abs)) with false
    by (symmetry; apply orb_false_iff; split; [apply Z.ltb_ge|apply Z.leb_gt]; lia).
  replace (24 <=? Z.abs (Z.quot o 60) / 60) with false
    by (symmetry; apply Z.leb_gt; lia).
  eexists. split; [reflexivity|].
  destruct (clockOf_valid abs Hw) as [V A].
  unfold time.parseStrictRFC3339.
  change (time.formatFraction 0) with EmptyString. cbn [append].
  rewrite (parseClock_formatClock _ _ V).
  assert (F : (let (ns, s) :=
                 match time.formatZone o with
                 | String "."%char r =>
                     if time.startsWithDigit r
                     then time.readFraction 100000000 0 r
                     else (0, time.formatZone o)
                 | _ => (0, time.formatZone o)
                 end in (ns, s)) = (0, time.formatZone o)).
  { unfold time.formatZone. destruct (o =? 0); [reflexivity|].
    destruct (Z.quot o 60 <? 0); reflexivity. }
  destruct (match time.formatZone o with
            | String "."%char r =>
                if time.startsWithDigit r
                then time.readFraction 100000000 0 r
                else (0, time.formatZone o)
            | _ => (0, time.formatZone o)
            end) as [ns s] eqn:E.
  injection F as -> ->.
  rewrite (parseZone_formatZone o Hz), V, A. unfold parsedLocation.
  assert (Q : o = 60 * Z.quot o 60 + Z.rem o 60) by apply Z.quot_rem'.
  destruct (Z.eqb_spec o 0) as [Eo|No].
  - rewrite Eo. cbn. do 2 f_equal. unfold abs.
    change time.unixEpoch with 62167219200. lia.
  - replace (abs - time.unixEpoch - 60 * Z.quot o 60) with (n + Z.rem o 60)
      by (unfold abs; lia).
    reflexivity.
Qed.

Lemma hasText_int64 L n : hasText L n -> minInt64 <= n <= maxInt64.
Proof.
  unfold hasText, minInt64, maxInt64.
  change time.unixEpoch with 62167219200.
  change time.endOfYears with 315569520000.
  intros [H1 H2].
  assert (Z.abs (Z.quot (L n) 60) < 1440) by (Z.div_mod_to_equations; lia).
  assert (Z.abs (L n) < 86400 + 60) by (Z.quot_rem_to_equations; lia).
  lia.
Qed.

(* ----------------------------------------------------------------- *)
(** ** The split of the reserved key *)


Lemma HistoricTemperatureData_split_object L C ms lit t :
  forallb (fun e => inRange (snd e)) ms = true ->
  lastValue "time" ms = Some (DNumber lit) ->
  time.MarshalJSON L
    (time.Unix (int64_of_float64 C (strconv.ParseFloat lit)) 0) = Some t ->
  exists tms,
    encodeMembers L (mapdelete "time" (assignAll ms [])) = Some tms /\
    Forall2 memberDenotes tms (mapdelete "time" (assignAll ms [])) /\
    HistoricTemperatureData_split L C (Some (assignAll ms [])) =
    Returns (Encoding (DObject [("time", DString t); ("tools", DObject tms)]%string)).
Proof.
  intros H El Et. destruct (canonical_assignAll ms H) as [Ho Hc].
  pose proof (lastValue_inRange _ _ _ H El) as Rf. simpl in Rf.
  set (m := assignAll ms []) in *.
  destruct (encodeMembers_canonical L (mapdelete "time" m)) as [tms [Ec Dc]].
  { now apply ordered_mapdelete. }
  { now apply Forall_mapdelete. }
  exists tms. split; [exact Ec|]. split; [exact Dc|].
  unfold HistoricTemperatureData_split. unfold m at 1.
  rewrite mapaccess_assignAll, El. unfold toAny. simpl valueInterface.
  rewrite Rf. cbn [fst option_map].
  set (f := strconv.ParseFloat lit) in *.
  change (mapassign "tools" (VMap (mapdelete "time" m))
            (mapassign "time"
               (VTime (time.Unix (int64_of_float64 C f) 0)) []))
    with [("time", VTime (time.Unix (int64_of_float64 C f) 0));
          ("tools", VMap (mapdelete "time" m))]%string.
  unfold Marshal. rewrite encode_map. cbn [encodeMembers encode].
  rewrite Et. cbn [option_map].
  change ((fix encodeMembers (m0 : list (string * any)) :
             option (list (string * doc)) :=
             match m0 with
             | [] => Some []
             | (k, x) :: m' =>
                 match encode L x with
                 | Some d =>
                     match encodeMembers m' with
                     | Some ds => Some ((k, d) :: ds)
                     | None => None
                     end
                 | None => None
                 end
             end) (mapdelete "time" m))
    with (encodeMembers L (mapdelete "time" m)).
  now rewrite Ec.
Qed.




(* ----------------------------------------------------------------- *)
(** ** The entry decoder *)

(** Without a number under [time] the type assertion panics. *)
Lemma entry_without_numeric_time_panics L C ms h :
  inRange (DObject ms) = true ->
  match lastValue "time" ms with
  | Some (DNumber _) => False
  | _ => True
  end ->
  exists msg,
    HistoricTemperatureData_UnmarshalJSON L C (Encoding (DObject ms)) h
    = Panics msg.
Proof.
  intros R Ht. simpl in R. unfold HistoricTemperatureData_UnmarshalJSON.
  rewrite Unmarshal_map_object, R. unfold HistoricTemperatureData_split.
  rewrite mapaccess_assignAll.
  destruct (lastValue "time" ms) as [x|] eqn:El; [|eexists; reflexivity].
  pose proof (lastValue_inRange _ _ _ R El) as Rx.
  destruct x; try contradiction; try (eexists; reflexivity).
  - rewrite toAny_array. eexists; reflexivity.
  - rewrite toAny_object. eexists; reflexivity.
Qed.

(** C3: an entry without [time], or with a [time] that is not a number,
    makes the entry decoder panic; no error is returned. *)
Theorem entry_without_time_panics L C h :
  HistoricTemperatureData_UnmarshalJSON L C (Encoding (DObject [])) h
    = Panics "interface conversion: interface {} is not float64" /\
  HistoricTemperatureData_UnmarshalJSON L C
    (Encoding (DObject [("time", DString "2021-01-07T06:13:20Z")]%string)) h
    = Panics "interface conversion: interface {} is not float64".
Proof. split; reflexivity. Qed.

Lemma object_historicTemperatureData_returns L ms : forall v saved msg,
  object_historicTemperatureData L ms v saved <> Panicked msg.
Proof.
  induction ms as [|[k x] ms IH]; intros v saved msg; [discriminate|].
  simpl. destruct (fieldIndex _ k) as [[|n]|]; try apply IH.
  - destruct (time.UnmarshalJSON L x (Time v)) as [t [e|]];
      [discriminate|apply IH].
  - destruct (value_map_TemperatureData x (Tools v) saved). apply IH.
Qed.

Lemma Unmarshal_historicTemperatureData_returns L b i msg :
  Unmarshal_historicTemperatureData L b i <> Panicked msg.
Proof.
  destruct b as [|[| | | | |ms]]; try discriminate.
  apply object_historicTemperatureData_returns.
Qed.

Lemma hasNumericTime_returns L C e : hasNumericTime e -> entryReturns L C e.
Proof.
  intros H. destruct e as [| b | f | s | l | ms];
    try (right; eexists; reflexivity); [now left|].
  right. destruct H as [f El].
  unfold HistoricTemperatureData_UnmarshalJSON.
  rewrite Unmarshal_map_object.
  destruct (forallb (fun e => inRange (snd e)) ms) eqn:R; [|eexists; reflexivity].
  pose proof (lastValue_inRange _ _ _ R El) as Rf. simpl in Rf.
  unfold HistoricTemperatureData_split.
  rewrite mapaccess_assignAll, El. unfold toAny. simpl valueInterface.
  rewrite Rf. cbn [fst].
  destruct (Unmarshal_historicTemperatureData _ _ _) as [i [e|]| |] eqn:U;
    try (eexists; reflexivity).
  now apply Unmarshal_historicTemperatureData_returns in U.
Qed.

(** An entry with a number under [time] whose instant has a text, and
    with tools of the shape of a reading, is decoded without an error;
    the second is that of the number up to the seconds of the zone
    offset. *)
Lemma HistoricTemperatureData_UnmarshalJSON_decodes L C ms lit n h :
  inRange (DObject ms) = true ->
  lastValue "time" ms = Some (DNumber lit) ->
  truncate (strconv.ParseFloat lit) = Some n ->
  hasText L n ->
  (forall k x, k <> "time"%string -> lastValue k ms = Some x ->
               readingShape (toAny x) = true) ->
  exists tools,
    HistoricTemperatureData_UnmarshalJSON L C (Encoding (DObject ms)) h =
    Returns ({| Time := {| time.unixSec := n + Z.rem (L n) 60;
                           time.nsec := 0;
                           time.loc := parsedLocation L (L n)
                                         (n + Z.rem (L n) 60) |};
                Tools := Some tools |}, None) /\
    (forall k, In k (keys tools) <-> In k (map fst ms) /\ k <> "time"%string).
Proof.
  intros R El Et Hx Htools. simpl in R.
  pose proof (hasText_int64 L n Hx) as Hn. destruct Hx as [Hw Hz].
  destruct (time_round_trip L n Hn Hw Hz) as [t [Em Ep]].
  pose proof (int64_of_float64_truncate C _ n Et Hn) as Ei.
  rewrite <- Ei in Em.
  destruct (HistoricTemperatureData_split_object L C ms lit t R El Em)
    as [tms [Ec [Dc Es]]].
  destruct (canonical_assignAll ms R) as [Ho Hc].
  assert (Hok : readErrors tms None = None).
  { apply (readErrors_encodeMembers L _ tms
             (ordered_mapdelete _ _ Ho) (Forall_mapdelete _ _ _ Hc) Ec).
    intros k v E.
    assert (Hk : k <> "time"%string).
    { intros ->. now rewrite mapaccess_mapdelete_same in E. }
    rewrite mapaccess_mapdelete_other in E by congruence.
    rewrite mapaccess_assignAll in E.
    destruct (lastValue k ms) as [x|] eqn:Ek; [|discriminate].
    injection E as <-. exact (Htools k x Hk Ek). }
  assert (Hord : ordered tms).
  { apply (ordered_same_keys (mapdelete "time" (assignAll ms []))).
    - symmetry. apply (keys_members _ _ Dc).
    - now apply ordered_mapdelete. }
  exists (readAll tms []). split.
  - unfold HistoricTemperatureData_UnmarshalJSON.
    rewrite Unmarshal_map_object, R, Es.
    cbn [Unmarshal_historicTemperatureData object_historicTemperatureData].
    change (fieldIndex ["time"; "tools"]%string "time") with (Some 0%nat).
    change (fieldIndex ["time"; "tools"]%string "tools") with (Some 1%nat).
    cbn [time.UnmarshalJSON]. rewrite Ep.
    cbn [value_map_TemperatureData Tools Time zeroHistoricTemperatureData].
    rewrite object_map_TemperatureData_spec, Hok. reflexivity.
  - intros k. rewrite keys_readAll by exact Hord.
    rewrite (keys_members _ _ Dc), keys_mapdelete, keys_assignAll. simpl. tauto.
Qed.




Lemma HistoricTemperatureData_UnmarshalJSON_sameValue L C x y h :
  sameValue x y ->
  HistoricTemperatureData_UnmarshalJSON L C (Encoding x) h =
  HistoricTemperatureData_UnmarshalJSON L C (Encoding y) h.
Proof.
  intros H. unfold HistoricTemperatureData_UnmarshalJSON.
  now rewrite (Unmarshal_map_sameValue x y H).
Qed.

(* ----------------------------------------------------------------- *)
(** ** The temperature decoder *)

Lemma TemperatureState_UnmarshalJSON_object L C M ms r :
  forallb (fun e => inRange (snd e)) ms = true ->
  exists cms hd,
    encodeMembers L (mapdelete "history" (assignAll ms [])) = Some cms /\
    Forall2 memberDenotes cms (mapdelete "history" (assignAll ms [])) /\
    encode L (valueAt "history" (assignAll ms [])) = Some hd /\
    denotes hd (valueAt "history" (assignAll ms [])) /\
    TemperatureState_UnmarshalJSON L C M (Encoding (DObject ms)) r =
    match value_History L C M hd None (readErrors cms None) with
    | Going l None =>
        Returns ({| Current := Some (readAll cms []); History := l |}, None)
    | Going _ (Some e) => Returns (r, Some e)
    | Stopped e => Returns (r, Some e)
    | Panicked msg => Panics msg
    end.
Proof.
  intros H. destruct (canonical_assignAll ms H) as [Ho Hc].
  set (m := assignAll ms []) in *.
  destruct (encodeMembers_canonical L (mapdelete "history" m)) as [cms [Ec Dc]].
  { now apply ordered_mapdelete. }
  { now apply Forall_mapdelete. }
  destruct (encode_canonical L (valueAt "history" m)) as [hd [Eh Dh]].
  { now apply canonical_valueAt. }
  exists cms, hd. repeat split; try assumption; try apply Dh.
  unfold TemperatureState_UnmarshalJSON.
  rewrite Unmarshal_map_object, H. fold m. unfold TemperatureState_split.
  change (match mapaccess "history" m with Some v => v | None => VNil end)
    with (valueAt "history" m).
  cbn [option_map].
  change (mapassign "history" (valueAt "history" m)
            (mapassign "current" (VMap (mapdelete "history" m)) []))
    with [("current", VMap (mapdelete "history" m));
          ("history", valueAt "history" m)]%string.
  unfold Marshal.
  rewrite encode_map. cbn [encodeMembers]. rewrite encode_map.
  rewrite Ec, Eh. cbn [option_map fst Unmarshal_temperatureState].
  cbn [object_temperatureState].
  change (fieldIndex ["current"; "history"]%string "current") with (Some 0%nat).
  change (fieldIndex ["current"; "history"]%string "history") with (Some 1%nat).
  cbn [value_map_TemperatureData Current History zeroTemperatureState].
  rewrite object_map_TemperatureData_spec.
  destruct (value_History L C M hd None (readErrors cms None)) as [l [e|]| |];
    reflexivity.
Qed.

Lemma array_HistoricTemperatureData_sameValue L C M xs ys :
  Forall2 sameValue xs ys -> forall old saved,
  array_HistoricTemperatureData L C M xs old saved =
  array_HistoricTemperatureData L C M ys old saved.
Proof.
  induction 1 as [|x y xs ys Hxy _ IH]; intros old saved; [reflexivity|].
  pose proof (sameValue_null x y Hxy) as N.
  pose proof (HistoricTemperatureData_UnmarshalJSON_sameValue L C x y) as U.
  destruct x; destruct y;
    try (destruct N as [N1 N2]; (discriminate (N1 eq_refl) || discriminate (N2 eq_refl)));
    cbn [array_HistoricTemperatureData]; rewrite ?IH; try reflexivity;
    rewrite (U _ Hxy);
    destruct (HistoricTemperatureData_UnmarshalJSON _ _ _ _) as [[h' [e|]]|];
    try reflexivity; destruct (M _); rewrite ?IH; reflexivity.
Qed.


Lemma array_HistoricTemperatureData_returns L C M arr :
  Forall (entryReturns L C) arr -> forall saved,
  (exists l s, array_HistoricTemperatureData L C M arr [] saved = Going l s /\
               forall e0, saved = Some e0 -> s = Some e0) \/
  (exists e, array_HistoricTemperatureData L C M arr [] saved = Stopped e).
Proof.
  induction 1 as [|x arr Hx _ IH]; intros saved.
  { left. exists [], saved. now split. }
  assert (G : forall h saved' saved,
    (forall e0, saved = Some e0 -> saved' = Some e0) ->
    (exists l s, match array_HistoricTemperatureData L C M arr [] saved' with
                 | Going l saved => Going (h :: l) saved
                 | Stopped err => Stopped err
                 | Panicked msg => Panicked msg
                 end = Going l s /\
                 forall e0, saved = Some e0 -> s = Some e0) \/
    (exists e, match array_HistoricTemperatureData L C M arr [] saved' with
               | Going l saved => Going (h :: l) saved
               | Stopped err => Stopped err
               | Panicked msg => Panicked msg
               end = Stopped e)).
  { intros h saved' sv Hsv. destruct (IH saved') as [[l [s [-> Hs]]]|[e ->]].
    - left. exists (h :: l), s. split; [reflexivity|]. intros e0 E. auto.
    - right. now exists e. }
  destruct Hx as [->|[[h [e|]] Hh]].
  - apply G. auto.
  - destruct x; cbn [array_HistoricTemperatureData hd tl]; try rewrite Hh;
      try discriminate Hh;
      (destruct (M _); [right; now exists e|]);
      apply G; now intros e0 ->.
  - destruct x; cbn [array_HistoricTemperatureData hd tl]; try rewrite Hh;
      apply G; auto.
Qed.


Lemma value_History_absent L C M ms hd saved :
  lastValue "history" ms = None ->
  denotes hd (valueAt "history" (assignAll ms [])) ->
  value_History L C M hd None saved = Going None saved.
Proof.
  intros E D. rewrite valueAt_assignAll, E in D.
  now rewrite (denotes_inv _ _ D).
Qed.

Lemma value_History_array L C M ms arr hd saved :
  forallb (fun e => inRange (snd e)) ms = true ->
  lastValue "history" ms = Some (DArray arr) ->
  denotes hd (valueAt "history" (assignAll ms [])) ->
  value_History L C M hd None saved =
  match array_HistoricTemperatureData L C M arr [] saved with
  | Going l saved => Going (Some l) saved
  | Stopped err => Stopped err
  | Panicked msg => Panicked msg
  end.
Proof.
  intros R E D. rewrite valueAt_assignAll, E, toAny_array in D.
  destruct (denotes_inv _ _ D) as [ds [-> [Ed Rd]]].
  pose proof (lastValue_inRange _ _ _ R E) as Ra. simpl in Ra.
  cbn [value_History].
  now rewrite (array_HistoricTemperatureData_sameValue L C M ds arr
                 (sameValue_elements ds arr Ed Rd Ra)).
Qed.










(* ----------------------------------------------------------------- *)
(** ** Errors leave the receiver alone *)

(** C9: when either decoder returns an error, the receiver has the value
    it had before the call. *)
Theorem decode_errors_are_atomic L C M b :
  (forall r r' e,
     TemperatureState_UnmarshalJSON L C M b r = Returns (r', Some e) -> r' = r) /\
  (forall h h' e,
     HistoricTemperatureData_UnmarshalJSON L C b h = Returns (h', Some e) ->
     h' = h).
Proof.
  split.
  - intros r r' e. unfold TemperatureState_UnmarshalJSON.
    destruct (Unmarshal_map b None) as [raw [e0|]| |];
      try (intros [= <- _]; reflexivity); try discriminate.
    destruct (Unmarshal_temperatureState _ _ _ _ _) as [i [e1|]| |];
      try (intros [= <- _]; reflexivity); discriminate.
  - intros h h' e. unfold HistoricTemperatureData_UnmarshalJSON.
    destruct (Unmarshal_map b None) as [raw [e0|]| |];
      try (intros [= <- _]; reflexivity); try discriminate.
    destruct (HistoricTemperatureData_split L C raw) as [b'|]; [|discriminate].
    destruct (Unmarshal_historicTemperatureData _ _ _) as [i [e1|]| |];
      try (intros [= <- _]; reflexivity); discriminate.
Qed.

Lemma decode_errors_are_atomic_witness :
  TemperatureState_UnmarshalJSON zoneUTC convAMD64 savesAlways
    (Encoding (DObject [("tool0", DBool true)]%string))
    {| Current := Some []; History := None |}
  = Returns ({| Current := Some []; History := None |},
             Some (UnmarshalTypeError "bool" "octoprint.TemperatureData")) /\
  {| Current := Some []; History := None |}
  = {| Current := Some []; History := None |}.
Proof.
  split; [reflexivity|].
  apply (proj1 (decode_errors_are_atomic zoneUTC convAMD64 savesAlways
                  (Encoding (DObject [("tool0", DBool true)]%string)))
           {| Current := Some []; History := None |} _
           (UnmarshalTypeError "bool" "octoprint.TemperatureData")).
  reflexivity.
Defined.

(* ----------------------------------------------------------------- *)
(** ** The families of the classifier among themselves *)

Lemma StartsWith_both s : forall p q,
  StartsWith s p -> StartsWith s q -> StartsWith p q \/ StartsWith q p.
Proof.
  induction s as [|c s IH]; intros p q [r Hr] [r' Hr'].
  - destruct p; [|discriminate]. right. now exists q.
  - destruct p as [|a p]; [right; now exists q|].
    destruct q as [|b q]; [left; now exists (String a p)|].
    simpl in Hr, Hr'. injection Hr as -> Hr. injection Hr' as -> Hr'.
    destruct (IH p q) as [[t ->]|[t ->]];
      [now exists r|now exists r'|left|right]; now exists t.
Qed.

Lemma HasPrefix_exclusive s p q :
  strings.HasPrefix s p = true ->
  strings.HasPrefix p q = false -> strings.HasPrefix q p = false ->
  strings.HasPrefix s q = false.
Proof.
  intros Hp Hpq Hqp. destruct (strings.HasPrefix s q) eqn:Hq; [|reflexivity].
  apply HasPrefix_StartsWith in Hp, Hq.
  destruct (StartsWith_both s p q Hp Hq) as [H|H];
    apply HasPrefix_StartsWith in H; congruence.
Qed.

Lemma HasPrefix_app s t p :
  strings.HasPrefix s p = true -> strings.HasPrefix (s ++ t) p = true.
Proof.
  rewrite !HasPrefix_StartsWith. intros [r ->]. exists (r ++ t).
  apply append_assoc.
Qed.

(** When [s] starts with [p], no test of [s] for a prefix that neither
    starts [p] nor is started by it succeeds. *)
Ltac other_prefixes s :=
  repeat match goal with
         | E : strings.HasPrefix s ?p = true
           |- context [strings.HasPrefix s ?q] =>
             rewrite (HasPrefix_exclusive s p q E eq_refl eq_refl)
         end.

Ltac by_prefix s p :=
  let E := fresh "E" in
  destruct (strings.HasPrefix s p) eqn:E;
  [other_prefixes s; repeat split; reflexivity|].

(** X1: the families overlap on [Paused] only.  A label is operational
    and printing at once exactly when it starts with [Paused]; a label
    that is offline is in no other family, and so for one that is in
    error and for one that is connecting. *)
Theorem families_overlap_on_paused_only (s : ConnectionState) :
  IsOperational s && IsPrinting s = strings.HasPrefix s "Paused" /\
  IsOffline s
    && (IsOperational s || IsPrinting s || IsError s || IsConnecting s) = false /\
  IsError s && (IsOperational s || IsPrinting s || IsConnecting s) = false /\
  IsConnecting s && (IsOperational s || IsPrinting s) = false.
Proof.
  unfold IsOperational, IsPrinting, IsOffline, IsError, IsConnecting.
  by_prefix s "Paused". by_prefix s "Operational". by_prefix s "Transfering".
  by_prefix s "Printing". by_prefix s "Sending". by_prefix s "Offline".
  by_prefix s "Closed". by_prefix s "Error". by_prefix s "Unknown".
  by_prefix s "Opening". by_prefix s "Detecting". by_prefix s "Connecting".
  repeat split; reflexivity.
Qed.

(** X2: what follows the prefix does not count: a label of a family
    stays in it whatever is appended. *)
Theorem longer_labels_stay_in_the_family (s t : ConnectionState) :
  (IsOperational s = true -> IsOperational (s ++ t) = true) /\
  (IsPrinting s = true -> IsPrinting (s ++ t) = true) /\
  (IsOffline s = true -> IsOffline (s ++ t) = true) /\
  (IsError s = true -> IsError (s ++ t) = true) /\
  (IsConnecting s = true -> IsConnecting (s ++ t) = true).
Proof.
  unfold IsOperational, IsPrinting, IsOffline, IsError, IsConnecting.
  repeat split; intros H;
    repeat (apply orb_true_iff in H; destruct H as [H|H]);
    rewrite (HasPrefix_app s t _ H), ?orb_true_r; reflexivity.
Qed.

Lemma longer_labels_stay_in_the_family_witness :
  IsPrinting ("Printing" ++ " from SD") = true.
Proof.
  exact (proj1 (proj2 (longer_labels_stay_in_the_family "Printing" " from SD"))
           eq_refl).
Defined.

(* ----------------------------------------------------------------- *)
(** ** The decoders read the map of an object *)

Lemma ordered_ext {A} (m1 : smap A) : forall m2,
  ordered m1 -> ordered m2 ->
  (forall k, mapaccess k m1 = mapaccess k m2) -> m1 = m2.
Proof.
  induction m1 as [|[k1 v1] m1 IH]; intros [|[k2 v2] m2] O1 O2 E.
  - reflexivity.
  - specialize (E k2). simpl in E. now rewrite String.eqb_refl in E.
  - specialize (E k1). simpl in E. now rewrite String.eqb_refl in E.
  - destruct O1 as [A1 O1], O2 as [A2 O2].
    destruct (k1 ?= k2)%string eqn:Ck.
    + apply String.compare_eq_iff in Ck. subst k2.
      pose proof (E k1) as E1. simpl in E1. rewrite String.eqb_refl in E1.
      injection E1 as ->. f_equal. apply IH; try assumption.
      intros k. specialize (E k). simpl in E.
      destruct (String.eqb_spec k k1) as [Hk|Hk]; [|exact E].
      rewrite Hk. now rewrite !mapaccess_above.
    + exfalso. specialize (E k1). simpl in E. rewrite String.eqb_refl in E.
      destruct (klt_eqb _ _ Ck) as [-> _] in E.
      rewrite mapaccess_above in E; [discriminate|].
      now apply (above_weaken k1 k2).
    + exfalso. apply compare_Gt_klt in Ck.
      specialize (E k2). simpl in E. rewrite String.eqb_refl in E.
      destruct (klt_eqb _ _ Ck) as [-> _] in E.
      rewrite mapaccess_above in E; [discriminate|].
      now apply (above_weaken k2 k1).
Qed.

Lemma lastValue_app k a b :
  lastValue k (a ++ b)%list =
  match lastValue k b with
  | Some y => Some y
  | None => lastValue k a
  end.
Proof.
  induction a as [|[k' x] a IH]; simpl.
  - now destruct (lastValue k b).
  - rewrite IH. destruct (lastValue k b); [reflexivity|].
    now destruct (lastValue k a).
Qed.

Lemma lastValue_NoDup k x ms :
  NoDup (map fst ms) -> (lastValue k ms = Some x <-> In (k, x) ms).
Proof.
  induction ms as [|[k' y] ms IH]; intros N; simpl.
  - split; [discriminate|tauto].
  - inversion N as [|? ? Hn N']; subst. specialize (IH N').
    destruct (lastValue k ms) as [z|] eqn:El.
    + split.
      * intros [= ->]. right. now apply IH.
      * intros [[= -> ->]|Hin].
        -- exfalso. apply Hn. apply lastValue_In. congruence.
        -- now apply IH.
    + destruct (String.eqb_spec k k') as [->|Hne].
      * split; [intros [= ->]; now left|].
        intros [[= ->]|Hin]; [reflexivity|].
        apply IH in Hin. discriminate.
      * split; [discriminate|].
        intros [[= -> ->]|Hin]; [congruence|]. apply IH in Hin. discriminate.
Qed.

Lemma lastValue_Permutation k ms ms' :
  Permutation ms ms' -> NoDup (map fst ms) ->
  lastValue k ms = lastValue k ms'.
Proof.
  intros P N.
  assert (N' : NoDup (map fst ms')).
  { apply (Permutation_NoDup (Permutation_map fst P) N). }
  destruct (lastValue k ms) as [x|] eqn:E.
  - symmetry. apply (lastValue_NoDup k x ms' N').
    apply (Permutation_in _ P). now apply (lastValue_NoDup k x ms N).
  - destruct (lastValue k ms') as [x|] eqn:E'; [|reflexivity].
    apply (lastValue_NoDup k x ms' N') in E'.
    apply (Permutation_in _ (Permutation_sym P)) in E'.
    apply (lastValue_NoDup k x ms N) in E'. congruence.
Qed.

Lemma assignAll_lastValue ms ms' :
  (forall k, option_map toAny (lastValue k ms)
             = option_map toAny (lastValue k ms')) ->
  assignAll ms [] = assignAll ms' [].
Proof.
  intros E. apply ordered_ext; try (apply ordered_assignAll; exact I).
  intros k. rewrite !mapaccess_assignAll. specialize (E k).
  destruct (lastValue k ms), (lastValue k ms'); simpl in *; congruence.
Qed.

Lemma forallb_Permutation {A} (f : A -> bool) l l' :
  Permutation l l' -> forallb f l = forallb f l'.
Proof.
  induction 1; simpl; try congruence.
  now rewrite !andb_assoc, (andb_comm (f y)).
Qed.

(** Both decoders read an object through the map it is decoded to. *)
Lemma decoders_read_the_map L C M ms ms' r h :
  assignAll ms [] = assignAll ms' [] ->
  forallb (fun e => inRange (snd e)) ms = forallb (fun e => inRange (snd e)) ms' ->
  TemperatureState_UnmarshalJSON L C M (Encoding (DObject ms)) r =
  TemperatureState_UnmarshalJSON L C M (Encoding (DObject ms')) r /\
  HistoricTemperatureData_UnmarshalJSON L C (Encoding (DObject ms)) h =
  HistoricTemperatureData_UnmarshalJSON L C (Encoding (DObject ms')) h.
Proof.
  intros Ea Er.
  unfold TemperatureState_UnmarshalJSON, HistoricTemperatureData_UnmarshalJSON.
  now rewrite !Unmarshal_map_object, Ea, Er.
Qed.

(** X3: the order of the members of an object with distinct keys and
    numbers in range does not count, for either decoder.  (Of numbers
    out of range the decoder reports the first of the text.) *)
Theorem member_order_is_irrelevant L C M ms ms' r h :
  Permutation ms ms' -> NoDup (map fst ms) -> inRange (DObject ms) = true ->
  TemperatureState_UnmarshalJSON L C M (Encoding (DObject ms)) r =
  TemperatureState_UnmarshalJSON L C M (Encoding (DObject ms')) r /\
  HistoricTemperatureData_UnmarshalJSON L C (Encoding (DObject ms)) h =
  HistoricTemperatureData_UnmarshalJSON L C (Encoding (DObject ms')) h.
Proof.
  intros P N _. apply decoders_read_the_map.
  - apply assignAll_lastValue. intros k.
    now rewrite (lastValue_Permutation k ms ms' P N).
  - now apply forallb_Permutation.
Qed.

Lemma member_order_is_irrelevant_witness :
  TemperatureState_UnmarshalJSON zoneCET convAMD64 savesAlways
    (Encoding (DObject [("tool0", readingOf 200 200 0);
                        ("history", DArray [entryAt 1610000000])]))
    zeroTemperatureState =
  TemperatureState_UnmarshalJSON zoneCET convAMD64 savesAlways
    (Encoding (DObject [("history", DArray [entryAt 1610000000]);
                        ("tool0", readingOf 200 200 0)]))
    zeroTemperatureState.
Proof.
  refine (proj1 (member_order_is_irrelevant zoneCET convAMD64 savesAlways _ _
                   zeroTemperatureState zeroHistoricTemperatureData _ _ _)).
  - apply perm_swap.
  - repeat constructor; simpl; intuition discriminate.
  - reflexivity.
Defined.

(** X4: of the members of one key only the last counts: a member in
    range whose key comes again later in the object can be left out. *)
Theorem overridden_members_do_not_count L C M ms1 k x ms2 r h :
  In k (map fst ms2) -> inRange x = true ->
  TemperatureState_UnmarshalJSON L C M
    (Encoding (DObject (ms1 ++ (k, x) :: ms2)%list)) r =
  TemperatureState_UnmarshalJSON L C M (Encoding (DObject (ms1 ++ ms2)%list)) r /\
  HistoricTemperatureData_UnmarshalJSON L C
    (Encoding (DObject (ms1 ++ (k, x) :: ms2)%list)) h =
  HistoricTemperatureData_UnmarshalJSON L C (Encoding (DObject (ms1 ++ ms2)%list)) h.
Proof.
  intros Hin Rx. apply decoders_read_the_map.
  - apply assignAll_lastValue. intros k'. rewrite !lastValue_app. simpl.
    destruct (lastValue k' ms2) as [y|] eqn:E; [reflexivity|].
    destruct (String.eqb_spec k' k) as [->|]; [|reflexivity].
    apply lastValue_In in Hin. congruence.
  - rewrite !forallb_app. simpl. now rewrite Rx.
Qed.

Lemma overridden_members_do_not_count_witness :
  TemperatureState_UnmarshalJSON zoneUTC convAMD64 savesAlways
    (Encoding (DObject [("tool0", DString "stale"); ("tool0", readingOf 200 200 0)]))
    zeroTemperatureState =
  TemperatureState_UnmarshalJSON zoneUTC convAMD64 savesAlways
    (Encoding (DObject [("tool0", readingOf 200 200 0)])) zeroTemperatureState.
Proof.
  refine (proj1 (overridden_members_do_not_count zoneUTC convAMD64 savesAlways []
                   "tool0" (DString "stale") [("tool0", readingOf 200 200 0)]
                   zeroTemperatureState zeroHistoricTemperatureData _ _)).
  - now left.
  - reflexivity.
Defined.

(** X5: two texts of the same value in range are decoded alike by both
    decoders: how a number is written does not count. *)
Theorem decoders_read_the_value L C M x y r h :
  sameValue x y ->
  TemperatureState_UnmarshalJSON L C M (Encoding x) r =
  TemperatureState_UnmarshalJSON L C M (Encoding y) r /\
  HistoricTemperatureData_UnmarshalJSON L C (Encoding x) h =
  HistoricTemperatureData_UnmarshalJSON L C (Encoding y) h.
Proof.
  intros S. split.
  - unfold TemperatureState_UnmarshalJSON.
    now rewrite (Unmarshal_map_sameValue x y S).
  - now apply HistoricTemperatureData_UnmarshalJSON_sameValue.
Qed.

Lemma decoders_read_the_value_witness :
  HistoricTemperatureData_UnmarshalJSON zoneUTC convAMD64
    (Encoding (DObject [("time", DNumber (strconv.Integer 1610000000))]))
    zeroHistoricTemperatureData =
  HistoricTemperatureData_UnmarshalJSON zoneUTC convAMD64
    (Encoding (DObject [("time", DNumber (strconv.Decimal
                                            (float64_of_Z 1610000000)))]))
    zeroHistoricTemperatureData.
Proof.
  refine (proj2 (decoders_read_the_value zoneUTC convAMD64 savesAlways _ _
                   zeroTemperatureState zeroHistoricTemperatureData _)).
  repeat split; reflexivity.
Defined.

(* ----------------------------------------------------------------- *)
(** ** Errors and panics of the two decoders *)

(** X6: a number out of the range of [float64] anywhere in an object,
    be it under a key the decoders do not read, makes both return the
    range error, before the type assertion on [time] is reached. *)
Theorem range_error_comes_first L C M ms r h :
  inRange (DObject ms) = false ->
  TemperatureState_UnmarshalJSON L C M (Encoding (DObject ms)) r
    = Returns (r, Some rangeError) /\
  HistoricTemperatureData_UnmarshalJSON L C (Encoding (DObject ms)) h
    = Returns (h, Some rangeError).
Proof.
  intros R. simpl in R.
  unfold TemperatureState_UnmarshalJSON, HistoricTemperatureData_UnmarshalJSON.
  now rewrite Unmarshal_map_object, R.
Qed.

Lemma range_error_comes_first_witness :
  HistoricTemperatureData_UnmarshalJSON zoneUTC convAMD64
    (Encoding (DObject [("tool0",
                         DObject [("note", DNumber (strconv.Integer (10 ^ 400)))])]))
    zeroHistoricTemperatureData
  = Returns (zeroHistoricTemperatureData, Some rangeError).
Proof.
  refine (proj2 (range_error_comes_first zoneUTC convAMD64 savesAlways _
                   zeroTemperatureState zeroHistoricTemperatureData _)).
  vm_compute. reflexivity.
Defined.

Lemma TemperatureState_UnmarshalJSON_receiver L C M b r r' :
  TemperatureState_UnmarshalJSON L C M b r' =
  match TemperatureState_UnmarshalJSON L C M b r with
  | Returns (i, None) => Returns (i, None)
  | Returns (_, Some e) => Returns (r', Some e)
  | Panics msg => Panics msg
  end.
Proof.
  unfold TemperatureState_UnmarshalJSON.
  destruct (Unmarshal_map b None) as [raw [e0|]| |]; try reflexivity.
  destruct (Unmarshal_temperatureState _ _ _ _ _) as [j [e1|]| |]; reflexivity.
Qed.

Lemma HistoricTemperatureData_UnmarshalJSON_receiver L C b h h' :
  HistoricTemperatureData_UnmarshalJSON L C b h' =
  match HistoricTemperatureData_UnmarshalJSON L C b h with
  | Returns (i, None) => Returns (i, None)
  | Returns (_, Some e) => Returns (h', Some e)
  | Panics msg => Panics msg
  end.
Proof.
  unfold HistoricTemperatureData_UnmarshalJSON.
  destruct (Unmarshal_map b None) as [raw [e0|]| |]; try reflexivity.
  destruct (HistoricTemperatureData_split L C raw) as [b'|]; [|reflexivity].
  destruct (Unmarshal_historicTemperatureData _ _ _) as [j [e1|]| |];
    reflexivity.
Qed.

(** X7: what the receiver held does not reach the result.  A call that
    succeeds gives the same value on any other receiver, so nothing of
    an earlier decoding is kept; one that returns an error returns the
    same error, and one that panics panics alike. *)
Theorem receiver_does_not_reach_the_result L C M b :
  (forall r r' i, TemperatureState_UnmarshalJSON L C M b r = Returns (i, None) ->
                  TemperatureState_UnmarshalJSON L C M b r' = Returns (i, None)) /\
  (forall r r' i e, TemperatureState_UnmarshalJSON L C M b r = Returns (i, Some e) ->
                    TemperatureState_UnmarshalJSON L C M b r' = Returns (r', Some e)) /\
  (forall r r' msg, TemperatureState_UnmarshalJSON L C M b r = Panics msg ->
                    TemperatureState_UnmarshalJSON L C M b r' = Panics msg) /\
  (forall h h' i, HistoricTemperatureData_UnmarshalJSON L C b h = Returns (i, None) ->
                  HistoricTemperatureData_UnmarshalJSON L C b h' = Returns (i, None)) /\
  (forall h h' i e,
     HistoricTemperatureData_UnmarshalJSON L C b h = Returns (i, Some e) ->
     HistoricTemperatureData_UnmarshalJSON L C b h' = Returns (h', Some e)) /\
  (forall h h' msg, HistoricTemperatureData_UnmarshalJSON L C b h = Panics msg ->
                    HistoricTemperatureData_UnmarshalJSON L C b h' = Panics msg).
Proof.
  repeat split; intros * H;
    first [ rewrite (TemperatureState_UnmarshalJSON_receiver L C M b r r')
          | rewrite (HistoricTemperatureData_UnmarshalJSON_receiver L C b h h') ];
    now rewrite H.
Qed.

Lemma receiver_does_not_reach_the_result_witness :
  exists i,
    TemperatureState_UnmarshalJSON zoneUTC convAMD64 savesAlways
      (Encoding (DObject [("tool0", readingOf 200 200 0)]))
      {| Current := Some [("bed", zeroTemperatureData)]; History := Some [] |}
    = Returns (i, None) /\ Current i <> None.
Proof.
  eexists. split.
  - apply (proj1 (receiver_does_not_reach_the_result zoneUTC convAMD64 savesAlways _)
             zeroTemperatureState).
    vm_compute. reflexivity.
  - discriminate.
Defined.

(** X8: the entry decoder on a text that is no object: a type error for
    a boolean, a number, a string and an array, and a panic for [null],
    which leaves the map nil and so nothing under [time]. *)
Theorem entry_decoder_on_other_texts L C d h :
  match d with
  | DObject _ => True
  | DNull =>
      HistoricTemperatureData_UnmarshalJSON L C (Encoding d) h
      = Panics "interface conversion: interface {} is not float64"
  | _ =>
      HistoricTemperatureData_UnmarshalJSON L C (Encoding d) h
      = Returns (h, Some (UnmarshalTypeError (kindOf d) "map[string]interface {}"))
  end /\
  HistoricTemperatureData_UnmarshalJSON L C Malformed h
  = Returns (h, Some (SyntaxError "unexpected end of JSON input")).
Proof. destruct d; split; trivial. Qed.

Lemma numeric_time_returns L C ms lit h :
  lastValue "time" ms = Some (DNumber lit) ->
  exists res,
    HistoricTemperatureData_UnmarshalJSON L C (Encoding (DObject ms)) h
    = Returns res.
Proof.
  intros El. unfold HistoricTemperatureData_UnmarshalJSON.
  rewrite Unmarshal_map_object.
  destruct (forallb (fun e => inRange (snd e)) ms) eqn:R; [|eexists; reflexivity].
  pose proof (lastValue_inRange _ _ _ R El) as Rf. simpl in Rf.
  unfold HistoricTemperatureData_split.
  rewrite mapaccess_assignAll, El. unfold toAny. simpl valueInterface.
  rewrite Rf. cbn [fst].
  destruct (Unmarshal_historicTemperatureData _ _ _) as [i [e|]| |] eqn:U;
    try (eexists; reflexivity).
  now apply Unmarshal_historicTemperatureData_returns in U.
Qed.

(** X9: on an object in range the entry decoder panics exactly when the
    last member of key [time] is no number, or there is none. *)
Theorem entry_panics_exactly_without_numeric_time L C ms h :
  inRange (DObject ms) = true ->
  ((exists msg,
      HistoricTemperatureData_UnmarshalJSON L C (Encoding (DObject ms)) h
      = Panics msg) <->
   forall lit, lastValue "time" ms <> Some (DNumber lit)).
Proof.
  intros R. split.
  - intros [msg Hp] lit El.
    destruct (numeric_time_returns L C ms lit h El) as [res Hr]. congruence.
  - intros Hn. apply entry_without_numeric_time_panics; [exact R|].
    destruct (lastValue "time" ms) as [[]|]; trivial. now apply (Hn n).
Qed.

Lemma entry_panics_exactly_without_numeric_time_witness :
  exists msg,
    HistoricTemperatureData_UnmarshalJSON zoneUTC convAMD64
      (Encoding (DObject [("Time", DNumber (strconv.Integer 1610000000));
                          ("tool0", readingOf 199 200 0)]))
      zeroHistoricTemperatureData
    = Panics msg.
Proof.
  apply (proj2 (entry_panics_exactly_without_numeric_time zoneUTC convAMD64
                  [("Time", DNumber (strconv.Integer 1610000000));
                   ("tool0", readingOf 199 200 0)]
                  zeroHistoricTemperatureData eq_refl)).
  intros lit E. discriminate E.
Defined.

(* ----------------------------------------------------------------- *)
(** ** The history of a temperature object *)

Lemma toAny_historyOf ms :
  valueAt "history" (assignAll ms []) = toAny (historyOf ms).
Proof.
  rewrite valueAt_assignAll. unfold historyOf.
  now destruct (lastValue "history" ms).
Qed.

Lemma inRange_historyOf ms :
  forallb (fun e => inRange (snd e)) ms = true -> inRange (historyOf ms) = true.
Proof.
  intros R. unfold historyOf.
  destruct (lastValue "history" ms) as [x|] eqn:E; [|reflexivity].
  exact (lastValue_inRange _ _ _ R E).
Qed.

Lemma value_History_sameValue L C M x y saved :
  sameValue x y ->
  value_History L C M x None saved = value_History L C M y None saved.
Proof.
  intros [E [Rx Ry]].
  assert (D : denotes x (toAny y)) by now split.
  destruct y as [| b | n | s | arr | ms].
  - now rewrite (denotes_inv _ _ D).
  - now rewrite (denotes_inv _ _ D).
  - unfold toAny in D. simpl in D, Ry. rewrite Ry in D.
    destruct (denotes_inv _ _ D) as [n' [-> _]]. reflexivity.
  - now rewrite (denotes_inv _ _ D).
  - rewrite toAny_array in D. destruct (denotes_inv _ _ D) as [ds [-> [Ed Rd]]].
    simpl in Ry. cbn [value_History].
    now rewrite (array_HistoricTemperatureData_sameValue L C M ds arr
                   (sameValue_elements ds arr Ed Rd Ry)).
  - rewrite toAny_object in D. destruct (denotes_inv _ _ D) as [ms' [-> _]].
    reflexivity.
Qed.

(** The temperature decoder on an object in range, by the tools as they
    are passed on and the history member as it stands in the text. *)
Lemma TemperatureState_UnmarshalJSON_history L C M ms r :
  forallb (fun e => inRange (snd e)) ms = true ->
  exists cms,
    encodeMembers L (mapdelete "history" (assignAll ms [])) = Some cms /\
    Forall2 memberDenotes cms (mapdelete "history" (assignAll ms [])) /\
    TemperatureState_UnmarshalJSON L C M (Encoding (DObject ms)) r =
    match value_History L C M (historyOf ms) None (readErrors cms None) with
    | Going l None =>
        Returns ({| Current := Some (readAll cms []); History := l |}, None)
    | Going _ (Some e) => Returns (r, Some e)
    | Stopped e => Returns (r, Some e)
    | Panicked msg => Panics msg
    end.
Proof.
  intros R.
  destruct (TemperatureState_UnmarshalJSON_object L C M ms r R)
    as [cms [hd [Ec [Dc [Eh [Dh ->]]]]]].
  exists cms. split; [exact Ec|]. split; [exact Dc|].
  rewrite (value_History_sameValue L C M hd (historyOf ms)); [reflexivity|].
  rewrite toAny_historyOf in Dh. destruct Dh as [Dh1 Dh2].
  split; [exact Dh1|]. split; [exact Dh2|]. now apply inRange_historyOf.
Qed.


Lemma value_History_no_panic L C M x saved msg :
  (forall arr, x = DArray arr -> Forall (entryReturns L C) arr) ->
  value_History L C M x None saved <> Panicked msg.
Proof.
  intros H. destruct x; simpl; try discriminate.
  destruct (array_HistoricTemperatureData_returns L C M elems (H _ eq_refl) saved)
    as [[l [s [-> _]]]|[e ->]]; discriminate.
Qed.

(** The two ways of the package with an error of the entry decoder, on a
    history whose second element is a number and whose third is an
    object without [time], beside a tool that is no reading.  Where the
    error ends the decoding it is the one returned; where it is saved,
    the decoding goes on to the third element, which panics, and
    without that element the error saved first, the tool's, is the one
    returned. *)
Example entry_error_in_both_ways :
  TemperatureState_UnmarshalJSON zoneUTC convAMD64 endsAlways
    (Encoding (DObject [("tool0", DBool true);
                        ("history", DArray [DNull; DNumber (strconv.Integer 7);
                                            DObject []])]))
    zeroTemperatureState
  = Returns (zeroTemperatureState,
             Some (UnmarshalTypeError "number" "map[string]interface {}")) /\
  TemperatureState_UnmarshalJSON zoneUTC convAMD64 savesAlways
    (Encoding (DObject [("tool0", DBool true);
                        ("history", DArray [DNull; DNumber (strconv.Integer 7);
                                            DObject []])]))
    zeroTemperatureState
  = Panics "interface conversion: interface {} is not float64" /\
  TemperatureState_UnmarshalJSON zoneUTC convAMD64 savesAlways
    (Encoding (DObject [("tool0", DBool true);
                        ("history", DArray [DNull; DNumber (strconv.Integer 7)])]))
    zeroTemperatureState
  = Returns (zeroTemperatureState,
             Some (UnmarshalTypeError "bool" "octoprint.TemperatureData")).
Proof. repeat split; vm_compute; reflexivity. Qed.



(** An error saved before the array or in it is not lost. *)
Lemma array_HistoricTemperatureData_saved L C M elems : forall old saved l,
  array_HistoricTemperatureData L C M elems old saved = Going l None ->
  saved = None.
Proof.
  induction elems as [|x elems IH]; intros old saved l H.
  - now injection H as _ <-.
  - assert (G : forall (e : option HistoricTemperatureData) sv,
      match array_HistoricTemperatureData L C M elems (tl old) sv with
      | Going l saved => Going (e :: l) saved
      | Stopped err => Stopped err
      | Panicked msg => Panicked msg
      end = Going l None -> sv = None).
    { intros e sv. destruct (array_HistoricTemperatureData L C M elems (tl old) sv)
        as [l' s'| |] eqn:E; try discriminate.
      intros [= _ ->]. exact (IH _ _ _ E). }
    destruct x; cbn [array_HistoricTemperatureData] in H;
      try (exact (G _ _ H));
      destruct (HistoricTemperatureData_UnmarshalJSON _ _ _ _) as [[h' [err|]]|];
      try discriminate; try (exact (G _ _ H));
      (destruct (M _); [discriminate H|]);
      apply G in H; destruct saved; discriminate H.
Qed.

Lemma value_History_saved L C M x v saved l :
  value_History L C M x v saved = Going l None -> saved = None.
Proof.
  destruct x as [| b | n | s | elems | ms]; simpl;
    try (intros [= _ ->]; reflexivity);
    try (destruct saved; simpl; intros [= _ E]; discriminate E).
  destruct (array_HistoricTemperatureData L C M elems _ saved) as [l' s'| |] eqn:E;
    try discriminate.
  intros [= _ ->]. exact (array_HistoricTemperatureData_saved _ _ _ _ _ _ _ E).
Qed.

(** An array that is decoded without an error. *)
Lemma array_HistoricTemperatureData_going L C M arr : forall saved l,
  array_HistoricTemperatureData L C M arr [] saved = Going l None ->
  Forall (entryDecodes L C) arr /\ l = map (decodeEntry L C) arr.
Proof.
  induction arr as [|x arr IH]; intros saved l H.
  - injection H as <- _. now split.
  - assert (G : forall e sv,
      match array_HistoricTemperatureData L C M arr [] sv with
      | Going l saved => Going (e :: l) saved
      | Stopped err => Stopped err
      | Panicked msg => Panicked msg
      end = Going l None ->
      sv = None /\ Forall (entryDecodes L C) arr /\
      l = e :: map (decodeEntry L C) arr).
    { intros e sv. destruct (array_HistoricTemperatureData L C M arr [] sv)
        as [l' s'| |] eqn:E; try discriminate.
      intros [= <- ->]. destruct (IH _ _ E) as [F ->].
      split; [|now split].
      exact (array_HistoricTemperatureData_saved _ _ _ _ _ _ _ E). }
    destruct x as [| b | n | str | elems | ms];
      cbn [array_HistoricTemperatureData hd tl] in H;
      try (destruct (G _ _ H) as [_ [F ->]];
           split; [constructor; [now left|exact F]|reflexivity]);
      destruct (HistoricTemperatureData_UnmarshalJSON L C _ _)
        as [[h' [err|]]|] eqn:Hh; try discriminate H;
      try (destruct (M _); [discriminate H|];
           destruct (G _ _ H) as [Hs _]; destruct saved; discriminate Hs);
      destruct (G _ _ H) as [_ [F ->]];
      (split; [constructor; [right; now exists h'|exact F]
              |cbn [map decodeEntry]; now rewrite Hh]).
Qed.

(** An error of the temperature decoder comes with the receiver. *)
Lemma TemperatureState_UnmarshalJSON_error L C M b r r' e :
  TemperatureState_UnmarshalJSON L C M b r = Returns (r', Some e) -> r' = r.
Proof.
  unfold TemperatureState_UnmarshalJSON.
  destruct (Unmarshal_map b None) as [raw [e0|]| |];
    try (intros [= <- _]; reflexivity); try discriminate.
  destruct (Unmarshal_temperatureState _ _ _ _ _) as [i [e1|]| |];
    try (intros [= <- _]; reflexivity); discriminate.
Qed.

(** X11: an error of the entry decoder is not lost.  When the entry
    decoder returns an error on an element of the history, the
    temperature decoder does not succeed: if it returns, it returns an
    error and the receiver as it was; and it returns when no element of
    the history makes the entry decoder panic. *)
Theorem history_error_fails_the_decoder L C M ms arr i e h' err r :
  lastValue "history" ms = Some (DArray arr) ->
  nth_error arr i = Some e -> e <> DNull ->
  HistoricTemperatureData_UnmarshalJSON L C (Encoding e)
    zeroHistoricTemperatureData = Returns (h', Some err) ->
  (forall res,
     TemperatureState_UnmarshalJSON L C M (Encoding (DObject ms)) r = Returns res ->
     exists e', res = (r, Some e')) /\
  (Forall (entryReturns L C) arr ->
   exists e',
     TemperatureState_UnmarshalJSON L C M (Encoding (DObject ms)) r
       = Returns (r, Some e')).
Proof.
  intros El Hn He Hp.
  assert (N : forall res,
    TemperatureState_UnmarshalJSON L C M (Encoding (DObject ms)) r = Returns res ->
    exists e', res = (r, Some e')).
  { intros [i0 [e'|]] H.
    - exists e'. now rewrite (TemperatureState_UnmarshalJSON_error _ _ _ _ _ _ _ H).
    - exfalso. destruct (forallb (fun e => inRange (snd e)) ms) eqn:R.
      2:{ unfold TemperatureState_UnmarshalJSON in H.
          rewrite Unmarshal_map_object, R in H. discriminate H. }
      destruct (TemperatureState_UnmarshalJSON_history L C M ms r R)
        as [cms [_ [_ E]]].
      rewrite E in H. unfold historyOf in H. rewrite El in H.
      cbn [value_History] in H.
      destruct (array_HistoricTemperatureData L C M arr [] _)
        as [l [e0|]| |] eqn:A; try discriminate H.
      destruct (array_HistoricTemperatureData_going L C M arr _ _ A) as [F _].
      rewrite Forall_forall in F.
      destruct (F e (nth_error_In _ _ Hn)) as [->|[h Hh]]; [now apply He|].
      rewrite Hp in Hh. discriminate Hh. }
  split; [exact N|]. intros Hr.
  assert (G : exists res,
    TemperatureState_UnmarshalJSON L C M (Encoding (DObject ms)) r = Returns res).
  { destruct (forallb (fun e => inRange (snd e)) ms) eqn:R.
    2:{ eexists. unfold TemperatureState_UnmarshalJSON.
        now rewrite Unmarshal_map_object, R. }
    destruct (TemperatureState_UnmarshalJSON_history L C M ms r R)
      as [cms [_ [_ ->]]].
    destruct (value_History L C M (historyOf ms) None (readErrors cms None))
      as [l [e0|]| |] eqn:V; try (eexists; reflexivity).
    exfalso. revert V. apply value_History_no_panic.
    intros arr' E. unfold historyOf in E. rewrite El in E.
    now injection E as <-. }
  destruct G as [res G]. destruct (N res G) as [e' ->]. now exists e'.
Qed.

Lemma history_error_fails_the_decoder_witness :
  (forall res,
     TemperatureState_UnmarshalJSON zoneCET convAMD64 savesAlways
       (Encoding (DObject [("tool0", readingOf 200 200 0);
                           ("history", DArray [DNull; entryAt 1000000000000;
                                               entryAt 1610000000])]))
       zeroTemperatureState = Returns res ->
     exists e', res = (zeroTemperatureState, Some e')) /\
  (exists e',
     TemperatureState_UnmarshalJSON zoneCET convAMD64 savesAlways
       (Encoding (DObject [("tool0", readingOf 200 200 0);
                           ("history", DArray [DNull; entryAt 1000000000000;
                                               entryAt 1610000000])]))
       zeroTemperatureState = Returns (zeroTemperatureState, Some e')).
Proof.
  destruct (history_error_fails_the_decoder zoneCET convAMD64 savesAlways
              [("tool0", readingOf 200 200 0);
               ("history", DArray [DNull; entryAt 1000000000000;
                                   entryAt 1610000000])]
              [DNull; entryAt 1000000000000; entryAt 1610000000]
              1%nat (entryAt 1000000000000) zeroHistoricTemperatureData
              (SyntaxError "unexpected end of JSON input")
              zeroTemperatureState) as [N G].
  - reflexivity.
  - reflexivity.
  - discriminate.
  - vm_compute. reflexivity.
  - split; [exact N|]. apply G.
    constructor; [now left|].
    constructor; [right; eexists; vm_compute; reflexivity|].
    constructor; [right; eexists; vm_compute; reflexivity|constructor].
Defined.

(** X12: the temperature decoder returns, with or without an error, on
    every object whose history is no array, or is an array whose
    elements that are objects have a number under [time]. *)
Theorem temperature_decoder_returns L C M ms r :
  (forall arr, lastValue "history" ms = Some (DArray arr) ->
               Forall hasNumericTime arr) ->
  exists res,
    TemperatureState_UnmarshalJSON L C M (Encoding (DObject ms)) r = Returns res.
Proof.
  intros Hh.
  destruct (forallb (fun e => inRange (snd e)) ms) eqn:R.
  2:{ eexists. unfold TemperatureState_UnmarshalJSON.
      now rewrite Unmarshal_map_object, R. }
  destruct (TemperatureState_UnmarshalJSON_history L C M ms r R)
    as [cms [_ [_ ->]]].
  destruct (value_History L C M (historyOf ms) None (readErrors cms None))
    as [l [e|]| |] eqn:V; try (eexists; reflexivity).
  exfalso. revert V. apply value_History_no_panic.
  intros arr E. apply (Forall_impl _ (hasNumericTime_returns L C)).
  apply Hh. unfold historyOf in E.
  destruct (lastValue "history" ms); [congruence|discriminate].
Qed.

Lemma temperature_decoder_returns_witness :
  exists res,
    TemperatureState_UnmarshalJSON zoneUTC convAMD64 savesAlways
      (Encoding (DObject [("tool0", DArray []);
                          ("history", DArray [entryAt 1000000000000; DBool true])]))
      zeroTemperatureState = Returns res.
Proof.
  apply (temperature_decoder_returns zoneUTC convAMD64 savesAlways
           [("tool0", DArray []);
            ("history", DArray [entryAt 1000000000000; DBool true])]).
  intros arr [= <-]. repeat constructor. now exists (strconv.Integer 1000000000000).
Defined.

(** X13: a history that is neither an array nor [null] is an error; it is
    the type error of the history when every number of the object is
    within the range of [float64] and the tools have the shape of a
    reading. *)
Theorem history_of_another_kind_is_an_error L C M ms x r :
  lastValue "history" ms = Some x ->
  x <> DNull -> (forall arr, x <> DArray arr) ->
  exists e,
    TemperatureState_UnmarshalJSON L C M (Encoding (DObject ms)) r
      = Returns (r, Some e) /\
    (inRange (DObject ms) = true ->
     (forall k y, k <> "history"%string -> lastValue k ms = Some y ->
                  readingShape (toAny y) = true) ->
     e = UnmarshalTypeError (kindOf x) "[]*octoprint.HistoricTemperatureData").
Proof.
  intros El Hn Ha. simpl.
  destruct (forallb (fun e => inRange (snd e)) ms) eqn:R.
  2:{ exists rangeError. split; [|discriminate].
      unfold TemperatureState_UnmarshalJSON.
      now rewrite Unmarshal_map_object, R. }
  destruct (TemperatureState_UnmarshalJSON_history L C M ms r R)
    as [cms [Ec [Dc ->]]].
  unfold historyOf. rewrite El.
  destruct (canonical_assignAll ms R) as [Ho Hc].
  assert (V : value_History L C M x None (readErrors cms None) =
              Going None (saveError
                (UnmarshalTypeError (kindOf x) "[]*octoprint.HistoricTemperatureData")
                (readErrors cms None))).
  { destruct x; try reflexivity; [contradiction|now destruct (Ha elems)]. }
  rewrite V.
  destruct (readErrors cms None) as [e0|] eqn:Hs; cbn [saveError].
  - exists e0. split; [reflexivity|]. intros _ Htools. exfalso.
    assert (G : readErrors cms None = None); [|congruence].
    apply (readErrors_encodeMembers L _ cms
             (ordered_mapdelete _ _ Ho) (Forall_mapdelete _ _ _ Hc) Ec).
    intros k v E.
    assert (Hk : k <> "history"%string).
    { intros ->. now rewrite mapaccess_mapdelete_same in E. }
    rewrite mapaccess_mapdelete_other in E by congruence.
    rewrite mapaccess_assignAll in E.
    destruct (lastValue k ms) as [y|] eqn:Ek; [|discriminate].
    injection E as <-. exact (Htools k y Hk Ek).
  - eexists. split; reflexivity.
Qed.

Lemma history_of_another_kind_is_an_error_witness :
  exists e,
    TemperatureState_UnmarshalJSON zoneUTC convAMD64 savesAlways
      (Encoding (DObject [("tool0", readingOf 200 200 0);
                          ("history", entryAt 1610000000)]))
      zeroTemperatureState
      = Returns (zeroTemperatureState, Some e) /\
    e = UnmarshalTypeError "object" "[]*octoprint.HistoricTemperatureData".
Proof.
  destruct (history_of_another_kind_is_an_error zoneUTC convAMD64 savesAlways
              [("tool0", readingOf 200 200 0); ("history", entryAt 1610000000)]
              (entryAt 1610000000) zeroTemperatureState)
    as [e [E1 E2]]; try reflexivity; try discriminate.
  exists e. split; [exact E1|]. apply E2; [reflexivity|].
  intros k y Hk E. cbn [lastValue] in E.
  repeat match type of E with
         | context [(?a =? ?b)%string] => destruct (String.eqb_spec a b)
         end;
    try discriminate E; try congruence.
  injection E as <-. reflexivity.
Defined.

(* ----------------------------------------------------------------- *)
(** ** A history of [null] *)

Lemma lastValue_without_same k ms : lastValue k (without k ms) = None.
Proof.
  induction ms as [|[k' x] ms IH]; [reflexivity|].
  unfold without in *. simpl.
  destruct (String.eqb_spec k' k) as [->|Hne]; simpl; [exact IH|].
  rewrite IH. destruct (String.eqb_spec k k'); [congruence|reflexivity].
Qed.

Lemma lastValue_without_other k k0 ms :
  k <> k0 -> lastValue k (without k0 ms) = lastValue k ms.
Proof.
  intros Hk. induction ms as [|[k' x] ms IH]; [reflexivity|].
  unfold without in *. simpl.
  destruct (String.eqb_spec k' k0) as [->|Hne]; simpl; rewrite IH.
  - destruct (String.eqb_spec k k0); [congruence|].
    now destruct (lastValue k ms).
  - reflexivity.
Qed.

Lemma inRange_without k ms :
  forallb (fun e => inRange (snd e)) ms = true ->
  forallb (fun e => inRange (snd e)) (without k ms) = true.
Proof.
  rewrite !forallb_forall. intros H e He. apply H.
  unfold without in He. now apply filter_In in He.
Qed.

Lemma tools_without_history ms :
  mapdelete "history" (assignAll (without "history" ms) []) =
  mapdelete "history" (assignAll ms []).
Proof.
  apply ordered_ext;
    try (apply ordered_mapdelete, ordered_assignAll; exact I).
  intros k. destruct (String.eqb_spec k "history") as [->|Hk].
  - now rewrite !mapaccess_mapdelete_same.
  - rewrite !mapaccess_mapdelete_other by congruence.
    rewrite !mapaccess_assignAll. now rewrite lastValue_without_other.
Qed.

(** X14: a history of [null] is no history: on an object whose numbers
    are all within the range of [float64], those of overridden members
    too, and whose last [history] member is [null], the temperature
    decoder does what it does once the members of key [history] are
    taken out. *)
Theorem null_history_is_no_history L C M ms r :
  inRange (DObject ms) = true ->
  lastValue "history" ms = Some DNull ->
  TemperatureState_UnmarshalJSON L C M (Encoding (DObject ms)) r =
  TemperatureState_UnmarshalJSON L C M
    (Encoding (DObject (without "history" ms))) r.
Proof.
  intros R El. simpl in R.
  destruct (TemperatureState_UnmarshalJSON_history L C M ms r R)
    as [cms [Ec [_ ->]]].
  destruct (TemperatureState_UnmarshalJSON_history L C M (without "history" ms) r
              (inRange_without "history" ms R)) as [cms' [Ec' [_ ->]]].
  rewrite tools_without_history, Ec in Ec'. injection Ec' as <-.
  unfold historyOf. now rewrite El, lastValue_without_same.
Qed.

Lemma null_history_is_no_history_witness :
  TemperatureState_UnmarshalJSON zoneUTC convAMD64 savesAlways
    (Encoding (DObject [("history", DArray [DObject []]);
                        ("tool0", readingOf 200 200 0); ("history", DNull)]))
    zeroTemperatureState =
  TemperatureState_UnmarshalJSON zoneUTC convAMD64 savesAlways
    (Encoding (DObject (without "history"
                          [("history", DArray [DObject []]);
                           ("tool0", readingOf 200 200 0); ("history", DNull)])))
    zeroTemperatureState.
Proof.
  apply null_history_is_no_history; reflexivity.
Defined.

(* ----------------------------------------------------------------- *)
(** ** The readings of the tools *)

Lemma indexWhere_Some {A} (p : A -> bool) l : forall i,
  indexWhere p l = Some i -> exists x, nth_error l i = Some x /\ p x = true.
Proof.
  induction l as [|a l IH]; intros i H; [discriminate|]. simpl in H.
  destruct (p a) eqn:Pa.
  - injection H as <-. now exists a.
  - destruct (indexWhere p l) as [j|]; [|discriminate].
    injection H as <-. exact (IH j eq_refl).
Qed.

Lemma fieldIndex_fold names k i :
  fieldIndex names k = Some i ->
  exists n, nth_error names i = Some n /\ foldName n = foldName k.
Proof.
  unfold fieldIndex. intros H.
  destruct (indexWhere (String.eqb k) names) as [j|] eqn:E.
  - injection H as <-. destruct (indexWhere_Some _ _ _ E) as [n [Hn Hp]].
    exists n. split; [exact Hn|]. apply String.eqb_eq in Hp. now subst.
  - destruct (indexWhere_Some _ _ _ H) as [n [Hn Hp]].
    exists n. split; [exact Hn|]. now apply String.eqb_eq in Hp.
Qed.

Lemma same_field_same_fold names k k' i :
  fieldIndex names k = Some i -> fieldIndex names k' = Some i ->
  foldName k = foldName k'.
Proof.
  intros H H'.
  destruct (fieldIndex_fold _ _ _ H) as [n [Hn Hf]].
  destruct (fieldIndex_fold _ _ _ H') as [n' [Hn' Hf']]. congruence.
Qed.

Lemma memberFor_In i xs x :
  memberFor i xs = Some x ->
  exists k, In (k, x) xs /\
            fieldIndex ["actual"; "target"; "offset"]%string k = Some i.
Proof.
  induction xs as [|[k y] xs IH]; [discriminate|]. cbn [memberFor].
  destruct (fieldIndex _ k) as [j|] eqn:F.
  - destruct (Nat.eqb_spec j i) as [->|Hne].
    + intros [= ->]. exists k. split; [now left|exact F].
    + intros H. destruct (IH H) as [k' [Hin Hf]]. exists k'. split; [now right|exact Hf].
  - intros H. destruct (IH H) as [k' [Hin Hf]]. exists k'. split; [now right|exact Hf].
Qed.

Lemma In_memberFor i xs k x :
  distinctFolded xs -> In (k, x) xs ->
  fieldIndex ["actual"; "target"; "offset"]%string k = Some i ->
  memberFor i xs = Some x.
Proof.
  unfold distinctFolded.
  induction xs as [|[k0 y] xs IH]; intros N Hin F; [contradiction|].
  simpl in N. inversion N as [|? ? Hn N']; subst. cbn [memberFor].
  destruct Hin as [[= -> ->]|Hin].
  - now rewrite F, Nat.eqb_refl.
  - destruct (fieldIndex _ k0) as [j|] eqn:F0; [|now apply IH].
    destruct (Nat.eqb_spec j i) as [->|Hne]; [|now apply IH].
    exfalso. apply Hn. rewrite (same_field_same_fold _ _ _ _ F0 F).
    now apply (in_map (fun e => foldName (fst e)) xs (k, x)).
Qed.

Lemma memberFor_None i xs :
  (forall k x, In (k, x) xs ->
     fieldIndex ["actual"; "target"; "offset"]%string k <> Some i) ->
  memberFor i xs = None.
Proof.
  intros H. destruct (memberFor i xs) as [x|] eqn:E; [|reflexivity].
  destruct (memberFor_In _ _ _ E) as [k [Hin F]]. now destruct (H k x Hin).
Qed.

Lemma value_float64_fst x w saved :
  fst (value_float64 x w saved) = fst (value_float64 x w None).
Proof. now rewrite value_float64_keep. Qed.

(** Field by field, what an object with keys distinct under folding
    leaves in a [TemperatureData]. *)
Lemma object_TemperatureData_fields ys :
  distinctFolded ys -> forall v saved,
  fst (object_TemperatureData ys v saved) =
  {| Actual := match memberFor 0 ys with
               | Some y => fst (value_float64 y (Actual v) None)
               | None => Actual v
               end;
     Target := match memberFor 1 ys with
               | Some y => fst (value_float64 y (Target v) None)
               | None => Target v
               end;
     Offset := match memberFor 2 ys with
               | Some y => fst (value_float64 y (Offset v) None)
               | None => Offset v
               end |}.
Proof.
  unfold distinctFolded.
  induction ys as [|[k y] ys IH]; intros N v saved; [now destruct v|].
  simpl in N. inversion N as [|? ? Hn N']; subst. specialize (IH N').
  assert (Hrest : forall i,
    fieldIndex ["actual"; "target"; "offset"]%string k = Some i ->
    memberFor i ys = None).
  { intros i F. apply memberFor_None. intros k' x Hin F'. apply Hn.
    rewrite (same_field_same_fold _ _ _ _ F F').
    now apply (in_map (fun e => foldName (fst e)) ys (k', x)). }
  cbn [object_TemperatureData memberFor].
  destruct (fieldIndex _ k) as [j|] eqn:F; [|apply IH].
  pose proof (Hrest j eq_refl) as Hj.
  destruct (fieldIndex_fold _ _ _ F) as [n [Hnth _]].
  destruct j as [|[|[|j]]]; cbn [Nat.eqb];
    [ | | |destruct j; discriminate Hnth].
  - destruct (value_float64 y (Actual v) saved) as [f s] eqn:E.
    rewrite IH, Hj. cbn [Actual Target Offset].
    now rewrite <- (value_float64_fst y (Actual v) saved), E.
  - destruct (value_float64 y (Target v) saved) as [f s] eqn:E.
    rewrite IH, Hj. cbn [Actual Target Offset].
    now rewrite <- (value_float64_fst y (Target v) saved), E.
  - destruct (value_float64 y (Offset v) saved) as [f s] eqn:E.
    rewrite IH, Hj. cbn [Actual Target Offset].
    now rewrite <- (value_float64_fst y (Offset v) saved), E.
Qed.

Lemma value_float64_numberOr0 y :
  inRange y = true ->
  fst (value_float64 y (S754_zero false) None) = numberOr0 (Some y).
Proof.
  intros R. destruct y; try reflexivity. simpl in *. now rewrite R.
Qed.

Lemma inRange_In (ms : list (string * doc)) k x :
  forallb (fun e => inRange (snd e)) ms = true -> In (k, x) ms ->
  inRange x = true.
Proof.
  intros R Hin. rewrite forallb_forall in R. exact (R (k, x) Hin).
Qed.

Lemma reading_spelled ys :
  distinctFolded ys -> inRange (DObject ys) = true ->
  reading (DObject ys) = spelled ys.
Proof.
  intros N R. simpl in R. unfold reading, spelled.
  cbn [value_TemperatureData]. rewrite (object_TemperatureData_fields ys N).
  cbn [zeroTemperatureData Actual Target Offset].
  assert (G : forall i,
    match memberFor i ys with
    | Some y => fst (value_float64 y (S754_zero false) None)
    | None => S754_zero false
    end = numberOr0 (memberFor i ys)).
  { intros i. destruct (memberFor i ys) as [y|] eqn:E; [|reflexivity].
    destruct (memberFor_In _ _ _ E) as [k [Hin _]].
    apply value_float64_numberOr0. exact (inRange_In _ _ _ R Hin). }
  now rewrite !G.
Qed.

Lemma numberOr0_sameValue x y :
  sameValue x y -> numberOr0 (Some x) = numberOr0 (Some y).
Proof.
  intros [E [Rx Ry]].
  assert (D : denotes x (toAny y)) by now split.
  destruct y as [| b | n | s | arr | ms].
  - now rewrite (denotes_inv _ _ D).
  - now rewrite (denotes_inv _ _ D).
  - unfold toAny in D. simpl in D, Ry. rewrite Ry in D.
    destruct (denotes_inv _ _ D) as [n' [-> Hn]]. exact Hn.
  - now rewrite (denotes_inv _ _ D).
  - rewrite toAny_array in D. destruct (denotes_inv _ _ D) as [ds [-> _]].
    reflexivity.
  - rewrite toAny_object in D. destruct (denotes_inv _ _ D) as [ms' [-> _]].
    reflexivity.
Qed.

Lemma NoDup_map_eq {A B} (f : A -> B) l a b :
  NoDup (map f l) -> In a l -> In b l -> f a = f b -> a = b.
Proof.
  induction l as [|c l IH]; intros N Ha Hb E; [contradiction|].
  simpl in N. inversion N as [|? ? Hn N']; subst.
  destruct Ha as [->|Ha], Hb as [->|Hb]; try reflexivity.
  - exfalso. apply Hn. rewrite E. now apply in_map.
  - exfalso. apply Hn. rewrite <- E. now apply in_map.
  - now apply IH.
Qed.

Lemma NoDup_map_incl {A B} (f : A -> B) l l' :
  NoDup l -> incl l l' -> NoDup (map f l') -> NoDup (map f l).
Proof.
  intros N I N'. induction l as [|a l IH]; [constructor|].
  inversion N as [|? ? Hn Nl]; subst. simpl. constructor.
  - intros Hin. apply in_map_iff in Hin. destruct Hin as [b [E Hb]].
    apply Hn. rewrite (NoDup_map_eq f l' a b N'); auto.
    + apply I. now left.
    + apply I. now right.
  - apply IH; [exact Nl|]. intros x Hx. apply I. now right.
Qed.

Lemma distinctFolded_keys xs : distinctFolded xs -> NoDup (map fst xs).
Proof.
  unfold distinctFolded. intros N.
  rewrite <- (map_map fst foldName) in N. exact (NoDup_map_inv _ _ N).
Qed.

Lemma lastValue_same_map k xs ys :
  assignAll ys [] = assignAll xs [] ->
  option_map toAny (lastValue k ys) = option_map toAny (lastValue k xs).
Proof.
  intros E. pose proof (mapaccess_assignAll k ys []) as Hy.
  pose proof (mapaccess_assignAll k xs []) as Hx. rewrite E in Hy.
  rewrite Hx in Hy. simpl in Hy.
  destruct (lastValue k ys), (lastValue k xs); simpl; congruence.
Qed.

(** An object in key order that stands for the value of [xs] spells the
    reading [xs] spells. *)
Lemma reading_denotes xs ys :
  distinctFolded xs -> inRange (DObject xs) = true ->
  NoDup (map fst ys) -> denotes (DObject ys) (toAny (DObject xs)) ->
  reading (DObject ys) = spelled xs.
Proof.
  intros Nx Rx Ny [E Ry]. rewrite !toAny_object in E. injection E as E.
  assert (Hkeys : incl (map fst ys) (map fst xs)).
  { intros k Hk.
    assert (G : In k (keys (assignAll ys []))).
    { apply keys_assignAll. now left. }
    rewrite E in G. apply keys_assignAll in G. destruct G as [G|[]]. exact G. }
  assert (Nf : distinctFolded ys).
  { unfold distinctFolded. rewrite <- (map_map fst foldName).
    apply (NoDup_map_incl foldName _ (map fst xs) Ny Hkeys).
    rewrite map_map. exact Nx. }
  rewrite (reading_spelled ys Nf Ry). simpl in Rx, Ry.
  pose proof (distinctFolded_keys xs Nx) as Nkx.
  assert (G : forall i, numberOr0 (memberFor i ys) = numberOr0 (memberFor i xs)).
  { intros i.
    destruct (memberFor i ys) as [y|] eqn:My.
    - destruct (memberFor_In _ _ _ My) as [k [Hin F]].
      pose proof (proj2 (lastValue_NoDup k y ys Ny) Hin) as Ly.
      pose proof (lastValue_same_map k xs ys E) as S. rewrite Ly in S.
      destruct (lastValue k xs) as [x|] eqn:Lx; [|discriminate].
      injection S as S.
      pose proof (proj1 (lastValue_NoDup k x xs Nkx) Lx) as Hx.
      rewrite (In_memberFor i xs k x Nx Hx F).
      apply numberOr0_sameValue. split; [exact S|]. split.
      + exact (inRange_In _ _ _ Ry Hin).
      + exact (inRange_In _ _ _ Rx Hx).
    - destruct (memberFor i xs) as [x|] eqn:Mx; [|reflexivity]. exfalso.
      destruct (memberFor_In _ _ _ Mx) as [k [Hin F]].
      pose proof (proj2 (lastValue_NoDup k x xs Nkx) Hin) as Lx.
      pose proof (lastValue_same_map k xs ys E) as S. rewrite Lx in S.
      destruct (lastValue k ys) as [y|] eqn:Ly; [|discriminate].
      pose proof (proj1 (lastValue_NoDup k y ys Ny) Ly) as Hy.
      rewrite (In_memberFor i ys k y Nf Hy F) in My. discriminate. }
  unfold spelled. now rewrite !G.
Qed.

Lemma mapaccess_readings k (cms : list (string * doc)) :
  mapaccess k (map (fun e => (fst e, reading (snd e))) cms) =
  option_map reading (mapaccess k cms).
Proof.
  induction cms as [|[k' d] cms IH]; [reflexivity|]. simpl.
  now destruct (k =? k')%string.
Qed.

Lemma encodeMembers_keys L (m : smap any) : forall cms,
  encodeMembers L m = Some cms -> map fst cms = map fst m.
Proof.
  induction m as [|[k v] m IH]; intros cms H; simpl in H.
  - now injection H as <-.
  - destruct (encode L v) as [d|]; [|discriminate].
    destruct (encodeMembers L m) as [ds|]; [|discriminate].
    injection H as <-. simpl. now rewrite (IH ds eq_refl).
Qed.

Lemma encodeMembers_lookup L (m : smap any) k v : forall cms,
  encodeMembers L m = Some cms -> mapaccess k m = Some v ->
  exists d, mapaccess k cms = Some d /\ encode L v = Some d.
Proof.
  induction m as [|[k' w] m IH]; intros cms H Ha; [discriminate|].
  simpl in H, Ha.
  destruct (encode L w) as [d|] eqn:Ew; [|discriminate].
  destruct (encodeMembers L m) as [ds|]; [|discriminate].
  injection H as <-. simpl.
  destruct (k =? k')%string; [|now apply IH].
  injection Ha as <-. now exists d.
Qed.

(** What the map of the tools holds under a key of the object. *)
Lemma tool_reading L cms ms reserved k x :
  encodeMembers L (mapdelete reserved (assignAll ms [])) = Some cms ->
  k <> reserved -> lastValue k ms = Some x ->
  exists d, mapaccess k (readAll cms []) = Some (reading d) /\
            encode L (toAny x) = Some d.
Proof.
  intros Ec Hk El.
  assert (Hord : ordered cms).
  { apply (ordered_same_keys (mapdelete reserved (assignAll ms []))).
    - symmetry. apply (encodeMembers_keys _ _ _ Ec).
    - apply ordered_mapdelete, ordered_assignAll. exact I. }
  assert (Ha : mapaccess k (mapdelete reserved (assignAll ms [])) = Some (toAny x)).
  { rewrite mapaccess_mapdelete_other by congruence.
    now rewrite mapaccess_assignAll, El. }
  destruct (encodeMembers_lookup L _ k _ cms Ec Ha) as [d [Hd Ed]].
  exists d. split; [|exact Ed].
  rewrite readAll_ordered; [|exact Hord|].
  - cbn [app]. now rewrite mapaccess_readings, Hd.
  - apply Forall_forall. intros e _. constructor.
Qed.

(** The reading of a tool as it is passed on, by the tool's text. *)
Lemma reading_encode L x d :
  inRange x = true -> encode L (toAny x) = Some d ->
  match x with
  | DNull => reading d = zeroTemperatureData
  | DObject xs => distinctFolded xs -> reading d = spelled xs
  | _ => True
  end.
Proof.
  intros Rx Ed. destruct x as [| b | n | s | arr | xs]; trivial.
  - injection Ed as <-. reflexivity.
  - intros Nx. pose proof (canonical_toAny _ Rx) as Cx.
    destruct (encode_canonical L _ Cx) as [d' [Ed' Dd]].
    rewrite Ed in Ed'. injection Ed' as <-.
    rewrite toAny_object in Ed, Cx. rewrite encode_map in Ed.
    destruct (encodeMembers L (assignAll xs [])) as [ys|] eqn:Ey; [|discriminate].
    injection Ed as <-.
    apply (reading_denotes xs ys Nx Rx); [|exact Dd].
    rewrite (encodeMembers_keys _ _ _ Ey). apply ordered_NoDup.
    apply ordered_assignAll. exact I.
Qed.

(** The tools of an object whose tools are read without an error. *)
Lemma tools_read L reserved ms cms :
  forallb (fun e => inRange (snd e)) ms = true ->
  encodeMembers L (mapdelete reserved (assignAll ms [])) = Some cms ->
  readErrors cms None = None ->
  forall k x, k <> reserved -> lastValue k ms = Some x ->
              toolReads (readAll cms []) k x.
Proof.
  intros R Ec Hs k x Hk El.
  destruct (canonical_assignAll ms R) as [Ho Hc].
  pose proof (lastValue_inRange _ _ _ R El) as Rx.
  destruct (tool_reading L cms ms reserved k x Ec Hk El) as [d [Hd Ed]].
  pose proof (reading_encode L x d Rx Ed) as G.
  assert (S : readingShape (toAny x) = true).
  { apply (proj1 (readErrors_encodeMembers L _ cms
             (ordered_mapdelete _ _ Ho) (Forall_mapdelete _ _ _ Hc) Ec) Hs k).
    rewrite mapaccess_mapdelete_other by congruence.
    now rewrite mapaccess_assignAll, El. }
  unfold toolReads. destruct x as [| b | n | s | arr | xs]; try discriminate S.
  - now rewrite Hd, G.
  - unfold toAny in S. simpl in S, Rx. now rewrite Rx in S.
  - now rewrite toAny_array in S.
  - intros Nx. now rewrite Hd, (G Nx).
Qed.

(** X15: what a successful call leaves in [Current]: under every key of
    the object other than [history] the reading its last member spells.
    That member is [null], which gives the zero reading, or an object;
    of an object whose keys differ even when case is ignored the reading
    has the numbers under [actual], [target] and [offset], the names
    matched without regard to case, zero for a member that is missing or
    [null], and no other member counts. *)
Theorem current_holds_the_readings L C M ms r cur hist :
  TemperatureState_UnmarshalJSON L C M (Encoding (DObject ms)) r
    = Returns ({| Current := cur; History := hist |}, None) ->
  exists m, cur = Some m /\
    forall k x, k <> "history"%string -> lastValue k ms = Some x ->
                toolReads m k x.
Proof.
  intros H.
  destruct (forallb (fun e => inRange (snd e)) ms) eqn:R.
  2:{ unfold TemperatureState_UnmarshalJSON in H.
      rewrite Unmarshal_map_object, R in H. discriminate H. }
  destruct (TemperatureState_UnmarshalJSON_history L C M ms r R)
    as [cms [Ec [_ E]]].
  rewrite E in H.
  destruct (value_History L C M (historyOf ms) None (readErrors cms None))
    as [l [e|]| |] eqn:V; try discriminate H.
  injection H as <- <-.
  exists (readAll cms []). split; [reflexivity|].
  apply (tools_read L "history" ms cms R Ec).
  exact (value_History_saved _ _ _ _ _ _ _ V).
Qed.

Lemma current_holds_the_readings_witness :
  exists m,
    Some [("bed", {| Actual := float64_of_Z 60; Target := S754_zero false;
                     Offset := S754_zero false |});
          ("tool0", zeroTemperatureData)] = Some m /\
    forall k x, k <> "history"%string ->
      lastValue k [("bed", DObject [("Actual", DNumber (strconv.Integer 60));
                                    ("target", DNull);
                                    ("unit", DString "C")]);
                   ("tool0", DNull)] = Some x ->
      toolReads m k x.
Proof.
  apply (current_holds_the_readings zoneUTC convAMD64 savesAlways
           [("bed", DObject [("Actual", DNumber (strconv.Integer 60));
                             ("target", DNull);
                             ("unit", DString "C")]);
            ("tool0", DNull)]
           zeroTemperatureState _ None).
  vm_compute. reflexivity.
Defined.

(** The entry decoder on an object in range with a number under
    [time]. *)
Lemma HistoricTemperatureData_UnmarshalJSON_object L C ms lit h :
  forallb (fun e => inRange (snd e)) ms = true ->
  lastValue "time" ms = Some (DNumber lit) ->
  exists tms,
    encodeMembers L (mapdelete "time" (assignAll ms [])) = Some tms /\
    HistoricTemperatureData_UnmarshalJSON L C (Encoding (DObject ms)) h =
    match time.MarshalJSON L
            (time.Unix (int64_of_float64 C (strconv.ParseFloat lit)) 0) with
    | None => Returns (h, Some (SyntaxError "unexpected end of JSON input"))
    | Some t =>
        match time.parseStrictRFC3339 L t with
        | None => Returns (h, Some (ErrorString "parsing time"))
        | Some tm =>
            match readErrors tms None with
            | None =>
                Returns ({| Time := tm; Tools := Some (readAll tms []) |}, None)
            | Some e => Returns (h, Some e)
            end
        end
    end.
Proof.
  intros R El. destruct (canonical_assignAll ms R) as [Ho Hc].
  pose proof (lastValue_inRange _ _ _ R El) as Rf. simpl in Rf.
  destruct (encodeMembers_canonical L (mapdelete "time" (assignAll ms [])))
    as [tms [Ec Dc]].
  { now apply ordered_mapdelete. }
  { now apply Forall_mapdelete. }
  exists tms. split; [exact Ec|].
  destruct (time.MarshalJSON L _) as [t|] eqn:Et.
  - destruct (HistoricTemperatureData_split_object L C ms lit t R El Et)
      as [tms' [Ec' [_ Es]]].
    rewrite Ec in Ec'. injection Ec' as <-.
    unfold HistoricTemperatureData_UnmarshalJSON.
    rewrite Unmarshal_map_object, R, Es.
    cbn [Unmarshal_historicTemperatureData object_historicTemperatureData].
    change (fieldIndex ["time"; "tools"]%string "time") with (Some 0%nat).
    change (fieldIndex ["time"; "tools"]%string "tools") with (Some 1%nat).
    cbn [time.UnmarshalJSON].
    destruct (time.parseStrictRFC3339 L t) as [tm|]; [|reflexivity].
    cbn [value_map_TemperatureData Tools Time zeroHistoricTemperatureData].
    rewrite object_map_TemperatureData_spec.
    destruct (readErrors tms None); reflexivity.
  - unfold HistoricTemperatureData_UnmarshalJSON.
    rewrite Unmarshal_map_object, R.
    unfold HistoricTemperatureData_split.
    rewrite mapaccess_assignAll, El. unfold toAny. simpl valueInterface.
    rewrite Rf. cbn [fst option_map].
    set (f := strconv.ParseFloat lit) in *.
    set (m := assignAll ms []) in *.
    change (mapassign "tools" (VMap (mapdelete "time" m))
              (mapassign "time"
                 (VTime (time.Unix (int64_of_float64 C f) 0)) []))
      with [("time", VTime (time.Unix (int64_of_float64 C f) 0));
            ("tools", VMap (mapdelete "time" m))]%string.
    unfold Marshal. rewrite encode_map. cbn [encodeMembers encode].
    rewrite Et. reflexivity.
Qed.

(** X16: what a successful call of the entry decoder leaves in [Tools]:
    a map with exactly the keys of the object other than [time], in
    key order, and under each the reading its last member spells, as
    the temperature decoder does for [Current]. *)
Theorem tools_hold_the_readings L C ms h h' :
  HistoricTemperatureData_UnmarshalJSON L C (Encoding (DObject ms)) h
    = Returns (h', None) ->
  exists m, Tools h' = Some m /\ ordered m /\
    (forall k, In k (keys m) <-> In k (map fst ms) /\ k <> "time"%string) /\
    forall k x, k <> "time"%string -> lastValue k ms = Some x ->
                toolReads m k x.
Proof.
  intros H.
  destruct (forallb (fun e => inRange (snd e)) ms) eqn:R.
  2:{ unfold HistoricTemperatureData_UnmarshalJSON in H.
      rewrite Unmarshal_map_object, R in H. discriminate H. }
  destruct (lastValue "time" ms) as [[| b | lit | s | arr | xs]|] eqn:El;
    try (destruct (entry_without_numeric_time_panics L C ms h R) as [msg Hp];
         [now rewrite El|congruence]).
  destruct (HistoricTemperatureData_UnmarshalJSON_object L C ms lit h R El)
    as [tms [Ec E]].
  rewrite E in H.
  destruct (time.MarshalJSON L _) as [t|]; [|discriminate H].
  destruct (time.parseStrictRFC3339 L t) as [tm|]; [|discriminate H].
  destruct (readErrors tms None) eqn:Hs; [discriminate H|].
  injection H as <-.
  assert (Hord : ordered tms).
  { apply (ordered_same_keys (mapdelete "time" (assignAll ms []))).
    - symmetry. apply (encodeMembers_keys _ _ _ Ec).
    - apply ordered_mapdelete, ordered_assignAll. exact I. }
  assert (Hkeys : keys (readAll tms []) = keys (mapdelete "time" (assignAll ms []))).
  { rewrite keys_readAll by exact Hord. apply (encodeMembers_keys _ _ _ Ec). }
  exists (readAll tms []). split; [reflexivity|]. split; [|split].
  - apply (ordered_same_keys (mapdelete "time" (assignAll ms []))).
    + symmetry. exact Hkeys.
    + apply ordered_mapdelete, ordered_assignAll. exact I.
  - intros k. rewrite Hkeys, keys_mapdelete, keys_assignAll. simpl. tauto.
  - exact (tools_read L "time" ms tms R Ec Hs).
Qed.

Lemma tools_hold_the_readings_witness :
  exists m,
    Some [("tool0", {| Actual := float64_of_Z 199; Target := float64_of_Z 200;
                       Offset := S754_zero false |})] = Some m /\ ordered m /\
    (forall k, In k (keys m) <->
       In k (map fst [("time", DNumber (strconv.Integer 1610000000));
                      ("tool0", DObject [("actual", DNumber (strconv.Integer 199));
                                         ("target", DNumber (strconv.Integer 200))])])
       /\ k <> "time"%string) /\
    forall k x, k <> "time"%string ->
      lastValue k [("time", DNumber (strconv.Integer 1610000000));
                   ("tool0", DObject [("actual", DNumber (strconv.Integer 199));
                                      ("target", DNumber (strconv.Integer 200))])]
      = Some x ->
      toolReads m k x.
Proof.
  apply (tools_hold_the_readings zoneCET convAMD64
           [("time", DNumber (strconv.Integer 1610000000));
            ("tool0", DObject [("actual", DNumber (strconv.Integer 199));
                               ("target", DNumber (strconv.Integer 200))])]
           zeroHistoricTemperatureData
           {| Time := {| time.unixSec := 1610000000; time.nsec := 0;
                         time.loc := time.Local |};
              Tools := Some [("tool0",
                              {| Actual := float64_of_Z 199;
                                 Target := float64_of_Z 200;
                                 Offset := S754_zero false |})] |}).
  vm_compute. reflexivity.
Defined.

(* ----------------------------------------------------------------- *)
(** ** The time of an entry in any zone *)

(** The text of the local time of a Unix second. *)
Lemma MarshalJSON_without_text L n :
  minInt64 <= n <= maxInt64 -> ~ hasText L n ->
  time.MarshalJSON L (time.Unix n 0) = None.
Proof.
  intros Hn Hx.
  assert (EU : time.Unix n 0 = {| time.unixSec := n; time.nsec := 0; time.loc := time.Local |}).
  { unfold time.Unix. cbn. rewrite Z.add_0_r. now rewrite wrap64_small. }
  rewrite EU. unfold time.MarshalJSON.
  cbn [time.loc time.unixSec time.nsec time.offsetAt].
  destruct ((n + L n + time.unixEpoch <? 0)
            || (time.endOfYears <=? n + L n + time.unixEpoch)) eqn:E1;
    [reflexivity|].
  destruct (24 <=? Z.abs (Z.quot (L n) 60) / 60) eqn:E2; [reflexivity|].
  exfalso. apply Hx. apply orb_false_iff in E1. destruct E1 as [E1 E3].
  apply Z.ltb_ge in E1. apply Z.leb_gt in E3. apply Z.leb_gt in E2.
  split; [split|]; assumption.
Qed.

(** X17: a second that has no RFC 3339 text in the local zone, its year
    being outside of 0 to 9999, is reported as a syntax error: the
    error of [json.Marshal] is dropped, and the nil bytes it leaves are
    what the second [json.Unmarshal] complains about.  This is so on
    an object whose numbers are all within the range of [float64] and
    whose [time] is a number that, cut to an integer, fits [int64]. *)
Theorem time_without_a_text_is_a_syntax_error L C ms lit n h :
  inRange (DObject ms) = true ->
  lastValue "time" ms = Some (DNumber lit) ->
  truncate (strconv.ParseFloat lit) = Some n ->
  minInt64 <= n <= maxInt64 ->
  ~ hasText L n ->
  HistoricTemperatureData_UnmarshalJSON L C (Encoding (DObject ms)) h
  = Returns (h, Some (SyntaxError "unexpected end of JSON input")).
Proof.
  intros R El Et Hn Hx. simpl in R.
  destruct (HistoricTemperatureData_UnmarshalJSON_object L C ms lit h R El)
    as [tms [_ ->]].
  rewrite (int64_of_float64_truncate C _ n Et Hn).
  now rewrite (MarshalJSON_without_text L n Hn Hx).
Qed.

Lemma time_without_a_text_is_a_syntax_error_witness :
  HistoricTemperatureData_UnmarshalJSON zoneCET convAMD64
    (Encoding (entryAt 253402300799)) zeroHistoricTemperatureData
  = Returns (zeroHistoricTemperatureData,
             Some (SyntaxError "unexpected end of JSON input")).
Proof.
  apply (time_without_a_text_is_a_syntax_error zoneCET convAMD64 _
           (strconv.Integer 253402300799) 253402300799).
  - reflexivity.
  - reflexivity.
  - reflexivity.
  - unfold minInt64, maxInt64. lia.
  - unfold hasText, zoneCET. change time.unixEpoch with 62167219200.
    change time.endOfYears with 315569520000. lia.
Defined.

(** X18: the [Time] of an entry in any zone.  The second is that of the
    number plus the seconds of the zone offset, which the text passed
    between the two steps drops; the location is UTC when the offset is
    zero, the local zone when the offset is a whole number of minutes,
    and else a zone of the offset cut to minutes. *)
Theorem historic_time_in_any_zone L C ms lit n h :
  inRange (DObject ms) = true ->
  lastValue "time" ms = Some (DNumber lit) ->
  truncate (strconv.ParseFloat lit) = Some n ->
  hasText L n ->
  (forall k x, k <> "time"%string -> lastValue k ms = Some x ->
               readingShape (toAny x) = true) ->
  exists h',
    HistoricTemperatureData_UnmarshalJSON L C (Encoding (DObject ms)) h
      = Returns (h', None) /\
    time.unixSec (Time h') = n + Z.rem (L n) 60 /\
    time.nsec (Time h') = 0 /\
    time.loc (Time h') =
      if L n =? 0 then time.UTC
      else if Z.rem (L n) 60 =? 0 then time.Local
      else if L (n + Z.rem (L n) 60) =? 60 * Z.quot (L n) 60 then time.Local
      else time.FixedZone (60 * Z.quot (L n) 60).
Proof.
  intros R El Et Hx Htools.
  destruct (HistoricTemperatureData_UnmarshalJSON_decodes L C ms lit n h
              R El Et Hx Htools) as [tools [E _]].
  eexists. split; [exact E|]. cbn [Time time.unixSec time.nsec time.loc].
  split; [reflexivity|]. split; [reflexivity|].
  unfold parsedLocation. destruct (L n =? 0); [reflexivity|].
  destruct (Z.eqb_spec (Z.rem (L n) 60) 0) as [E0|]; [|reflexivity].
  rewrite E0, Z.add_0_r.
  pose proof (Z.quot_rem' (L n) 60) as Q.
  replace (60 * Z.quot (L n) 60) with (L n) by lia.
  now rewrite Z.eqb_refl.
Qed.

Lemma historic_time_in_any_zone_witness :
  exists h',
    HistoricTemperatureData_UnmarshalJSON zoneMonrovia convAMD64
      (Encoding (entryAt 1000)) zeroHistoricTemperatureData
      = Returns (h', None) /\
    time.unixSec (Time h') = 1000 + Z.rem (zoneMonrovia 1000) 60 /\
    time.nsec (Time h') = 0 /\
    time.loc (Time h') =
      if zoneMonrovia 1000 =? 0 then time.UTC
      else if Z.rem (zoneMonrovia 1000) 60 =? 0 then time.Local
      else if zoneMonrovia (1000 + Z.rem (zoneMonrovia 1000) 60)
              =? 60 * Z.quot (zoneMonrovia 1000) 60 then time.Local
      else time.FixedZone (60 * Z.quot (zoneMonrovia 1000) 60).
Proof.
  apply (historic_time_in_any_zone zoneMonrovia convAMD64 _
           (strconv.Integer 1000) 1000).
  - reflexivity.
  - reflexivity.
  - reflexivity.
  - unfold hasText, zoneMonrovia. change time.unixEpoch with 62167219200.
    change time.endOfYears with 315569520000. split; [lia|]. vm_compute.
    reflexivity.
  - intros k x Hk E. by_key E.
Defined.

(* ----------------------------------------------------------------- *)
(** ** What a successful call implies *)

(** X21: the conditions under which the temperature decoder succeeds are
    necessary.  When the call on an object returns no error, the
    numbers of the object are in range, every tool has the shape of a
    reading, and the history is absent or [null], with [History] left
    unset, or is an array whose entries all decode, with [History]
    holding them index for index. *)
Theorem temperature_decodes_this_shape_only L C M ms r i :
  TemperatureState_UnmarshalJSON L C M (Encoding (DObject ms)) r
    = Returns (i, None) ->
  inRange (DObject ms) = true /\
  (forall k x, k <> "history"%string -> lastValue k ms = Some x ->
               readingShape (toAny x) = true) /\
  match historyOf ms with
  | DNull => History i = None
  | DArray arr =>
      Forall (entryDecodes L C) arr /\
      History i = Some (map (decodeEntry L C) arr)
  | _ => False
  end.
Proof.
  intros H. simpl.
  destruct (forallb (fun e => inRange (snd e)) ms) eqn:R.
  2:{ unfold TemperatureState_UnmarshalJSON in H.
      rewrite Unmarshal_map_object, R in H. discriminate H. }
  destruct (TemperatureState_UnmarshalJSON_history L C M ms r R)
    as [cms [Ec [_ E]]].
  rewrite E in H.
  destruct (value_History L C M (historyOf ms) None (readErrors cms None))
    as [l [e|]| |] eqn:V; try discriminate H.
  injection H as <-. cbn [History].
  pose proof (value_History_saved _ _ _ _ _ _ _ V) as Hs.
  destruct (canonical_assignAll ms R) as [Ho Hc].
  split; [reflexivity|]. split.
  - intros k x Hk El.
    apply (proj1 (readErrors_encodeMembers L _ cms
             (ordered_mapdelete _ _ Ho) (Forall_mapdelete _ _ _ Hc) Ec) Hs k).
    rewrite mapaccess_mapdelete_other by congruence.
    now rewrite mapaccess_assignAll, El.
  - rewrite Hs in V.
    destruct (historyOf ms) as [| b | n | s | arr | hms]; try discriminate V.
    + now injection V as <-.
    + cbn [value_History] in V.
      destruct (array_HistoricTemperatureData L C M arr [] None)
        as [l' s'| |] eqn:A; try discriminate V.
      injection V as <- ->.
      destruct (array_HistoricTemperatureData_going L C M arr _ _ A) as [F ->].
      now split.
Qed.

Lemma temperature_decodes_this_shape_only_witness :
  inRange (DObject (payloadAt 1610000000)) = true /\
  (forall k x, k <> "history"%string ->
     lastValue k (payloadAt 1610000000) = Some x ->
     readingShape (toAny x) = true) /\
  match historyOf (payloadAt 1610000000) with
  | DNull => @None (list (option HistoricTemperatureData)) = None
  | DArray arr =>
      Forall (entryDecodes zoneCET convAMD64) arr /\
      Some [Some {| Time := {| time.unixSec := 1610000000; time.nsec := 0;
                               time.loc := time.Local |};
                    Tools := Some [("tool0",
                                    {| Actual := float64_of_Z 199;
                                       Target := float64_of_Z 200;
                                       Offset := S754_zero false |})] |}]
      = Some (map (decodeEntry zoneCET convAMD64) arr)
  | _ => False
  end.
Proof.
  refine (temperature_decodes_this_shape_only zoneCET convAMD64 savesAlways
            (payloadAt 1610000000) zeroTemperatureState
            {| Current := _; History := Some [Some _] |} _).
  vm_compute. reflexivity.
Defined.

Lemma int64_of_float64_range C f :
  minInt64 <= int64_of_float64 C f <= maxInt64.
Proof.
  assert (W : forall z, minInt64 <= wrap64 z <= maxInt64).
  { intros z. unfold wrap64, minInt64, maxInt64.
    pose proof (Z.mod_pos_bound (z + 2 ^ 63) (2 ^ 64) eq_refl). lia. }
  unfold int64_of_float64. destruct (truncate f) as [z|]; [|apply W].
  destruct ((minInt64 <=? z) && (z <=? maxInt64)) eqn:E; [|apply W].
  apply andb_true_iff in E. destruct E as [E1 E2].
  apply Z.leb_le in E1, E2. lia.
Qed.

Lemma MarshalJSON_text L n t :
  minInt64 <= n <= maxInt64 ->
  time.MarshalJSON L (time.Unix n 0) = Some t -> hasText L n.
Proof.
  intros Hn.
  assert (EU : time.Unix n 0 = {| time.unixSec := n; time.nsec := 0; time.loc := time.Local |}).
  { unfold time.Unix. cbn. rewrite Z.add_0_r. now rewrite wrap64_small. }
  rewrite EU. unfold time.MarshalJSON.
  cbn [time.loc time.unixSec time.nsec time.offsetAt].
  destruct ((n + L n + time.unixEpoch <? 0)
            || (time.endOfYears <=? n + L n + time.unixEpoch)) eqn:E1;
    [discriminate|].
  destruct (24 <=? Z.abs (Z.quot (L n) 60) / 60) eqn:E2; [discriminate|].
  intros _. apply orb_false_iff in E1. destruct E1 as [E1 E3].
  apply Z.ltb_ge in E1. apply Z.leb_gt in E3. apply Z.leb_gt in E2.
  split; [split|]; assumption.
Qed.

(** In the bytes the entry decoder builds, [time] is the first member and
    a text that [Time.UnmarshalJSON] reads back without an error. *)
Lemma HistoricTemperatureData_split_time L C raw ms :
  HistoricTemperatureData_split L C raw = Returns (Encoding (DObject ms)) ->
  exists t tools,
    ms = [("time", DString t); ("tools", tools)]%string /\
    snd (time.UnmarshalJSON L (DString t) time.zeroTime) = None.
Proof.
  unfold HistoricTemperatureData_split.
  destruct (match raw with Some m => _ | None => VNil end) as [| |f| | | | |];
    try discriminate.
  set (tools := match option_map (mapdelete "time") raw with
                | Some m => VMap m
                | None => VNilMap
                end).
  set (n := int64_of_float64 C f).
  change (mapassign "tools" tools (mapassign "time" (VTime (time.Unix n 0)) []))
    with [("time", VTime (time.Unix n 0)); ("tools", tools)]%string.
  unfold Marshal. rewrite encode_map. cbn [encodeMembers encode].
  destruct (time.MarshalJSON L (time.Unix n 0)) as [t|] eqn:Et;
    cbn [option_map]; [|discriminate].
  destruct (encode L tools) as [d|]; cbn [option_map fst]; [|discriminate].
  intros [= <-]. exists t, d. split; [reflexivity|].
  pose proof (int64_of_float64_range C f) as Hn. fold n in Hn.
  destruct (MarshalJSON_text L n t Hn Et) as [Hw Hz].
  destruct (time_round_trip L n Hn Hw Hz) as [s [Es Ps]].
  rewrite Et in Es. injection Es as <-.
  cbn [time.UnmarshalJSON]. now rewrite Ps.
Qed.

(** X22: the conditions under which the entry decoder succeeds are
    necessary, and its [Time] is that of the converted number.  When
    the call on an object returns no error, the numbers of the object
    are in range, every tool has the shape of a reading, there is a
    number under [time], the second it is converted to (by the
    conversion of the platform when it does not fit [int64]) has an
    RFC 3339 text in the local zone, and [Time] is that second plus the
    seconds of the zone offset. *)
Theorem entry_decodes_this_shape_only L C ms h h' :
  HistoricTemperatureData_UnmarshalJSON L C (Encoding (DObject ms)) h
    = Returns (h', None) ->
  inRange (DObject ms) = true /\
  (forall k x, k <> "time"%string -> lastValue k ms = Some x ->
               readingShape (toAny x) = true) /\
  exists lit,
    lastValue "time" ms = Some (DNumber lit) /\
    let n := int64_of_float64 C (strconv.ParseFloat lit) in
    hasText L n /\
    Time h' = {| time.unixSec := n + Z.rem (L n) 60; time.nsec := 0;
                 time.loc := parsedLocation L (L n) (n + Z.rem (L n) 60) |}.
Proof.
  intros H. simpl.
  destruct (forallb (fun e => inRange (snd e)) ms) eqn:R.
  2:{ unfold HistoricTemperatureData_UnmarshalJSON in H.
      rewrite Unmarshal_map_object, R in H. discriminate H. }
  destruct (lastValue "time" ms) as [[| b | lit | s | arr | xs]|] eqn:El;
    try (destruct (entry_without_numeric_time_panics L C ms h R) as [msg Hp];
         [now rewrite El|congruence]).
  destruct (HistoricTemperatureData_UnmarshalJSON_object L C ms lit h R El)
    as [tms [Ec E]].
  rewrite E in H.
  pose proof (int64_of_float64_range C (strconv.ParseFloat lit)) as Hn.
  set (n := int64_of_float64 C (strconv.ParseFloat lit)) in *.
  destruct (time.MarshalJSON L (time.Unix n 0)) as [t|] eqn:Em;
    [|discriminate H].
  pose proof (MarshalJSON_text L n t Hn Em) as Hx.
  destruct Hx as [Hw Hz].
  destruct (time_round_trip L n Hn Hw Hz) as [t' [Em' Ep]].
  rewrite Em in Em'. injection Em' as <-. rewrite Ep in H.
  destruct (readErrors tms None) eqn:Hs; [discriminate H|].
  injection H as <-.
  destruct (canonical_assignAll ms R) as [Ho Hc].
  split; [reflexivity|]. split.
  - intros k x Hk Ek.
    apply (proj1 (readErrors_encodeMembers L _ tms
             (ordered_mapdelete _ _ Ho) (Forall_mapdelete _ _ _ Hc) Ec) Hs k).
    rewrite mapaccess_mapdelete_other by congruence.
    now rewrite mapaccess_assignAll, Ek.
  - exists lit. split; [reflexivity|]. split; [now split|reflexivity].
Qed.

Lemma entry_decodes_this_shape_only_witness :
  inRange (entryAt (2 ^ 70)) = true /\
  (forall k x, k <> "time"%string ->
     lastValue k [("time", DNumber (strconv.Integer (2 ^ 70)));
                  ("tool0", readingOf 199 200 0)] = Some x ->
     readingShape (toAny x) = true) /\
  exists lit,
    lastValue "time" [("time", DNumber (strconv.Integer (2 ^ 70)));
                      ("tool0", readingOf 199 200 0)] = Some (DNumber lit) /\
    let n := int64_of_float64 (fun _ => 1000) (strconv.ParseFloat lit) in
    hasText zoneUTC n /\
    {| time.unixSec := 1000; time.nsec := 0; time.loc := time.UTC |}
    = {| time.unixSec := n + Z.rem (zoneUTC n) 60; time.nsec := 0;
         time.loc := parsedLocation zoneUTC (zoneUTC n)
                       (n + Z.rem (zoneUTC n) 60) |}.
Proof.
  refine (entry_decodes_this_shape_only zoneUTC (fun _ => 1000)
            [("time", DNumber (strconv.Integer (2 ^ 70)));
             ("tool0", readingOf 199 200 0)]
            zeroHistoricTemperatureData
            {| Time := {| time.unixSec := 1000; time.nsec := 0;
                          time.loc := time.UTC |};
               Tools := _ |} _).
  vm_compute. reflexivity.
Defined.

(* ----------------------------------------------------------------- *)
(** ** What the decoders depend on besides their input *)

Lemma HasPrefix_cons c s d p :
  strings.HasPrefix (String c s) (String d p) =
  (c =? d)%char && strings.HasPrefix s p.
Proof.
  unfold strings.HasPrefix. cbn [String.length substring String.eqb].
  change (S (String.length p) <=? S (String.length s))%nat
    with (String.length p <=? String.length s)%nat.
  destruct (c =? d)%char, (String.length p <=? String.length s)%nat;
    reflexivity.
Qed.

(** A prefix is looked for in as many bytes of the label as it has. *)
Lemma HasPrefix_substring p : forall n s,
  (String.length p <= n)%nat ->
  strings.HasPrefix (substring 0 n s) p = strings.HasPrefix s p.
Proof.
  induction p as [|d p IH]; intros n s Hn.
  - unfold strings.HasPrefix. simpl.
    now destruct (substring 0 n s), s.
  - destruct n as [|n]; [simpl in Hn; lia|].
    destruct s as [|c s]; [reflexivity|].
    cbn [substring]. rewrite !HasPrefix_cons, IH; [reflexivity|].
    simpl in Hn. lia.
Qed.

(** Encoding a value the decoder has built asks for no zone. *)
Lemma encode_canonical_any_zone L1 L2 v :
  canonical v -> encode L1 v = encode L2 v.
Proof.
  induction v as [| b | f | s | l IH | m IH | | t] using any_induction;
    intros Hc; inversion Hc; subst; try reflexivity.
  - rewrite !encode_slice. f_equal.
    induction IH as [|x l Hx _ IHl]; [reflexivity|].
    inversion H0; subst. simpl. rewrite (Hx H2), IHl; auto.
    now constructor.
  - rewrite !encode_map. f_equal. clear Hc H0.
    induction IH as [|[k x] l Hx _ IHl]; [reflexivity|].
    inversion H1; subst. simpl in *. now rewrite (Hx H2), IHl.
Qed.

Lemma encodeMembers_any_zone L1 L2 k ms :
  forallb (fun e => inRange (snd e)) ms = true ->
  encodeMembers L1 (mapdelete k (assignAll ms [])) =
  encodeMembers L2 (mapdelete k (assignAll ms [])).
Proof.
  intros R. destruct (canonical_assignAll ms R) as [Ho Hc].
  pose proof (encode_canonical_any_zone L1 L2
                (VMap (mapdelete k (assignAll ms [])))) as G.
  rewrite !encode_map in G.
  specialize (G (canonical_map _ (ordered_mapdelete _ _ Ho)
                                 (Forall_mapdelete _ _ _ Hc))).
  destruct (encodeMembers L1 _), (encodeMembers L2 _);
    simpl in G; congruence.
Qed.

(** Without a [history] key the temperature decoder asks for nothing of
    the process. *)
Lemma TemperatureState_UnmarshalJSON_any_zone L1 L2 C1 C2 M1 M2 ms r :
  lastValue "history" ms = None ->
  TemperatureState_UnmarshalJSON L1 C1 M1 (Encoding (DObject ms)) r =
  TemperatureState_UnmarshalJSON L2 C2 M2 (Encoding (DObject ms)) r.
Proof.
  intros Hh. destruct (forallb (fun e => inRange (snd e)) ms) eqn:R.
  2:{ unfold TemperatureState_UnmarshalJSON.
      now rewrite Unmarshal_map_object, R. }
  destruct (TemperatureState_UnmarshalJSON_object L1 C1 M1 ms r R)
    as [cms1 [hd1 [Ec1 [_ [_ [Dh1 ->]]]]]].
  destruct (TemperatureState_UnmarshalJSON_object L2 C2 M2 ms r R)
    as [cms2 [hd2 [Ec2 [_ [_ [Dh2 ->]]]]]].
  rewrite (value_History_absent L1 C1 M1 ms hd1 _ Hh Dh1).
  rewrite (value_History_absent L2 C2 M2 ms hd2 _ Hh Dh2).
  rewrite (encodeMembers_any_zone L1 L2 "history" ms R), Ec2 in Ec1.
  injection Ec1 as ->. reflexivity.
Qed.

(** The elements of a history are what the temperature decoder asks of
    the process. *)
Lemma array_HistoricTemperatureData_two_processes L1 L2 C1 C2 M arr :
  Forall (fun e =>
            HistoricTemperatureData_UnmarshalJSON L1 C1 (Encoding e)
              zeroHistoricTemperatureData =
            HistoricTemperatureData_UnmarshalJSON L2 C2 (Encoding e)
              zeroHistoricTemperatureData) arr ->
  forall saved,
  array_HistoricTemperatureData L1 C1 M arr [] saved =
  array_HistoricTemperatureData L2 C2 M arr [] saved.
Proof.
  induction 1 as [|x arr Hx _ IH]; intros saved; [reflexivity|].
  destruct x; cbn [array_HistoricTemperatureData hd tl] in *;
    rewrite ?IH; try reflexivity; rewrite Hx;
    destruct (HistoricTemperatureData_UnmarshalJSON L2 C2 _ _)
      as [[h' [e|]]|];
    try reflexivity; destruct (M _); rewrite ?IH; reflexivity.
Qed.

Lemma TemperatureState_UnmarshalJSON_two_processes L1 L2 C1 C2 M ms r :
  (forall arr, lastValue "history" ms = Some (DArray arr) ->
     Forall (fun e =>
               HistoricTemperatureData_UnmarshalJSON L1 C1 (Encoding e)
                 zeroHistoricTemperatureData =
               HistoricTemperatureData_UnmarshalJSON L2 C2 (Encoding e)
                 zeroHistoricTemperatureData) arr) ->
  TemperatureState_UnmarshalJSON L1 C1 M (Encoding (DObject ms)) r =
  TemperatureState_UnmarshalJSON L2 C2 M (Encoding (DObject ms)) r.
Proof.
  intros Hh. destruct (forallb (fun e => inRange (snd e)) ms) eqn:R.
  2:{ unfold TemperatureState_UnmarshalJSON.
      now rewrite Unmarshal_map_object, R. }
  destruct (TemperatureState_UnmarshalJSON_object L1 C1 M ms r R)
    as [cms1 [hd1 [Ec1 [_ [Eh1 [Dh1 ->]]]]]].
  destruct (TemperatureState_UnmarshalJSON_object L2 C2 M ms r R)
    as [cms2 [hd2 [Ec2 [_ [Eh2 [Dh2 ->]]]]]].
  rewrite (encodeMembers_any_zone L1 L2 "history" ms R), Ec2 in Ec1.
  injection Ec1 as ->.
  destruct (canonical_assignAll ms R) as [Ho Hc].
  rewrite (encode_canonical_any_zone L1 L2 _ (canonical_valueAt "history" _ Hc)),
    Eh2 in Eh1.
  injection Eh1 as ->.
  assert (V : value_History L1 C1 M hd1 None (readErrors cms1 None) =
              value_History L2 C2 M hd1 None (readErrors cms1 None)).
  { destruct (lastValue "history" ms) as [x|] eqn:Ex.
    - destruct hd1 as [| b | f | s | ds | hms]; try reflexivity.
      rewrite valueAt_assignAll, Ex in Dh1.
      pose proof (lastValue_inRange _ _ _ R Ex) as Rx.
      destruct x as [| b | f | s | arr | hms];
        try (destruct Dh1 as [Dh1 _]; rewrite toAny_array in Dh1;
             discriminate Dh1).
      + destruct Dh1 as [Dh1 _]. rewrite toAny_array in Dh1.
        unfold toAny in Dh1. simpl in Dh1, Rx. rewrite Rx in Dh1.
        discriminate Dh1.
      + assert (Dh : denotes (DArray ds) (valueAt "history" (assignAll ms []))).
        { now rewrite valueAt_assignAll, Ex. }
        rewrite (value_History_array L1 C1 M ms arr _ _ R Ex Dh).
        rewrite (value_History_array L2 C2 M ms arr _ _ R Ex Dh).
        now rewrite (array_HistoricTemperatureData_two_processes
                       L1 L2 C1 C2 M arr (Hh arr eq_refl)).
      + destruct Dh1 as [Dh1 _]. rewrite toAny_array, toAny_object in Dh1.
        discriminate Dh1.
    - rewrite (value_History_absent L1 C1 M ms hd1 _ Ex Dh1).
      now rewrite (value_History_absent L2 C2 M ms hd1 _ Ex Dh1). }
  now rewrite V.
Qed.

(** The text of the local time of a Unix second asks for the offset of
    the zone at that second. *)
Lemma MarshalJSON_two_zones L1 L2 n :
  minInt64 <= n <= maxInt64 -> L1 n = L2 n ->
  time.MarshalJSON L1 (time.Unix n 0) = time.MarshalJSON L2 (time.Unix n 0).
Proof.
  intros Hn HL.
  assert (EU : time.Unix n 0 = {| time.unixSec := n; time.nsec := 0; time.loc := time.Local |}).
  { unfold time.Unix. cbn. rewrite Z.add_0_r. now rewrite wrap64_small. }
  rewrite EU. unfold time.MarshalJSON.
  cbn [time.loc time.unixSec time.nsec time.offsetAt].
  now rewrite HL.
Qed.

(** On a number under [time] that fits [int64], the entry decoder asks
    for the offset of the zone at two seconds, and for no conversion of
    the platform. *)
Lemma HistoricTemperatureData_UnmarshalJSON_two_zones L1 L2 C1 C2 ms lit n h :
  lastValue "time" ms = Some (DNumber lit) ->
  truncate (strconv.ParseFloat lit) = Some n ->
  minInt64 <= n <= maxInt64 ->
  L1 n = L2 n ->
  L1 (n + Z.rem (L1 n) 60) = L2 (n + Z.rem (L1 n) 60) ->
  HistoricTemperatureData_UnmarshalJSON L1 C1 (Encoding (DObject ms)) h =
  HistoricTemperatureData_UnmarshalJSON L2 C2 (Encoding (DObject ms)) h.
Proof.
  intros El Et Hn HL HL'.
  destruct (forallb (fun e => inRange (snd e)) ms) eqn:R.
  2:{ unfold HistoricTemperatureData_UnmarshalJSON.
      now rewrite Unmarshal_map_object, R. }
  destruct (HistoricTemperatureData_UnmarshalJSON_object L1 C1 ms lit h R El)
    as [tms1 [Ec1 ->]].
  destruct (HistoricTemperatureData_UnmarshalJSON_object L2 C2 ms lit h R El)
    as [tms2 [Ec2 ->]].
  rewrite (encodeMembers_any_zone L1 L2 "time" ms R), Ec2 in Ec1.
  injection Ec1 as ->.
  rewrite !(int64_of_float64_truncate _ _ n Et Hn).
  rewrite <- (MarshalJSON_two_zones L1 L2 n Hn HL).
  destruct (time.MarshalJSON L1 (time.Unix n 0)) as [t|] eqn:E1; [|reflexivity].
  destruct (MarshalJSON_text L1 n t Hn E1) as [Hw Hz].
  destruct (time_round_trip L1 n Hn Hw Hz) as [s1 [Em1 P1]].
  rewrite E1 in Em1. injection Em1 as <-.
  assert (Hw2 : 0 <= n + L2 n + time.unixEpoch < time.endOfYears)
    by now rewrite <- HL.
  assert (Hz2 : Z.abs (Z.quot (L2 n) 60) / 60 < 24) by now rewrite <- HL.
  destruct (time_round_trip L2 n Hn Hw2 Hz2) as [s2 [Em2 P2]].
  rewrite <- (MarshalJSON_two_zones L1 L2 n Hn HL), E1 in Em2.
  injection Em2 as <-.
  rewrite P1, P2, <- HL. unfold parsedLocation. now rewrite <- HL'.
Qed.

(** C10, amended: what the results depend on.  The five predicates read
    the label, and no more of it than its first 11 bytes.  The decoders
    read the bytes and the local zone of the process.  The temperature
    decoder asks nothing of the process on an object without a
    [history] key, and on any object no more than the entry decoder
    asks on the elements of the history.  The entry decoder, on a
    number under [time] that fits [int64], asks for the offset of the
    local zone at that second and at that second plus the seconds of
    the offset. *)
Theorem decoders_depend_on_the_local_zone L1 L2 C1 C2 M :
  (forall s t : ConnectionState,
     substring 0 11 s = substring 0 11 t ->
     IsOperational s = IsOperational t /\ IsPrinting s = IsPrinting t /\
     IsOffline s = IsOffline t /\ IsError s = IsError t /\
     IsConnecting s = IsConnecting t) /\
  (forall M' ms r, lastValue "history" ms = None ->
     TemperatureState_UnmarshalJSON L1 C1 M (Encoding (DObject ms)) r =
     TemperatureState_UnmarshalJSON L2 C2 M' (Encoding (DObject ms)) r) /\
  (forall ms r,
     (forall arr, lastValue "history" ms = Some (DArray arr) ->
        Forall (fun e =>
                  HistoricTemperatureData_UnmarshalJSON L1 C1 (Encoding e)
                    zeroHistoricTemperatureData =
                  HistoricTemperatureData_UnmarshalJSON L2 C2 (Encoding e)
                    zeroHistoricTemperatureData) arr) ->
     TemperatureState_UnmarshalJSON L1 C1 M (Encoding (DObject ms)) r =
     TemperatureState_UnmarshalJSON L2 C2 M (Encoding (DObject ms)) r) /\
  (forall ms lit n h,
     lastValue "time" ms = Some (DNumber lit) ->
     truncate (strconv.ParseFloat lit) = Some n ->
     minInt64 <= n <= maxInt64 ->
     L1 n = L2 n ->
     L1 (n + Z.rem (L1 n) 60) = L2 (n + Z.rem (L1 n) 60) ->
     HistoricTemperatureData_UnmarshalJSON L1 C1 (Encoding (DObject ms)) h =
     HistoricTemperatureData_UnmarshalJSON L2 C2 (Encoding (DObject ms)) h).
Proof.
  split; [|split; [|split]].
  - intros s t E.
    assert (P : forall p, (String.length p <= 11)%nat ->
                          strings.HasPrefix s p = strings.HasPrefix t p).
    { intros p Hp. rewrite <- (HasPrefix_substring p 11 s Hp).
      now rewrite <- (HasPrefix_substring p 11 t Hp), E. }
    unfold IsOperational, IsPrinting, IsOffline, IsError, IsConnecting.
    rewrite !P by (simpl; lia). repeat split.
  - intros M' ms r. apply TemperatureState_UnmarshalJSON_any_zone.
  - intros ms r. apply TemperatureState_UnmarshalJSON_two_processes.
  - intros ms lit n h. apply HistoricTemperatureData_UnmarshalJSON_two_zones.
Qed.

Lemma decoders_depend_on_the_local_zone_witness :
  (IsOperational "Printing from SD" = IsOperational "Printing from USB" /\
   IsPrinting "Printing from SD" = IsPrinting "Printing from USB" /\
   IsOffline "Printing from SD" = IsOffline "Printing from USB" /\
   IsError "Printing from SD" = IsError "Printing from USB" /\
   IsConnecting "Printing from SD" = IsConnecting "Printing from USB") /\
  TemperatureState_UnmarshalJSON zoneCET convAMD64 savesAlways
    (Encoding (DObject [("tool0", readingOf 200 200 0)]%string))
    zeroTemperatureState =
  TemperatureState_UnmarshalJSON zoneBerlin (fun _ => maxInt64) endsAlways
    (Encoding (DObject [("tool0", readingOf 200 200 0)]%string))
    zeroTemperatureState /\
  TemperatureState_UnmarshalJSON zoneCET convAMD64 savesAlways
    (Encoding (DObject (payloadAt 1610000000))) zeroTemperatureState =
  TemperatureState_UnmarshalJSON zoneBerlin (fun _ => maxInt64) savesAlways
    (Encoding (DObject (payloadAt 1610000000))) zeroTemperatureState /\
  HistoricTemperatureData_UnmarshalJSON zoneCET convAMD64
    (Encoding (entryAt 1610000000)) zeroHistoricTemperatureData =
  HistoricTemperatureData_UnmarshalJSON zoneBerlin (fun _ => maxInt64)
    (Encoding (entryAt 1610000000)) zeroHistoricTemperatureData.
Proof.
  pose proof (decoders_depend_on_the_local_zone
                zoneCET zoneBerlin convAMD64 (fun _ => maxInt64) savesAlways)
    as [P [T0 [T1 H1]]].
  split; [|split; [|split]].
  - apply P. reflexivity.
  - apply T0. reflexivity.
  - apply T1. intros arr E. vm_compute in E. injection E as <-.
    constructor; [vm_compute; reflexivity|constructor].
  - apply (H1 _ (strconv.Integer 1610000000) 1610000000).
    + reflexivity.
    + reflexivity.
    + unfold minInt64, maxInt64. lia.
    + reflexivity.
    + reflexivity.
Defined.

(** C10 as stated fails: the same bytes, the last second of the year
    9999, are decoded where the local zone is UTC and are an error where
    it is one hour ahead; the local zone is a variable of the process. *)
Lemma decoders_differ_between_zones :
  HistoricTemperatureData_UnmarshalJSON zoneUTC convAMD64
    (Encoding (entryAt 253402300799)) zeroHistoricTemperatureData
  <>
  HistoricTemperatureData_UnmarshalJSON zoneCET convAMD64
    (Encoding (entryAt 253402300799)) zeroHistoricTemperatureData.
Proof. vm_compute. discriminate. Qed.

(* ----------------------------------------------------------------- *)
(** ** The full state of the printer *)

Lemma object_FullStateResponse_beside L C M ms :
  Forall besideTemperature ms -> forall v saved,
  exists v' saved',
    object_FullStateResponse L C M ms v saved = Going v' saved' /\
    Temperature v' = Temperature v.
Proof.
  induction 1 as [|[k x] ms Hk _ IH]; intros v saved.
  - now exists v, saved.
  - unfold besideTemperature in Hk. simpl in Hk.
    cbn [object_FullStateResponse].
    destruct (fieldIndex _ k) as [[|[|i]]|].
    + congruence.
    + destruct (value_SDState x (SD v) saved) as [s saved'].
      destruct (IH {| Temperature := Temperature v; SD := s; State := State v |}
                   saved') as [v' [s' [E1 E2]]].
      now exists v', s'.
    + destruct (value_PrinterState x (State v) saved) as [s saved'].
      destruct (IH {| Temperature := Temperature v; SD := SD v; State := s |}
                   saved') as [v' [s' [E1 E2]]].
      now exists v', s'.
    + apply IH.
Qed.

Lemma object_FullStateResponse_app L C M ms1 : forall ms2 v saved,
  object_FullStateResponse L C M (ms1 ++ ms2)%list v saved =
  match object_FullStateResponse L C M ms1 v saved with
  | Going v' saved' => object_FullStateResponse L C M ms2 v' saved'
  | Stopped err => Stopped err
  | Panicked msg => Panicked msg
  end.
Proof.
  induction ms1 as [|[k x] ms1 IH]; intros ms2 v saved; [reflexivity|].
  cbn [app object_FullStateResponse].
  destruct (fieldIndex _ k) as [[|[|i]]|].
  - destruct (TemperatureState_UnmarshalJSON L C M (Encoding x) (Temperature v))
      as [[t [e|]]|]; try reflexivity; [|apply IH].
    destruct (M _); [reflexivity|apply IH].
  - destruct (value_SDState x (SD v) saved). apply IH.
  - destruct (value_PrinterState x (State v) saved). apply IH.
  - apply IH.
Qed.

(** An error that is saved stays saved to the end of the response. *)
Lemma value_bool_saved x v saved :
  snd (value_bool x v saved) = None -> saved = None.
Proof. destruct saved; [|reflexivity]. destruct x; discriminate. Qed.

Lemma value_string_saved x v saved :
  snd (value_string x v saved) = None -> saved = None.
Proof. destruct saved; [|reflexivity]. destruct x; discriminate. Qed.

Lemma object_SDState_saved ms : forall v saved,
  snd (object_SDState ms v saved) = None -> saved = None.
Proof.
  induction ms as [|[k x] ms IH]; intros v saved H; [exact H|].
  cbn [object_SDState] in H. destruct (fieldIndex _ k); [|exact (IH _ _ H)].
  destruct (value_bool x (SDState_Ready v) saved) as [b s] eqn:E.
  apply IH in H. subst s. apply (value_bool_saved x (SDState_Ready v)).
  now rewrite E.
Qed.

Lemma value_SDState_saved x v saved :
  snd (value_SDState x v saved) = None -> saved = None.
Proof.
  destruct x; try (destruct saved; [discriminate|reflexivity]).
  apply object_SDState_saved.
Qed.

Lemma object_Flags_saved ms : forall v saved,
  snd (object_Flags ms v saved) = None -> saved = None.
Proof.
  induction ms as [|[k x] ms IH]; intros v saved H; [exact H|].
  cbn [object_Flags] in H.
  destruct (fieldIndex _ k) as [i|]; [|exact (IH _ _ H)].
  destruct (value_bool x (flagAt i v) saved) as [b s] eqn:E.
  apply IH in H. subst s. apply (value_bool_saved x (flagAt i v)).
  now rewrite E.
Qed.

Lemma value_Flags_saved x v saved :
  snd (value_Flags x v saved) = None -> saved = None.
Proof.
  destruct x; try (destruct saved; [discriminate|reflexivity]).
  apply object_Flags_saved.
Qed.

Lemma object_PrinterState_saved ms : forall v saved,
  snd (object_PrinterState ms v saved) = None -> saved = None.
Proof.
  induction ms as [|[k x] ms IH]; intros v saved H; [exact H|].
  cbn [object_PrinterState] in H.
  destruct (fieldIndex _ k) as [[|i]|]; [| |exact (IH _ _ H)].
  - destruct (value_string x (Text v) saved) as [b s] eqn:E.
    apply IH in H. subst s. apply (value_string_saved x (Text v)).
    now rewrite E.
  - destruct (value_Flags x (Flags v) saved) as [b s] eqn:E.
    apply IH in H. subst s. apply (value_Flags_saved x (Flags v)).
    now rewrite E.
Qed.

Lemma value_PrinterState_saved x v saved :
  snd (value_PrinterState x v saved) = None -> saved = None.
Proof.
  destruct x; try (destruct saved; [discriminate|reflexivity]).
  apply object_PrinterState_saved.
Qed.

Lemma object_FullStateResponse_saved L C M ms : forall v saved v',
  object_FullStateResponse L C M ms v saved = Going v' None -> saved = None.
Proof.
  induction ms as [|[k x] ms IH]; intros v saved v' H.
  - now injection H as _ ->.
  - cbn [object_FullStateResponse] in H.
    destruct (fieldIndex _ k) as [[|[|i]]|]; [| | |exact (IH _ _ _ H)].
    + destruct (TemperatureState_UnmarshalJSON L C M (Encoding x) (Temperature v))
        as [[t [e|]]|]; [|exact (IH _ _ _ H)|discriminate H].
      destruct (M _); [discriminate H|].
      apply IH in H. destruct saved; discriminate H.
    + destruct (value_SDState x (SD v) saved) as [b s] eqn:E.
      apply IH in H. subst s. apply (value_SDState_saved x (SD v)).
      now rewrite E.
    + destruct (value_PrinterState x (State v) saved) as [b s] eqn:E.
      apply IH in H. subst s. apply (value_PrinterState_saved x (State v)).
      now rewrite E.
Qed.

(** The two ways of the package with an error of the temperature decoder,
    on a response whose temperature has a tool that is no reading:
    where the error is saved, the members after [temperature] are
    decoded and the error is returned at the end. *)
Example temperature_error_in_both_ways :
  Unmarshal_FullStateResponse zoneUTC convAMD64 endsAlways
    (Encoding (DObject (fullState
                          (DObject [("tool0", DNumber (strconv.Integer 5))]))))
    zeroFullStateResponse
  = Stopped (UnmarshalTypeError "number" "octoprint.TemperatureData") /\
  Unmarshal_FullStateResponse zoneUTC convAMD64 savesAlways
    (Encoding (DObject (fullState
                          (DObject [("tool0", DNumber (strconv.Integer 5))]))))
    zeroFullStateResponse
  = Going {| Temperature := zeroTemperatureState;
             SD := {| SDState_Ready := true |};
             State := {| Text := "Printing";
                         Flags := {| Operations := true; Puased := false;
                                     Printing := true; SDReady := false;
                                     Error := false; Ready := false;
                                     ClosedOnError := false |} |} |}
          (Some (UnmarshalTypeError "number" "octoprint.TemperatureData")).
Proof. split; vm_compute; reflexivity. Qed.

(** X19: the response fails with its temperature.  When the member that
    goes to [Temperature], by its key [temperature] in any case, comes
    after members that go elsewhere and is one on which
    [TemperatureState.UnmarshalJSON] panics, decoding the response
    panics; when it is one on which the method returns an error,
    decoding the response does not end without an error, whatever the
    members after it are. *)
Theorem full_state_fails_with_its_temperature L C M ms1 k x ms2 v :
  fieldIndex ["temperature"; "sd"; "state"]%string k = Some 0%nat ->
  Forall besideTemperature ms1 ->
  (forall msg,
     TemperatureState_UnmarshalJSON L C M (Encoding x) zeroTemperatureState
       = Panics msg ->
     Unmarshal_FullStateResponse L C M
       (Encoding (DObject (ms1 ++ (k, x) :: ms2)%list)) v = Panicked msg) /\
  (forall r err,
     TemperatureState_UnmarshalJSON L C M (Encoding x) zeroTemperatureState
       = Returns (r, Some err) ->
     forall v',
     Unmarshal_FullStateResponse L C M
       (Encoding (DObject (ms1 ++ (k, x) :: ms2)%list)) v <> Going v' None).
Proof.
  intros Hk H1. cbn [Unmarshal_FullStateResponse].
  rewrite object_FullStateResponse_app.
  destruct (object_FullStateResponse_beside L C M ms1 H1 v None)
    as [v1 [s1 [-> _]]].
  cbn [object_FullStateResponse]. rewrite Hk.
  rewrite (TemperatureState_UnmarshalJSON_receiver L C M (Encoding x)
             zeroTemperatureState (Temperature v1)).
  split.
  - intros msg ->. reflexivity.
  - intros r err -> v' H. destruct (M _); [discriminate H|].
    apply object_FullStateResponse_saved in H.
    destruct s1; discriminate H.
Qed.

Lemma full_state_fails_with_its_temperature_witness :
  Unmarshal_FullStateResponse zoneUTC convAMD64 savesAlways
    (Encoding (DObject (fullState
                          (DObject [("tool0", readingOf 200 200 0);
                                    ("history", DArray [DObject []])]))))
    zeroFullStateResponse
  = Panicked "interface conversion: interface {} is not float64" /\
  (forall v',
     Unmarshal_FullStateResponse zoneUTC convAMD64 savesAlways
       (Encoding (DObject (fullState
                             (DObject [("tool0", DNumber (strconv.Integer 5))]))))
       zeroFullStateResponse
     <> Going v' None).
Proof.
  split.
  - refine (proj1 (full_state_fails_with_its_temperature zoneUTC convAMD64 savesAlways
                     [("sd", DObject [("ready", DBool true)])] "temperature"
                     (DObject [("tool0", readingOf 200 200 0);
                               ("history", DArray [DObject []])])
                     (tl (tl (fullState DNull)))
                     zeroFullStateResponse eq_refl _) _ _).
    + repeat constructor. unfold besideTemperature. vm_compute. discriminate.
    + reflexivity.
  - refine (proj2 (full_state_fails_with_its_temperature zoneUTC convAMD64 savesAlways
                     [("sd", DObject [("ready", DBool true)])] "temperature"
                     (DObject [("tool0", DNumber (strconv.Integer 5))])
                     (tl (tl (fullState DNull)))
                     zeroFullStateResponse eq_refl _)
              zeroTemperatureState
              (UnmarshalTypeError "number" "octoprint.TemperatureData") _).
    + repeat constructor. unfold besideTemperature. vm_compute. discriminate.
    + reflexivity.
Defined.

(** X20: the response holds what the method leaves.  When one member
    goes to [Temperature] and [TemperatureState.UnmarshalJSON] returns
    no error on it, the response is decoded to the end and its
    [Temperature] is the value the method gives, whatever the field
    held before; [null] is such a member and leaves the zero value. *)
Theorem full_state_holds_the_temperature L C M ms1 k x ms2 v t :
  fieldIndex ["temperature"; "sd"; "state"]%string k = Some 0%nat ->
  Forall besideTemperature ms1 -> Forall besideTemperature ms2 ->
  TemperatureState_UnmarshalJSON L C M (Encoding x) zeroTemperatureState
    = Returns (t, None) ->
  exists v' saved,
    Unmarshal_FullStateResponse L C M
      (Encoding (DObject (ms1 ++ (k, x) :: ms2)%list)) v = Going v' saved /\
    Temperature v' = t.
Proof.
  intros Hk H1 H2 Ht. cbn [Unmarshal_FullStateResponse].
  rewrite object_FullStateResponse_app.
  destruct (object_FullStateResponse_beside L C M ms1 H1 v None)
    as [v1 [s1 [-> _]]].
  cbn [object_FullStateResponse]. rewrite Hk.
  rewrite (TemperatureState_UnmarshalJSON_receiver L C M (Encoding x)
             zeroTemperatureState (Temperature v1)), Ht.
  destruct (object_FullStateResponse_beside L C M ms2 H2
              {| Temperature := t; SD := SD v1; State := State v1 |} s1)
    as [v2 [s2 [-> E]]].
  now exists v2, s2.
Qed.

Lemma full_state_holds_the_temperature_witness :
  exists v' saved,
    Unmarshal_FullStateResponse zoneUTC convAMD64 savesAlways
      (Encoding (DObject (fullState DNull)))
      {| Temperature := {| Current := Some []; History := Some [] |};
         SD := {| SDState_Ready := false |};
         State := {| Text := ""; Flags := zeroPrinterStateFlags |} |}
    = Going v' saved /\
    Temperature v' = zeroTemperatureState.
Proof.
  apply (full_state_holds_the_temperature zoneUTC convAMD64 savesAlways
           [("sd", DObject [("ready", DBool true)])] "temperature" DNull).
  - reflexivity.
  - repeat constructor. unfold besideTemperature. vm_compute. discriminate.
  - repeat constructor. unfold besideTemperature. vm_compute. discriminate.
  - reflexivity.
Defined.
